(* ===== verification/_CoqProject ===== *)
-Q . S2P
Prelude.v
Expr.v
Engine.v
Matrix.v
Decompose.v
Classify.v
Bosons.v
Diagonal.v
Domain.v
Ansatz.v
FiniteOperators.v
PyswUtils.v
Solver.v
SolverSemantics.v
SolverRefinement.v
ExpandOperators.v
TestScript.v
