(* ===== verification/Prelude.v ===== *)
(** * A verification development of PySW (order-by-order Schrieffer-Wolff)

    PySW block-diagonalises quantum Hamiltonians written as SymPy
    expressions over finite operators (Pauli-type matrices on named
    subspaces), bosonic ladder operators and perturbation symbols that
    carry an order.  Its core, [src/Modules/sympy/utils.py], is a family
    of [multimethod]s that dispatch on the class of a leaf and, on a
    compound expression, expand it, split it into terms and factors and
    recurse on every factor:
    - [get_terms_and_factors] (lines 18-46) decomposes an expression;
    - the classifiers [group_by_order] (48-69), [group_by_infinite]
      (71-87), [count_bosons] (89-117) and [group_by_diagonal] (121-145)
      call it and file every term under a key in a dict of sums;
    - [get_finite_identities] (148-166) and [domain_expansion] (170-221)
      turn operators into Kronecker products of matrices.
    [src/pysw/classes.py] defines [SubSpace], [RDOperator], [RDsymbol] and
    their commutation hooks; [src/pysw/utils.py] and [src/pysw/solver.py]
    are an older classifier and the solver that drives them.

    ** Files and what they model
    - [Prelude]: Python exceptions as the error monad [result] (notation
      [x <- c ;; k] in [py_scope], monadic list map [mapR]); Python dicts
      as insertion-ordered association lists ([dget] for [d.get], [dset]
      for [d[k] = v], [dindex] for [d[k]], [dupdate] for [d.update]); the
      accumulation loop [d[key] = d.get(key, 0) + term] shared by all
      classifiers as [group_pairs], a dict value (a SymPy sum) being the
      list of its summands; the shared lemmas and the [pysw] hint database.
    - [Expr]: the expression type with the node kinds of the program
      (numbers, [RDsymbol], [RDOperator] with subspace, dimension and
      matrix, [RDBoson], [Add], [Mul], [Pow], [Commutator]), the leaf
      tests of the multimethod signatures, and the [SubSpace] record,
      [RDsymbol] default order and commutation hooks of
      [src/pysw/classes.py].
    - [Engine]: SymPy's [expand]/[as_ordered_terms]/[as_ordered_factors],
      which the program only calls, as the class [AlgebraEngine] with the
      laws [EngineLaws] the proofs use; [sop_engine], a distributing
      sum-of-products engine, is an instance satisfying them.  Every
      component is a Section over an [AlgebraEngine], so its theorems
      hold for any engine that satisfies the laws.
    - [Matrix]: [eye], [kronecker_product], scalar multiplication and
      the matrix product, which raises [ShapeError] on sizes that do not
      fit.
    - [Decompose]: [get_terms_and_factors].
    - [Classify]: [group_by_order] and [group_by_infinite].
    - [Bosons]: [count_bosons].
    - [Diagonal]: the diagonality test of one operator and
      [group_by_diagonal].
    - [Domain]: [get_finite_identities] and [domain_expansion].
    - [Ansatz]: the ansatz helpers of lines 223-264: [nested_commutator],
      [S] (named [S_op]) with its [reshape] of fresh symbols,
      [group_by_infinite_operators], and [expand_commutator], whose
      [while] loop is a Section over the expansion function.
    - [FiniteOperators]: [get_finite_operators] and [get_matrix] (lines
      266-295).  [get_matrix]'s values are scalars and matrices ([GVal]);
      [mat_res *= get_matrix(factor)] is [py_mul], SymPy's scaling or
      matrix product; SymPy's [Add] of the products is a parameter, so
      the theorems hold whatever it does with them.
    - [PyswUtils]: the older module [src/pysw/utils.py]: its
      [group_by_order], [group_by_infinite], [group_by_diagonal] (which
      walk the tree with [find], [has] and [atoms]), [expand_operators]
      with its assertions and its in-place update of the caller's list,
      and its [nested_commutator].
    - [Solver]: [get_ansatz] and [solver] of [src/pysw/solver.py], with
      Python's [None], ints and SymPy sums as the values [PyVal], the
      loop state as the record [SolverState] and the [for] loop as the
      monadic fold [fold_result], up to the first statement that raises.
    - [SolverSemantics]: every line of [get_ansatz] and [solver] against
      an abstract object protocol, the class [PyObjects] (attributes,
      calls with keyword arguments, operators, iteration, [in], indexing,
      truth, [<], [str]), with the free names looked up in the module
      namespace ([py_name]) that the imports of [solver.py], [classes.py]
      and [utils.py] build ([solver_module_names]); Python's builtins
      ([sum], [min], unpacking, comprehensions) are written out.  The
      printing methods of [classes.py] and [group_by_infinite_operaters]
      of [utils.py], which only call SymPy, are written the same way.
    - [SolverRefinement]: the instance [concrete_objects] of the protocol
      on the values [Solver] uses; on it the two models of the solver
      compute the same result.
    - [ExpandOperators]: every line of [expand_operators] of
      [src/pysw/utils.py] with the object protocol (plus [==] and
      [isinstance], the class [PyCompare]), [expr.subs] included; the
      caller's list [subs] is state threaded through the loop and kept
      when an exception stops it.  The instance on the operators and
      matrices of [PyswUtils] relates it to [PyswUtils.expand_operators].
    - [TestScript]: [src/test.py] as syntax ([PyExpr], [PyStmt]) run in
      the namespace its imports build, with a scope check.
    Each multimethod is one [Fixpoint]: a match on the leaf constructors
    (the leaf implementations), then the [Expr] implementation, which
    calls [get_terms_and_factors] and the function itself on the factors.
    The value a Python implementation returns is an inductive type with
    one constructor per kind of value (an int or a dict, a bool or a
    dict, [None], a pair or a dict), so that the type errors the code
    hits when it mixes them are values of [result].  A list the code
    mutates in place ([subs] in [expand_operators]) is returned by the
    model as the new value the caller's list holds.

    ** Fuel
    Every recursive function takes a [fuel] argument that stands for
    Python's recursion limit: running out of it is [Err RecursionError].
    A compound expression needs two levels for a classifier (the call and
    the decomposition of its factors), three for [group_by_diagonal],
    which also calls [count_bosons]; the theorems are stated for
    [S (S fuel)] or [S (S (S fuel))] and an arbitrary [fuel], which is
    enough for every decomposable expression.  The opposite case is also
    proved: an expression with an opaque factor fails for every fuel, as
    do [nested_commutator] with a negative [k] and [get_matrix] on a
    boson.  The [while] loop of [expand_commutator] is not a recursion:
    its fuel bounds the number of iterations and [None] means the loop
    is still running; its termination is proved as an equivalence with
    the existence of a fixed point of the expansion.

    ** What the theorems show
    - decomposition: [get_terms_and_factors] terminates on decomposable
      expressions with the engine's terms and leaf factors, and diverges
      on an opaque factor such as an unevaluated commutator;
    - classification: each classifier returns the dict whose buckets are
      given by a specification predicate on the term ([term_order],
      [term_infinite], [boson_count], [term_is_diagonal]), and the buckets
      are a permutation of the terms (the lemma [group_pairs_perm] of the
      accumulation loop they share);
    - the boolean tests the code computes equal their specifications: the
      residual sum of [group_by_diagonal] on an operator is zero exactly
      when its off-diagonal entries are, and the balance test over the
      count dict is balance of every mode;
    - domain expansion yields square matrices of the product dimension,
      and [get_finite_identities] keeps the last operator of a subspace;
    - the ansatz: [S] is a [dim x dim] matrix whose entry [(i, j)] is
      the fresh symbol [name_{i*dim+j}]; [nested_commutator]
      returns the [k]-fold commutator exactly when [0 <= k] fits the
      recursion limit; [group_by_infinite_operators] files the finite
      terms under [1] and the infinite ones by their product of boson
      factors; [expand_commutator] returns
      a fixed point of the expansion, and returns iff one is reachable;
    - finite operators: [get_finite_operators] builds square matrices of
      the product dimension, raises [IndexError] on short lists, and
      expands an operator whose subspace is listed twice by its own
      matrix twice; [get_matrix] passes [Add] the ordered product of each
      term when the operators of a term have one size (always so for the
      operators [get_finite_operators] builds), raises [ShapeError] when
      they do not, and [RecursionError] on a boson;
    - the solver against any object behaviour: in any namespace without
      [tmp_H] no iteration of the loop completes; in the namespace the
      repository gives it, [solver] returns only for [order <= 0] (then
      [group_by_order(H).get(0)]) and [get_ansatz] always raises
      [NameError] (line 13 reads the unbound [H]); on the values of [Solver] the
      protocol model and the concrete model compute the same result;
    - [expand_operators] with the caller's list: an exception at
      position [k] leaves the list with the expanded elements before [k]
      and the original ones after; on concrete values its loop raises
      exactly when the concrete model does and otherwise leaves the
      pairs that model computes;
    - the script: a scope check on the syntax is sound (a well-scoped
      script on objects that raise no [NameError] raises none), and
      [src/test.py] passes it;
    - the older module and the solver: the set-based order of
      [group_by_order], the swapped slots of [group_by_infinite] and
      [group_by_diagonal], the [NameError] of the latter on bosons, the
      assertions and in-place update of [expand_operators], and the
      outcome of [solver] on every input: [NameError], the order-0 part,
      or [TypeError];
    - error paths and divergences from the specification (spec.md): a
      lone leaf term makes [group_by_diagonal] raise, the default
      identities raise [KeyError], a power of a sum raises [TypeError],
      a negative exponent is silently order 0, an operator on an
      unlisted subspace becomes the identity.
    Every theorem with hypotheses has a witness in the [Examples] module
    of its file, on the spec's scenarios.

    ** Not modelled
    SymPy itself beyond the engine laws (collection of like terms, the
    canonical order of terms, [expr.subs], [Matrix.subs], [solve],
    printing).  Where the program only calls SymPy ([get_ansatz] and
    [solver] past their first failure, [group_by_infinite_operaters],
    the printing methods, [expr.subs] in [expand_operators],
    [src/test.py]),
    the values are those of the abstract protocol: the theorems there
    hold whatever SymPy returns or raises, and say nothing about the
    values themselves.  The rational coefficient of [src/test.py] is such
    a value; the expression type [Expr] has integer numbers only. *)

From Stdlib Require Import ZArith.
From stdpp Require Import base list strings decidable sets.
Import ListNotations.

(** ** Python failures

    The program signals failure by raising Python (or SymPy) exceptions.
    Every fallible operation of the model returns a [result]: [Ok v] for a
    normal return, [Err e] for the exception [e] the code raises. *)

Inductive PyError : Type :=
| TypeError       (** wrong operand type, e.g. [0 + dict] or [None + expr] *)
| KeyError        (** a missing key in a Python dict *)
| IndexError      (** [lst[0]] of an empty list *)
| AttributeError  (** an attribute or method the object lacks *)
| ValueError      (** unpacking a value of the wrong arity *)
| NameError       (** a name that is not bound *)
| RecursionError  (** the interpreter's recursion limit was hit *)
| AssertionError  (** a failed [assert] *)
| ShapeError.     (** SymPy's error for incompatible matrix shapes *)

#[export] Instance PyError_eq_dec : EqDecision PyError.
Proof. solve_decision. Defined.

Inductive result (A : Type) : Type :=
| Ok (a : A)
| Err (e : PyError).
Arguments Ok {A} a.
Arguments Err {A} e.

Definition rbind {A B} (c : result A) (k : A -> result B) : result B :=
  match c with Ok a => k a | Err e => Err e end.

Definition rmap {A B} (f : A -> B) (c : result A) : result B :=
  rbind c (fun a => Ok (f a)).

Declare Scope py_scope.
Delimit Scope py_scope with py.
Notation "x <- c ;; k" := (rbind c (fun x => k))
  (at level 60, c at next level, right associativity) : py_scope.
Open Scope py_scope.

(** [mapR f l] runs [f] on every element of [l] in order and stops at the
    first exception, as a Python list comprehension does. *)
Fixpoint mapR {A B} (f : A -> result B) (l : list A) : result (list B) :=
  match l with
  | [] => Ok []
  | x :: l' => y <- f x ;; ys <- mapR f l' ;; Ok (y :: ys)
  end.

(** [nonempty l] is [None] on the empty list: a dict bucket that was never
    created. *)
Definition nonempty {A} (l : list A) : option (list A) :=
  match l with [] => None | _ => Some l end.

Lemma default_nonempty {A} (l : list A) : default [] (nonempty l) = l.
Proof. by destruct l. Qed.

Lemma Forall2_Forall_snd {A B} (P : B -> Prop) (l : list A) (k : list B) :
  Forall2 (fun _ y => P y) l k -> Forall P k.
Proof. induction 1; constructor; auto. Qed.

(** Pairing a list with an image of itself, as [zip(terms, factors)]. *)
Lemma elem_of_combine_map {A B} (f : A -> B) (l : list A) x y :
  (x, y) ∈ combine l (map f l) -> x ∈ l /\ y = f x.
Proof.
  induction l as [|a l IH]; simpl; [set_solver|].
  rewrite elem_of_cons. intros [Hxy|Hxy]; [injection Hxy as -> ->; split; [left|done]|].
  destruct (IH Hxy) as [? ?]. split; [by right|done].
Qed.

Lemma map_combine_map {A B C} (f : A -> B) (g : A -> B -> C) (l : list A) :
  map (fun xy => g xy.1 xy.2) (combine l (map f l)) = map (fun x => g x (f x)) l.
Proof. induction l as [|a l IH]; simpl; [done|]. by rewrite IH. Qed.

Lemma filter_all_true {A} (P : A -> Prop) `{!forall x, Decision (P x)} (l : list A) :
  (forall x, x ∈ l -> P x) -> filter P l = l.
Proof.
  induction l as [|x l IH]; intros Hall; [done|].
  rewrite filter_cons_True by (apply Hall; left). f_equal. apply IH.
  intros y Hy. apply Hall. by right.
Qed.

Lemma filter_all_false {A} (P : A -> Prop) `{!forall x, Decision (P x)} (l : list A) :
  (forall x, x ∈ l -> ~ P x) -> filter P l = [].
Proof.
  induction l as [|x l IH]; intros Hall; [done|].
  rewrite filter_cons_False by (apply Hall; left). apply IH.
  intros y Hy. apply Hall. by right.
Qed.

(** [head_or_index_error l] is Python's [l[0]]. *)
Definition head_or_index_error {A} (l : list A) : result A :=
  match l with [] => Err IndexError | x :: _ => Ok x end.

(** [lst[i]] for [0 <= i], which raises [IndexError] past the end *)
Definition py_index {A} (l : list A) (i : nat) : result A :=
  match l !! i with Some x => Ok x | None => Err IndexError end.

(** ** Python dicts

    A Python [dict] keeps its keys in insertion order, and assigning to an
    existing key keeps the key's position.  It is modelled as an
    association list with no duplicate keys. *)

Notation dict K V := (list (K * V)) (only parsing).

Section Dict.
Context {K V : Type} `{EqDecision K}.

(** [d.get(k)] *)
Fixpoint dget (k : K) (d : dict K V) : option V :=
  match d with
  | [] => None
  | (k', v) :: d' => if decide (k = k') then Some v else dget k d'
  end.

(** [d.get(k, dflt)] *)
Definition dget_or (dflt : V) (k : K) (d : dict K V) : V :=
  default dflt (dget k d).

(** [d[k] = v] *)
Fixpoint dset (k : K) (v : V) (d : dict K V) : dict K V :=
  match d with
  | [] => [(k, v)]
  | (k', v') :: d' =>
      if decide (k = k') then (k, v) :: d' else (k', v') :: dset k v d'
  end.

(** [d[k]], which raises [KeyError] on a missing key *)
Definition dindex (k : K) (d : dict K V) : result V :=
  match dget k d with Some v => Ok v | None => Err KeyError end.

Definition dkeys (d : dict K V) : list K := map fst d.
Definition dvalues (d : dict K V) : list V := map snd d.

(** [d.update(d')]: every pair of [d'] assigned in order *)
Definition dupdate (d d' : dict K V) : dict K V :=
  fold_left (fun acc kv => dset kv.1 kv.2 acc) d' d.

Lemma dget_dset_eq k v d : dget k (dset k v d) = Some v.
Proof.
  induction d as [|[k' v'] d IH]; simpl; [by rewrite decide_True|].
  case_decide; simpl; [by rewrite decide_True|].
  rewrite decide_False by done. exact IH.
Qed.

Lemma dget_dset_ne k k' v d : k <> k' -> dget k' (dset k v d) = dget k' d.
Proof.
  intros Hne. induction d as [|[k'' v'] d IH]; simpl.
  - by rewrite decide_False.
  - case_decide as Hk; simpl; subst.
    + by rewrite !decide_False by congruence.
    + case_decide; [done|exact IH].
Qed.

Lemma dget_Some_in k v d : dget k d = Some v -> k ∈ dkeys d.
Proof.
  induction d as [|[k' v'] d IH]; simpl; [done|].
  case_decide; intros Hv; subst; [left|right; auto].
Qed.

Lemma dget_None_notin k d : dget k d = None <-> k ∉ dkeys d.
Proof.
  induction d as [|[k' v'] d IH]; simpl; [split; [set_solver|done]|].
  unfold dkeys in *. simpl. rewrite elem_of_cons.
  case_decide; [subst; naive_solver|]. rewrite IH. naive_solver.
Qed.

Lemma dget_Some_elem k v d : dget k d = Some v -> (k, v) ∈ d.
Proof.
  induction d as [|[k' v'] d IH]; simpl; [done|].
  case_decide; intros Hv; [injection Hv as <-; subst; left|right; auto].
Qed.

Lemma dget_elem_NoDup k v d : NoDup (dkeys d) -> (k, v) ∈ d -> dget k d = Some v.
Proof.
  induction d as [|[k' v'] d IH]; simpl; [set_solver|].
  unfold dkeys. simpl. rewrite NoDup_cons. intros [Hk Hnd] Hin.
  apply elem_of_cons in Hin as [Hin|Hin].
  - injection Hin as -> ->. by rewrite decide_True.
  - rewrite decide_False; [by apply IH|]. intros Heq. subst k'. apply Hk.
    apply list_elem_of_fmap. by exists (k, v).
Qed.

Lemma dkeys_dset k v d :
  dkeys (dset k v d) = if decide (k ∈ dkeys d) then dkeys d else dkeys d ++ [k].
Proof.
  unfold dkeys. induction d as [|[k' v'] d IH]; simpl; [done|].
  destruct (decide (k = k')) as [<-|Hk]; simpl.
  - rewrite decide_True; [done|set_solver].
  - rewrite IH.
    destruct (decide (k ∈ map fst d)), (decide (k ∈ k' :: map fst d));
      first [reflexivity | set_solver].
Qed.

Lemma dkeys_dset_NoDup k v d : NoDup (dkeys d) -> NoDup (dkeys (dset k v d)).
Proof.
  rewrite dkeys_dset. case_decide; [done|].
  intros Hnd. apply NoDup_app. split_and!; [done| |apply NoDup_singleton].
  set_solver.
Qed.
Lemma dupdate_NoDup d d' : NoDup (dkeys d) -> NoDup (dkeys (dupdate d d')).
Proof.
  revert d. induction d' as [|[k v] d' IH]; intros d Hd; [done|].
  apply IH, dkeys_dset_NoDup, Hd.
Qed.

Lemma fold_dupdate_NoDup ds d0 : NoDup (dkeys d0) -> NoDup (dkeys (fold_left dupdate ds d0)).
Proof.
  revert d0. induction ds as [|d ds IH]; intros d0 Hd; [done|].
  apply IH, dupdate_NoDup, Hd.
Qed.
Lemma dset_fresh k v d : k ∉ dkeys d -> dset k v d = d ++ [(k, v)].
Proof.
  induction d as [|[k' v'] d IH]; intros Hk; simpl; [done|].
  unfold dkeys in Hk. simpl in Hk. rewrite elem_of_cons in Hk.
  rewrite decide_False by naive_solver. rewrite IH; [done|naive_solver].
Qed.

(** [d.update(kvs)] with keys that are distinct and new appends them. *)
Lemma dupdate_fresh d kvs :
  NoDup (map fst kvs) -> (forall k, k ∈ map fst kvs -> k ∉ dkeys d) -> dupdate d kvs = d ++ kvs.
Proof.
  revert d. induction kvs as [|[k v] kvs IH]; intros d Hnd Hfresh; simpl; [by rewrite app_nil_r|].
  unfold dupdate in *. simpl in *. rewrite NoDup_cons in Hnd. destruct Hnd as [Hk Hnd].
  rewrite dset_fresh by (apply Hfresh; left). rewrite IH; [by rewrite <-app_assoc|done|].
  intros k' Hk'. unfold dkeys. rewrite map_app, elem_of_app. simpl. intros [Hin|Hin].
  - by apply (Hfresh k'); [right|].
  - apply list_elem_of_singleton in Hin. subst. contradiction.
Qed.
End Dict.

Lemma map_fst_combine {A B} (l1 : list A) (l2 : list B) :
  length l1 = length l2 -> map fst (combine l1 l2) = l1.
Proof. revert l2. induction l1; intros [|??] Hl; simpl in *; try done; f_equal; auto. Qed.

Lemma map_snd_combine {A B} (l1 : list A) (l2 : list B) :
  length l1 = length l2 -> map snd (combine l1 l2) = l2.
Proof. revert l2. induction l1; intros [|??] Hl; simpl in *; try done; f_equal; auto. Qed.

(** ** Grouping into a dict of sums

    Every classifier of the program ends with the loop
    [for term in terms: d[key] = d.get(key, 0) + term].  A dict value is a
    SymPy sum; it is represented by the list of its summands in the order
    they were added, [0] being the empty list.  [group_pairs] is that loop
    over the (key, term) pairs; its lemmas are shared by all classifiers. *)

Section Group.
Context {K A : Type} `{EqDecision K}.

(** [d[k] = d.get(k, 0) + x] *)
Definition dict_append (k : K) (x : A) (d : dict K (list A)) : dict K (list A) :=
  dset k (dget_or [] k d ++ [x]) d.

Definition group_pairs (kvs : list (K * A)) : dict K (list A) :=
  fold_left (fun d kv => dict_append kv.1 kv.2 d) kvs [].

(** The summands of [kvs] that carry key [k], in order. *)
Definition bucket (k : K) (kvs : list (K * A)) : list A :=
  map snd (filter (fun kv => kv.1 = k) kvs).

(** Grouping values by a key computed from each of them. *)
Lemma bucket_combine_map (f : A -> K) k (l : list A) :
  bucket k (combine (map f l) l) = filter (fun x => f x = k) l.
Proof.
  unfold bucket. induction l as [|x l IH]; simpl; [done|].
  rewrite !filter_cons. simpl. destruct (decide (f x = k)); simpl; by rewrite IH.
Qed.

Lemma bucket_map_pair {B} (f : B -> K) (g : B -> A) k (l : list B) :
  bucket k (map (fun x => (f x, g x)) l) = map g (filter (fun x => f x = k) l).
Proof.
  unfold bucket. induction l as [|x l IH]; simpl; [done|].
  rewrite !filter_cons. simpl. destruct (decide (f x = k)); simpl; by rewrite IH.
Qed.

Lemma map_snd_combine_map (f : A -> K) (l : list A) : map snd (combine (map f l) l) = l.
Proof. induction l as [|x l IH]; simpl; [done|]. by rewrite IH. Qed.

Lemma dget_dict_append_eq k x d :
  dget k (dict_append k x d) = Some (dget_or [] k d ++ [x]).
Proof. apply dget_dset_eq. Qed.

Lemma dget_dict_append_ne k k' x d :
  k <> k' -> dget k' (dict_append k x d) = dget k' d.
Proof. apply dget_dset_ne. Qed.

Lemma dget_or_fold k kvs d :
  dget_or [] k (fold_left (fun d kv => dict_append kv.1 kv.2 d) kvs d)
  = dget_or [] k d ++ bucket k kvs.
Proof.
  revert d. induction kvs as [|[k' x] kvs IH]; intros d; simpl.
  - unfold bucket. simpl. by rewrite app_nil_r.
  - rewrite IH. unfold bucket. rewrite filter_cons.
    destruct (decide ((k', x).1 = k)) as [Hk|Hk]; simpl in *.
    + subst. unfold dget_or at 1. rewrite dget_dict_append_eq. simpl.
      by rewrite <-app_assoc.
    + unfold dget_or at 1. rewrite dget_dict_append_ne by done. done.
Qed.

Lemma dget_fold_is_Some k kvs d :
  is_Some (dget k (fold_left (fun d kv => dict_append kv.1 kv.2 d) kvs d))
  <-> is_Some (dget k d) \/ k ∈ map fst kvs.
Proof.
  revert d. induction kvs as [|[k' x] kvs IH]; intros d; simpl.
  - set_solver.
  - rewrite IH, elem_of_cons. destruct (decide (k' = k)) as [->|Hne].
    + rewrite dget_dict_append_eq. naive_solver.
    + rewrite dget_dict_append_ne by done. naive_solver.
Qed.

Lemma bucket_nil_iff k kvs : bucket k kvs = [] <-> k ∉ map fst kvs.
Proof.
  induction kvs as [|[k' x] kvs IH]; unfold bucket in *; simpl; [set_solver|].
  rewrite filter_cons, elem_of_cons.
  destruct (decide ((k', x).1 = k)); simpl in *; [naive_solver|].
  rewrite IH. naive_solver.
Qed.

(** The bucket of key [k] holds exactly the summands whose key is [k], in
    their original order, and the key is absent when there are none. *)
Lemma dget_group_pairs k kvs : dget k (group_pairs kvs) = nonempty (bucket k kvs).
Proof.
  pose proof (dget_or_fold k kvs []) as Hor.
  pose proof (dget_fold_is_Some k kvs []) as Hs.
  pose proof (bucket_nil_iff k kvs) as Hb.
  unfold group_pairs, dget_or in *. simpl in *.
  destruct (dget k _) as [l|]; simpl in *.
  - subst l. destruct (bucket k kvs) eqn:E; [|done]. exfalso.
    destruct (proj1 Hs (mk_is_Some _ _ eq_refl)) as [[? ?]|Hin]; [discriminate|].
    by apply Hb.
  - by rewrite <-Hor.
Qed.

Lemma dkeys_group_pairs_NoDup kvs : NoDup (dkeys (group_pairs kvs)).
Proof.
  unfold group_pairs. generalize (NoDup_nil_2 (A:=K)).
  change (@nil K) with (dkeys (@nil (K * list A))).
  generalize (@nil (K * list A)).
  induction kvs as [|kv kvs IH]; intros d Hd; simpl; [done|].
  apply IH. by apply dkeys_dset_NoDup.
Qed.

Lemma elem_of_dkeys_group_pairs k kvs : k ∈ dkeys (group_pairs kvs) <-> k ∈ map fst kvs.
Proof.
  split; intros Hin.
  - destruct (decide (k ∈ map fst kvs)) as [|Hn]; [done|].
    apply bucket_nil_iff in Hn. pose proof (dget_group_pairs k kvs) as E.
    rewrite Hn in E. by apply dget_None_notin in E.
  - destruct (dget k (group_pairs kvs)) eqn:E; [by eapply dget_Some_in|].
    rewrite dget_group_pairs in E.
    destruct (bucket k kvs) eqn:Hb; [|discriminate]. by apply bucket_nil_iff in Hb.
Qed.

Lemma dvalues_dict_append k x d :
  concat (dvalues (dict_append k x d)) ≡ₚ concat (dvalues d) ++ [x].
Proof.
  unfold dict_append, dget_or, dvalues.
  induction d as [|[k' v] d IH]; simpl; [done|].
  destruct (decide (k = k')) as [<-|Hne]; simpl.
  - rewrite <-!app_assoc. apply Permutation_app_head, Permutation_app_comm.
  - rewrite IH. by rewrite app_assoc.
Qed.

(** No summand is lost or duplicated: the buckets together are a
    permutation of the summands. *)
Lemma group_pairs_perm kvs : concat (dvalues (group_pairs kvs)) ≡ₚ map snd kvs.
Proof.
  unfold group_pairs.
  assert (Hgen : forall d, concat (dvalues (fold_left (fun d kv => dict_append kv.1 kv.2 d) kvs d))
                           ≡ₚ concat (dvalues d) ++ map snd kvs).
  { induction kvs as [|[k x] kvs IH]; intros d; simpl; [by rewrite app_nil_r|].
    rewrite IH, dvalues_dict_append. by rewrite <-app_assoc. }
  rewrite Hgen. done.
Qed.
End Group.

(** [d[k] = d.get(k, 0) + s] for a sum [s] given by its summands: a
    SymPy sum absorbs a zero, which contributes no summand. *)
Definition dict_extend {K A} `{EqDecision K} (k : K) (xs : list A) (d : dict K (list A)) : dict K (list A) :=
  dset k (dget_or [] k d ++ xs) d.

Lemma dget_fold_extend {K A} `{EqDecision K} (k : K) (kvs : list (K * list A)) d :
  dget k (fold_left (fun d kv => dict_extend kv.1 kv.2 d) kvs d)
  = match dget k d, bucket k kvs with
    | None, [] => None
    | _, _ => Some (dget_or [] k d ++ concat (bucket k kvs))
    end.
Proof.
  revert d. induction kvs as [|[k' xs] kvs IH]; intros d; cbn [fold_left fst snd].
  - unfold bucket, dget_or. simpl. destruct (dget k d); by rewrite ?app_nil_r.
  - rewrite IH. unfold bucket. rewrite filter_cons. cbn [fst].
    destruct (decide (k' = k)) as [<-|Hne].
    + unfold dict_extend, dget_or. rewrite !dget_dset_eq. cbn [default map snd concat].
      destruct (dget k' d); cbv [id default]; by rewrite ?app_assoc.
    + unfold dict_extend, dget_or. by rewrite !dget_dset_ne by done.
Qed.


(** ** The [result] monad *)

Section ResultLemmas.

Lemma rbind_Ok_inv {A B} (c : result A) (k : A -> result B) b :
  rbind c k = Ok b -> exists a, c = Ok a /\ k a = Ok b.
Proof. destruct c; simpl; [eauto|discriminate]. Qed.

Lemma rbind_Err_inv {A B} (c : result A) (k : A -> result B) e :
  rbind c k = Err e -> c = Err e \/ exists a, c = Ok a /\ k a = Err e.
Proof. destruct c as [a|e']; simpl; intros H; [right; eauto|left; congruence]. Qed.

Lemma mapR_Ok_iff {A B} (f : A -> result B) l l' :
  mapR f l = Ok l' <-> Forall2 (fun a b => f a = Ok b) l l'.
Proof.
  revert l'. induction l as [|x l IH]; intros l'; simpl.
  - split; [injection 1 as <-; constructor|inversion 1; done].
  - split.
    + intros H. apply rbind_Ok_inv in H as (y & Hy & H).
      apply rbind_Ok_inv in H as (ys & Hys & H). injection H as <-.
      constructor; [done|by apply IH].
    + inversion 1 as [|? y ? ys Hy Hys]; subst. rewrite Hy. simpl.
      by rewrite (proj2 (IH ys) Hys).
Qed.

Lemma mapR_length {A B} (f : A -> result B) l l' : mapR f l = Ok l' -> length l' = length l.
Proof. rewrite mapR_Ok_iff. intros H. symmetry. by eapply Forall2_length. Qed.

Lemma mapR_Ok_map {A B} (f : A -> result B) (g : A -> B) l :
  (forall a, a ∈ l -> f a = Ok (g a)) -> mapR f l = Ok (map g l).
Proof.
  induction l as [|x l IH]; intros H; simpl; [done|].
  rewrite H by left. simpl. rewrite IH; [done|]. intros a Ha. apply H. by right.
Qed.

Lemma mapR_Err_elem {A B} (f : A -> result B) l e :
  mapR f l = Err e -> exists a, a ∈ l /\ f a = Err e.
Proof.
  induction l as [|x l IH]; simpl; [discriminate|]. intros H.
  apply rbind_Err_inv in H as [H|(y & _ & H)]; [exists x; split; [left|done]|].
  apply rbind_Err_inv in H as [H|(ys & _ & H)]; [|discriminate].
  destruct (IH H) as (a & ? & ?). exists a. split; [by right|done].
Qed.

Lemma mapR_elem_Err {A B} (f : A -> result B) l a e :
  a ∈ l -> f a = Err e -> exists e', mapR f l = Err e'.
Proof.
  induction l as [|x l IH]; intros Ha Hf; [set_solver|]. simpl.
  destruct (f x) as [y|e'] eqn:Ex; simpl; [|eauto].
  apply elem_of_cons in Ha as [->|Ha]; [congruence|].
  destruct (IH Ha Hf) as [e' ->]. simpl. eauto.
Qed.

Lemma mapR_Ok_elem {A B} (f : A -> result B) l l' y :
  mapR f l = Ok l' -> y ∈ l' -> exists x, x ∈ l /\ f x = Ok y.
Proof.
  revert l'. induction l as [|x l IH]; intros l' Hl Hy; simpl in Hl.
  - injection Hl as <-. set_solver.
  - destruct (f x) as [b|e] eqn:Ex; simpl in Hl; [|discriminate].
    destruct (mapR f l) as [bs|e] eqn:El; simpl in Hl; [|discriminate].
    injection Hl as <-. apply elem_of_cons in Hy as [->|Hy]; [exists x; split; [left|done]|].
    destruct (IH bs eq_refl Hy) as (z & Hz & Hfz). exists z. split; [by right|done].
Qed.

(** When every element either succeeds or fails with [e], and one fails,
    the whole comprehension fails with [e]. *)
Lemma mapR_Err_uniform {A B} (f : A -> result B) l e :
  (forall x, x ∈ l -> (exists y, f x = Ok y) \/ f x = Err e) ->
  (exists x, x ∈ l /\ f x = Err e) -> mapR f l = Err e.
Proof.
  induction l as [|x l IH]; intros Hall (a & Ha & Hae); [set_solver|]. simpl.
  assert (Hxin : x ∈ x :: l) by left.
  destruct (Hall x Hxin) as [[y Hy]|Hx]; rewrite ?Hy, ?Hx; simpl; [|done].
  apply elem_of_cons in Ha as [->|Ha]; [congruence|].
  rewrite IH; [done| |eauto]. intros z Hz. apply Hall. by right.
Qed.

Lemma mapR_exists {A B} (f : A -> result B) (P : A -> B -> Prop) l :
  (forall x, x ∈ l -> exists y, f x = Ok y /\ P x y) ->
  exists ys, mapR f l = Ok ys /\ Forall2 P l ys.
Proof.
  induction l as [|x l IH]; intros Hall; simpl; [by exists []|].
  assert (Hx : x ∈ x :: l) by left. destruct (Hall x Hx) as (y & -> & Hy).
  destruct IH as (ys & -> & Hys); [intros z Hz; apply Hall; by right|].
  exists (y :: ys). split; [done|by constructor].
Qed.

Lemma mapR_Forall2_exists {A B C} (f : A -> result B) (P : B -> C -> Prop) l ds :
  Forall2 (fun a d => exists b, f a = Ok b /\ P b d) l ds ->
  exists bs, mapR f l = Ok bs /\ Forall2 P bs ds.
Proof.
  induction 1 as [|a d l ds (b & Hb & HP) _ (bs & Hbs & HPs)]; simpl; [by exists []|].
  rewrite Hb, Hbs. exists (b :: bs). split; [done|by constructor].
Qed.

Lemma mapR_ext {A B} (f g : A -> result B) l :
  (forall x, x ∈ l -> f x = g x) -> mapR f l = mapR g l.
Proof.
  induction l as [|x l IH]; intros Hfg; simpl; [done|].
  rewrite Hfg by left. rewrite IH; [done|]. intros y Hy. apply Hfg. by right.
Qed.

Lemma not_elem_of_Forall_ne {A} (x : A) l : x ∉ l -> Forall (fun y => y <> x) l.
Proof.
  induction l as [|y l IH]; intros Hx; constructor.
  - intros ->. apply Hx. left.
  - apply IH. intros Hin. apply Hx. by right.
Qed.

Lemma Forall2_impl_elem {A B} (P Q : A -> B -> Prop) l k :
  Forall2 P l k -> (forall x y, x ∈ l -> P x y -> Q x y) -> Forall2 Q l k.
Proof.
  induction 1 as [|x y l k Hxy _ IH]; intros HPQ; constructor.
  - apply HPQ; [left|done].
  - apply IH. intros x' y' Hx'. apply HPQ. by right.
Qed.

(** A [for] loop over [l] whose body may raise: the state is threaded
    through, and the first exception ends the loop. *)
Fixpoint fold_result {A B} (f : A -> B -> result A) (l : list B) (a : A) : result A :=
  match l with
  | [] => Ok a
  | x :: l' => a' <- f a x ;; fold_result f l' a'
  end.

(** A loop whose body never completes, run at least once, never
    completes. *)
Lemma fold_result_body_fails {A B} (f : A -> B -> result A) l a :
  (forall a x a', f a x <> Ok a') -> l <> [] -> forall v, fold_result f l a <> Ok v.
Proof.
  intros Hf Hl v. destruct l as [|x l]; [done|]. cbn [fold_result].
  destruct (f a x) as [a'|e] eqn:E; [by destruct (Hf a x a')|discriminate].
Qed.

Lemma Forall_impl2 {A} (P Q R : A -> Prop) l :
  Forall P l -> Forall Q l -> (forall x, P x -> Q x -> R x) -> Forall R l.
Proof. induction 1; inversion 1; constructor; eauto. Qed.

(** An exception [e] that neither step raises is not raised. *)
Lemma rbind_not_Err {A B} (c : result A) (k : A -> result B) e :
  c <> Err e -> (forall a, c = Ok a -> k a <> Err e) -> rbind c k <> Err e.
Proof. destruct c as [a|e']; simpl; [eauto|congruence]. Qed.

Lemma mapR_not_Err {A B} (f : A -> result B) l e :
  Forall (fun x => f x <> Err e) l -> mapR f l <> Err e.
Proof.
  induction 1 as [|x l Hx Hl IH]; simpl; [discriminate|].
  apply rbind_not_Err; [done|]. intros b _. apply rbind_not_Err; [done|]. discriminate.
Qed.

Lemma fold_result_not_Err {A B} (f : A -> B -> result A) l a e :
  (forall a x, x ∈ l -> f a x <> Err e) -> fold_result f l a <> Err e.
Proof.
  revert a. induction l as [|x l IH]; intros a Hf; simpl; [discriminate|].
  apply rbind_not_Err; [by apply Hf; left|]. intros a' _. apply IH. intros a'' y Hy. apply Hf. by right.
Qed.

(** A failing [mapR] fails at a first element, all elements before it
    succeeding. *)
Lemma mapR_Err_first {A B} (f : A -> result B) l e :
  mapR f l = Err e ->
  exists k ys x, mapR f (take k l) = Ok ys /\ l !! k = Some x /\ f x = Err e.
Proof.
  induction l as [|x l IH]; cbn [mapR]; [discriminate|].
  destruct (f x) as [y|e'] eqn:Ef; cbn [rbind].
  - destruct (mapR f l) as [ys|e'] eqn:El; cbn [rbind]; [discriminate|]. intros [= ->].
    destruct (IH eq_refl) as (k & ys & x' & Hk & Hx & Hf).
    exists (S k), (y :: ys), x'. cbn [take mapR]. rewrite Ef, Hk. done.
  - intros [= ->]. by exists 0, [], x.
Qed.

Lemma mapR_rmap {A B C} (f : A -> result B) (g : B -> C) l :
  mapR (fun x => rmap g (f x)) l = rmap (map g) (mapR f l).
Proof.
  induction l as [|x l IH]; cbn [mapR]; [done|]. rewrite IH.
  destruct (f x); cbn [rbind rmap]; [|done]. by destruct (mapR f l).
Qed.

Lemma mapR_map {A B C} (f : B -> result C) (g : A -> B) l :
  mapR f (map g l) = mapR (fun x => f (g x)) l.
Proof. induction l as [|x l IH]; simpl; [done|]. by rewrite IH. Qed.

Lemma mapR_app {A B} (f : A -> result B) l1 l2 :
  mapR f (l1 ++ l2) = (ys1 <- mapR f l1 ;; ys2 <- mapR f l2 ;; Ok (ys1 ++ ys2)).
Proof.
  induction l1 as [|x l1 IH]; simpl.
  - by destruct (mapR f l2).
  - destruct (f x); simpl; [|done]. rewrite IH.
    destruct (mapR f l1); simpl; [|done]. by destruct (mapR f l2).
Qed.
End ResultLemmas.

(** [rinv] splits a hypothesis [rbind c k = Ok b] into its two steps. *)
Ltac rinv :=
  repeat match goal with
  | H : rbind ?c _ = Ok _ |- _ =>
      let a := fresh "a" in let Ha := fresh "Ha" in
      apply rbind_Ok_inv in H as (a & Ha & H)
  | H : Ok _ = Ok _ |- _ => injection H as H
  | H : Err _ = Ok _ |- _ => discriminate H
  end.

Create HintDb pysw discriminated.
#[export] Hint Resolve dget_dset_eq dkeys_group_pairs_NoDup : pysw.
#[export] Hint Rewrite @dget_dset_eq @dget_group_pairs : pysw.
