(* ===== verification/Expr.v ===== *)
(** * Expressions: the SymPy objects the program manipulates

    The classes [RDsymbol], [RDOperator] and [RDBoson] that
    [src/Modules/sympy/utils.py] imports live in a [classes.py] that is not
    in the repository; their attributes are those the code reads
    ([.order], [.subspace], [.dim], [.matrix], [.is_annihilation]) and
    those the spec lists (section 3).  The older classes of
    [src/pysw/classes.py] ([SubSpace], [RDOperator], [RDsymbol] and their
    commutation hooks) are modelled from the source at the end. *)

From Stdlib Require Import ZArith.
From stdpp Require Import base list strings decidable.
From S2P Require Import Prelude.
Import ListNotations.

(** The nested induction principle of [Expr] quantifies over the
    elements of its argument lists through [list_all]. *)
Scheme All for list.

(** A boson ladder operator is a creation ([Dagger(a)]) or an annihilation
    ([a]) operator; [RDBoson.is_annihilation] tells which. *)
Inductive Ladder : Type := Creation | Annihilation.

#[export] Instance Ladder_eq_dec : EqDecision Ladder.
Proof. solve_decision. Defined.

(** The expression tree.  Numbers are SymPy integers; [ESym n k] is
    [RDsymbol(n, order=k)]; [EOp n s d m] is [RDOperator] named [n] on the
    subspace (a SymPy symbol) [s], of dimension [d] and matrix [m], whose
    entries are expressions (the ansatz operator has symbolic entries);
    [EBoson s l] is an [RDBoson] of mode (subspace) [s]; [EAdd], [EMul],
    [EPow] and [EComm] are SymPy's [Add], noncommutative [Mul], [Pow] with
    an integer exponent, and [Commutator]. *)
Inductive Expr : Type :=
| ENum (z : Z)
| ESym (name : string) (order : nat)
| EOp (name : string) (sub : string) (dim : nat) (mat : list (list Expr))
| EBoson (sub : string) (kind : Ladder)
| EAdd (args : list Expr)
| EMul (args : list Expr)
| EPow (base : Expr) (exp : Z)
| EComm (a b : Expr).

(** The nested hypotheses of [Expr_ind] as a [Forall]. *)
Lemma list_all_Forall {A} (P : A -> Prop) (l : list A) : list_all A P l -> Forall P l.
Proof. induction 1; constructor; auto. Qed.

(** A matrix is the list of its rows. *)
Notation Matrix := (list (list Expr)).

Fixpoint Expr_eq_dec (x y : Expr) {struct x} : Decision (x = y).
Proof.
  refine (match x, y with
  | ENum a, ENum b => cast_if (decide (a = b))
  | ESym n o, ESym n' o' => cast_if_and (decide (n = n')) (decide (o = o'))
  | EOp n s d m, EOp n' s' d' m' =>
      cast_if_and4 (decide (n = n')) (decide (s = s')) (decide (d = d'))
        (@list_eq_dec _ (@list_eq_dec _ Expr_eq_dec) m m')
  | EBoson s k, EBoson s' k' => cast_if_and (decide (s = s')) (decide (k = k'))
  | EAdd l, EAdd l' => cast_if (@list_eq_dec _ Expr_eq_dec l l')
  | EMul l, EMul l' => cast_if (@list_eq_dec _ Expr_eq_dec l l')
  | EPow b e, EPow b' e' => cast_if_and (Expr_eq_dec b b') (decide (e = e'))
  | EComm a b, EComm a' b' => cast_if_and (Expr_eq_dec a a') (Expr_eq_dec b b')
  | _, _ => right _
  end); abstract (try congruence; intuition congruence).
Defined.
#[export] Instance Expr_EqDecision : EqDecision Expr := Expr_eq_dec.

(** ** Dispatch classes

    The functions of [utils.py] are [multimethod]s: the implementation is
    chosen by the Python type of the argument.  The leaf types are those of
    the [Union[...]] signatures ([Operator], [RDsymbol] and the number
    types); everything else ([Add], [Mul], [Commutator]) falls to the
    [Expr] implementation, except [Pow], which [get_terms_and_factors]
    handles apart. *)

Definition is_leaf (e : Expr) : bool :=
  match e with
  | ENum _ | ESym _ _ | EOp _ _ _ _ | EBoson _ _ => true
  | _ => false
  end.

(** [isinstance(e, RDBoson)] *)
Definition is_boson (e : Expr) : bool :=
  match e with EBoson _ _ => true | _ => false end.

(** [isinstance(e, RDOperator)] *)
Definition is_operator (e : Expr) : bool :=
  match e with EOp _ _ _ _ => true | _ => false end.

(** SymPy's [Add] and [Mul] of a list of summands or factors, with the
    empty sum [0], the empty product [1] and a single argument returned
    as it is. *)
Definition expr_sum (l : list Expr) : Expr :=
  match l with [] => ENum 0 | [x] => x | _ => EAdd l end.

Definition expr_prod (l : list Expr) : Expr :=
  match l with [] => ENum 1 | [x] => x | _ => EMul l end.

(** ** The older classes of [src/pysw/classes.py]

    There an operator only knows its [SubSpace], a (name, dimension)
    pair compared as a whole; its matrix is supplied separately. *)

Record SubSpace : Type := mkSubSpace { ss_name : string; ss_dim : nat }.

#[export] Instance SubSpace_eq_dec : EqDecision SubSpace.
Proof. solve_decision. Defined.

(** [RDOperator.subspace] of the older classes *)
Definition op_subspace (e : Expr) : option SubSpace :=
  match e with EOp _ s d _ => Some (mkSubSpace s d) | _ => None end.

(** [RDsymbol(name, order=1)]: the order defaults to 1. *)
Definition RDsymbol (name : string) (order : option nat) : Expr :=
  ESym name (default 1 order).

(** [self*other - other*self], the commutator SymPy builds by hand. *)
Definition commutator_expansion (a b : Expr) : Expr :=
  EAdd [EMul [a; b]; EMul [ENum (-1); b; a]].

(** The [_eval_commutator_<Class>] hooks of [RDOperator] and [RDsymbol]:
    [Some c] when [a] has a hook for the class of [b], [None] when it has
    none (SymPy then tries the reversed hook or leaves the commutator
    unevaluated). *)
Definition eval_commutator_hook (a b : Expr) : option Expr :=
  match a, b with
  | EOp _ s d _, EOp _ s' d' _ =>
      if decide (mkSubSpace s d = mkSubSpace s' d') then Some (commutator_expansion a b)
      else Some (ENum 0)
  | EOp _ _ _ _, EBoson _ _ => Some (ENum 0)
  | EOp _ _ _ _, ESym _ _ => Some (ENum 0)
  | ESym _ _, EOp _ _ _ _ => Some (ENum 0)
  | ESym _ _, EBoson _ _ => Some (ENum 0)
  | _, _ => None
  end.

(** ** Example data

    The operators of the spec's scenarios and of [src/test.py], used to
    run the theorems on concrete inputs. *)
Module Fixtures.
Definition sx_mat : Matrix := [[ENum 0; ENum 1]; [ENum 1; ENum 0]].
Definition sz_mat : Matrix := [[ENum 1; ENum 0]; [ENum 0; ENum (-1)]].
Definition id2_mat : Matrix := [[ENum 1; ENum 0]; [ENum 0; ENum 1]].
(** scenario A: [opA] on [X] (off-diagonal), [opB] on [Y] (identity) *)
Definition opA : Expr := EOp "opA" "X" 2 sx_mat.
Definition opB : Expr := EOp "opB" "Y" 2 id2_mat.
(** [sigma_z] on the spin subspace (diagonal) *)
Definition sigma_z : Expr := EOp "sigma_z" "spin" 2 sz_mat.
Definition sigma_x : Expr := EOp "sigma_x" "spin" 2 sx_mat.
(** scenario B: symbols of order 1 and 2 *)
Definition s1 : Expr := ESym "s1" 1.
Definition s2 : Expr := ESym "s2" 2.
Definition g : Expr := ESym "g" 1.
(** the boson mode [a] *)
Definition a : Expr := EBoson "a" Annihilation.
Definition ad : Expr := EBoson "a" Creation.
End Fixtures.
