(* ===== verification/Engine.v ===== *)
(** * The symbolic-algebra engine the program calls

    The spec puts SymPy out of scope: the program only calls
    [expr.expand()], [as_ordered_terms()] and [as_ordered_factors()].
    [AlgebraEngine] is that interface; [EngineLaws] states what the
    decomposer and the classifiers rely on; [sop_engine] is a concrete
    engine (full distribution of noncommutative products over sums) that
    satisfies the laws and computes, so that the theorems proved against
    the interface can be run on examples. *)

From Stdlib Require Import ZArith.
From stdpp Require Import base list strings decidable.
From S2P Require Import Prelude Expr.
Import ListNotations.

Class AlgebraEngine : Type := {
  (** [expr.expand().as_ordered_terms()] *)
  expand_terms : Expr -> list Expr;
  (** [term.as_ordered_factors()] *)
  ordered_factors : Expr -> list Expr;
}.

(** A factor the engine may hand back: a leaf, a power whose base is a leaf
    or whose exponent is negative (SymPy expands the other powers), or an
    opaque expression that the engine cannot split (an unevaluated
    [Commutator]), which is its own single term and single factor. *)
Definition factor_ok `{AlgebraEngine} (f : Expr) : Prop :=
  is_leaf f = true
  \/ (exists b n, f = EPow b n /\ (is_leaf b = true \/ (n < 0)%Z))
  \/ (is_leaf f = false /\ (forall b n, f <> EPow b n)
      /\ expand_terms f = [f] /\ ordered_factors f = [f]).

Class EngineLaws `{AlgebraEngine} : Prop := {
  (** a term of an expansion expands to itself *)
  terms_stable : forall e t, t ∈ expand_terms e -> expand_terms t = [t];
  (** the factors of a term have one of the shapes above *)
  factors_shape : forall e t f, t ∈ expand_terms e -> f ∈ ordered_factors t -> factor_ok f;
  (** an expression that is not a product is its own single factor *)
  factors_non_mul : forall t, (forall l, t <> EMul l) -> ordered_factors t = [t];
  (** a sum of distinct leaves has these leaves as its terms, in some
      order (there is nothing to expand or collect) *)
  sum_of_leaves : forall l, Forall (fun x => is_leaf x = true) l -> NoDup l ->
    expand_terms (EAdd l) ≡ₚ l;
}.

(** ** A concrete engine: sums of ordered products *)

(** [prod_terms xs ys]: the product of two sums of products, distributed
    in order (noncommutative). *)
Definition prod_terms (xs ys : list (list Expr)) : list (list Expr) :=
  flat_map (fun x => map (fun y => x ++ y) ys) xs.

Fixpoint sop (e : Expr) : list (list Expr) :=
  match e with
  | EAdd l => concat (map sop l)
  | EMul l => fold_right prod_terms [[]] (map sop l)
  | EPow b n =>
      if is_leaf b then [[e]]
      else if (n <? 0)%Z then [[e]]
      else Nat.iter (Z.to_nat n) (prod_terms (sop b)) [[]]
  | _ => [[e]]
  end.

#[export] Instance sop_engine : AlgebraEngine := {
  expand_terms e := map expr_prod (sop e);
  ordered_factors t := match t with EMul l => l | _ => [t] end;
}.

(** A factor produced by [sop] is its own expansion. *)
Definition sop_atom (f : Expr) : Prop :=
  match f with
  | EAdd _ | EMul _ => False
  | EPow b n => is_leaf b = true \/ (n < 0)%Z
  | _ => True
  end.

Lemma sop_atom_sop f : sop_atom f -> sop f = [[f]].
Proof.
  destruct f as [| | | | | |b n|]; simpl; try done.
  intros [Hb|Hn]; [by rewrite Hb|]. destruct (is_leaf b); [done|].
  by rewrite (proj2 (Z.ltb_lt n 0) Hn).
Qed.

Definition sop_atoms (ts : list (list Expr)) : Prop :=
  Forall (Forall sop_atom) ts.

Lemma prod_terms_atoms xs ys : sop_atoms xs -> sop_atoms ys -> sop_atoms (prod_terms xs ys).
Proof.
  unfold sop_atoms, prod_terms. rewrite !Forall_forall. intros Hx Hy z Hz.
  apply in_flat_map in Hz as (x & Hx' & Hz). apply in_map_iff in Hz as (y & <- & Hy').
  apply Forall_app; auto.
Qed.

Lemma iter_prod_terms_atoms ts n : sop_atoms ts -> sop_atoms (Nat.iter n (prod_terms ts) [[]]).
Proof.
  intros Hts. induction n as [|n IH]; simpl.
  - repeat constructor.
  - by apply prod_terms_atoms.
Qed.

Lemma sop_atoms_sop e : sop_atoms (sop e).
Proof.
  induction e as [z|s o|s1 s2 d m _|s k|l Hl|l Hl|b Hb n|a Ha b Hb]
    using Expr_ind; simpl; try (repeat constructor; done).
  - apply list_all_Forall in Hl. unfold sop_atoms in *.
    rewrite Forall_forall in Hl |- *. intros ts Hts.
    apply in_concat in Hts as (x & Hx & Hts). apply in_map_iff in Hx as (e & <- & He).
    specialize (Hl e He). rewrite Forall_forall in Hl. auto.
  - induction Hl as [|x Hx l _ IH]; simpl; [repeat constructor|].
    by apply prod_terms_atoms.
  - unfold sop_atoms in *. destruct (is_leaf b) eqn:Eb; cbn.
    + apply Forall_singleton, Forall_singleton. simpl. by left.
    + destruct (n <? 0)%Z eqn:En; cbn.
      * apply Forall_singleton, Forall_singleton. simpl. right. by apply Z.ltb_lt.
      * by apply iter_prod_terms_atoms.
Qed.

Lemma fold_prod_terms_atoms fs :
  Forall sop_atom fs -> fold_right prod_terms [[]] (map sop fs) = [fs].
Proof.
  induction 1 as [|f fs Hf _ IH]; simpl; [done|].
  rewrite IH, (sop_atom_sop f Hf). done.
Qed.

Lemma sop_EMul l : sop (EMul l) = fold_right prod_terms [[]] (map sop l).
Proof. reflexivity. Qed.

(** A term built from atoms expands to itself. *)
Lemma expand_terms_expr_prod fs :
  Forall sop_atom fs -> expand_terms (expr_prod fs) = [expr_prod fs].
Proof.
  intros Hfs. destruct fs as [|f [|g fs]]; [done| |].
  - inversion Hfs. simpl. by rewrite sop_atom_sop.
  - change (map expr_prod (sop (EMul (f :: g :: fs))) = [EMul (f :: g :: fs)]).
    by rewrite sop_EMul, (fold_prod_terms_atoms (f :: g :: fs) Hfs).
Qed.

Lemma ordered_factors_expr_prod fs :
  Forall sop_atom fs -> ordered_factors (expr_prod fs) = match fs with [] => [ENum 1] | _ => fs end.
Proof.
  intros Hfs. destruct fs as [|f [|g fs]]; simpl; [done| |done].
  inversion Hfs as [|? ? Hf]; subst. by destruct f.
Qed.

Lemma sop_atom_factor_ok f : sop_atom f -> factor_ok f.
Proof.
  unfold factor_ok. destruct f as [| | | | | |b n|a b]; simpl; try tauto.
  - intros Hb. right; left. eauto.
  - intros _. right; right. split_and!; [done|congruence|done|done].
Qed.

#[export] Instance sop_engine_laws : EngineLaws.
Proof.
  split.
  - intros e t Ht. simpl in Ht. apply list_elem_of_fmap in Ht as (fs & -> & Hfs).
    apply expand_terms_expr_prod.
    pose proof (sop_atoms_sop e) as Ha. unfold sop_atoms in Ha.
    rewrite Forall_forall in Ha. apply Ha. by apply list_elem_of_In.
  - intros e t f Ht Hf. simpl in Ht. apply list_elem_of_fmap in Ht as (fs & -> & Hfs).
    pose proof (sop_atoms_sop e) as Ha. unfold sop_atoms in Ha.
    rewrite Forall_forall in Ha. specialize (Ha fs (proj1 (list_elem_of_In _ _) Hfs)).
    rewrite ordered_factors_expr_prod in Hf by done.
    destruct fs as [|g gs].
    + apply list_elem_of_singleton in Hf as ->. by left.
    + apply sop_atom_factor_ok. rewrite Forall_forall in Ha. apply Ha.
      by apply list_elem_of_In.
  - intros t Ht. destruct t; try done. by destruct (Ht args).
  - intros l Hl _. cbn [expand_terms sop_engine sop].
    induction Hl as [|x l Hx _ IH]; [done|].
    destruct x; try discriminate; simpl; by rewrite IH.
Qed.
