(* ===== verification/Matrix.v ===== *)
(** * The matrix primitives the program calls

    SymPy's [eye(n)], [kronecker_product] of a list of matrices and the product of a
    matrix by a scalar, which [domain_expansion] and
    [get_finite_identities] call (spec, section 6).  Entries are
    expressions; [expr_mul] is SymPy's evaluation of the product of two
    entries on the cases the program meets (numbers multiply, [0] absorbs,
    [1] is neutral). *)

From Stdlib Require Import ZArith.
From stdpp Require Import base list strings decidable.
From S2P Require Import Prelude Expr.
Import ListNotations.

Definition expr_mul (a b : Expr) : Expr :=
  match a, b with
  | ENum x, ENum y => ENum (x * y)
  | ENum Z0, _ | _, ENum Z0 => ENum 0
  | ENum (Zpos xH), _ => b
  | _, ENum (Zpos xH) => a
  | _, _ => EMul [a; b]
  end.

(** [eye(n)] *)
Definition eye (n : nat) : Matrix :=
  map (fun i => map (fun j => if decide (i = j) then ENum 1 else ENum 0) (seq 0 n)) (seq 0 n).

(** The Kronecker product of two matrices: row [i*r2 + k] of [A ⊗ B] is
    row [i] of [A] with each entry [a] replaced by [a] times row [k] of
    [B]. *)
Definition kron2 (A B : Matrix) : Matrix :=
  flat_map (fun ra => map (fun rb => flat_map (fun a => map (expr_mul a) rb) ra) B) A.

(** [kronecker_product] of a list of matrices: undefined on no matrix, the matrix
    itself on one, and the left-nested product on more. *)
Definition kronecker_product (ms : list Matrix) : result Matrix :=
  match ms with
  | [] => Err TypeError
  | m :: ms' => Ok (fold_left kron2 ms' m)
  end.

(** [matrix * scalar]: every entry multiplied on the right. *)
Definition scale_matrix (M : Matrix) (e : Expr) : Matrix :=
  map (map (fun x => expr_mul x e)) M.

(** [a + b] on entries, on the same cases as [expr_mul]: numbers add,
    [0] is neutral. *)
Definition expr_add (a b : Expr) : Expr :=
  match a, b with
  | ENum x, ENum y => ENum (x + y)
  | ENum Z0, _ => b
  | _, ENum Z0 => a
  | _, _ => EAdd [a; b]
  end.

(** [scalar * matrix]: every entry multiplied on the left. *)
Definition lscale_matrix (e : Expr) (M : Matrix) : Matrix :=
  map (map (expr_mul e)) M.

(** The number of columns of a matrix given by its rows (a SymPy matrix
    is rectangular, so it is the length of the first row). *)
Definition mat_cols (M : Matrix) : nat :=
  match M with [] => 0 | r :: _ => length r end.

(** Column [j] of [M]. *)
Definition mat_col (M : Matrix) (j : nat) : list Expr :=
  map (fun row => nth j row (ENum 0)) M.

(** The sum of the products of a row and a column, entry by entry. *)
Definition dot (r c : list Expr) : Expr :=
  fold_left expr_add (zip_with expr_mul r c) (ENum 0).

(** Row [i] of [A * B] is row [i] of [A] times each column of [B]. *)
Definition mat_mul_raw (A B : Matrix) : Matrix :=
  map (fun r => map (fun j => dot r (mat_col B j)) (seq 0 (mat_cols B))) A.

(** [A * B] of two SymPy matrices: [ShapeError] ("Matrix size
    mismatch") unless [A] has as many columns as [B] has rows. *)
Definition mat_mul (A B : Matrix) : result Matrix :=
  if decide (mat_cols A = length B) then Ok (mat_mul_raw A B) else Err ShapeError.

(** ** Shapes *)

(** [M] has [r] rows of [c] entries. *)
Definition is_mat (r c : nat) (M : Matrix) : Prop :=
  length M = r /\ Forall (fun row => length row = c) M.

Lemma eye_is_mat n : is_mat n n (eye n).
Proof.
  unfold is_mat, eye. rewrite length_map, length_seq. split; [done|].
  apply Forall_forall. intros row Hrow. apply in_map_iff in Hrow as (i & <- & _).
  by rewrite length_map, length_seq.
Qed.

Lemma scale_matrix_is_mat r c M e : is_mat r c M -> is_mat r c (scale_matrix M e).
Proof.
  intros [HM Hrows]. unfold scale_matrix. split; [by rewrite length_map|].
  apply Forall_forall. intros row Hrow. apply in_map_iff in Hrow as (row' & <- & Hin).
  rewrite length_map. rewrite Forall_forall in Hrows. by apply Hrows.
Qed.

Lemma length_flat_map_uniform {A B} (f : A -> list B) (l : list A) n :
  Forall (fun x => length (f x) = n) l -> length (flat_map f l) = length l * n.
Proof.
  induction 1 as [|x l Hx _ IH]; simpl; [done|]. rewrite length_app, Hx, IH. lia.
Qed.

Lemma kron2_is_mat r1 c1 r2 c2 A B :
  is_mat r1 c1 A -> is_mat r2 c2 B -> is_mat (r1 * r2) (c1 * c2) (kron2 A B).
Proof.
  intros [HA HrA] [HB HrB]. unfold kron2. split.
  - rewrite (length_flat_map_uniform _ _ r2), HA; [done|].
    apply Forall_forall. intros ra _. by rewrite length_map.
  - apply Forall_forall. intros row Hrow.
    apply in_flat_map in Hrow as (ra & Hra & Hrow). apply in_map_iff in Hrow as (rb & <- & Hrb).
    rewrite Forall_forall in HrA, HrB.
    rewrite (length_flat_map_uniform _ _ c2).
    + by rewrite HrA.
    + apply Forall_forall. intros a _. by rewrite length_map, HrB.
Qed.

(** The Kronecker product of square matrices of dimensions
    [d1, ..., dn] is square of dimension [d1 * ... * dn]; the product of
    no matrix is an error. *)
Theorem kronecker_product_is_mat ms ds :
  Forall2 (fun m d => is_mat d d m) ms ds -> ds <> [] ->
  exists K, kronecker_product ms = Ok K /\ is_mat (foldr Nat.mul 1 ds) (foldr Nat.mul 1 ds) K.
Proof.
  intros Hms Hds. destruct Hms as [|m d ms ds Hm Hms]; [done|]. clear Hds.
  exists (fold_left kron2 ms m). split; [done|].
  enough (Hgen : forall m0 d0, is_mat d0 d0 m0 ->
            is_mat (d0 * foldr Nat.mul 1 ds) (d0 * foldr Nat.mul 1 ds) (fold_left kron2 ms m0))
    by (apply Hgen, Hm).
  induction Hms as [|m' d' ms ds Hm' _ IH]; intros m0 d0 H0; simpl.
  - by rewrite Nat.mul_1_r.
  - rewrite Nat.mul_assoc. apply IH. by apply kron2_is_mat.
Qed.

Lemma lscale_matrix_is_mat r c M e : is_mat r c M -> is_mat r c (lscale_matrix e M).
Proof.
  intros [HM Hrows]. unfold lscale_matrix. split; [by rewrite length_map|].
  apply Forall_forall. intros row Hrow. apply in_map_iff in Hrow as (row' & <- & Hin).
  rewrite length_map. rewrite Forall_forall in Hrows. by apply Hrows.
Qed.

(** A square matrix has as many columns as rows, the empty one included. *)
Lemma mat_cols_square d M : is_mat d d M -> mat_cols M = d.
Proof. intros [HM Hrows]. destruct Hrows as [|r rows Hr _]; by subst. Qed.

Lemma mat_mul_raw_is_mat d A B : is_mat d d A -> is_mat d d B -> is_mat d d (mat_mul_raw A B).
Proof.
  intros [HA _] HB. unfold mat_mul_raw. split; [by rewrite length_map|].
  apply Forall_forall. intros row Hrow. apply in_map_iff in Hrow as (r & <- & _).
  by rewrite length_map, length_seq, (mat_cols_square d B).
Qed.

(** Two square matrices of one size multiply; of two sizes, they raise
    [ShapeError]. *)
Lemma mat_mul_square d A B :
  is_mat d d A -> is_mat d d B -> mat_mul A B = Ok (mat_mul_raw A B).
Proof. intros HA HB. unfold mat_mul. rewrite (mat_cols_square d A HA), decide_True; [done|symmetry; apply HB]. Qed.

Lemma mat_mul_mismatch d1 d2 A B :
  is_mat d1 d1 A -> is_mat d2 d2 B -> d1 <> d2 -> mat_mul A B = Err ShapeError.
Proof. intros HA [HB _] Hd. unfold mat_mul. rewrite (mat_cols_square d1 A HA), decide_False; [done|lia]. Qed.

(** The Kronecker product of [sigma_x] and [eye(2)] is 4 x 4. *)
Lemma kronecker_product_is_mat_witness :
  exists K, kronecker_product [[[ENum 0; ENum 1]; [ENum 1; ENum 0]]; eye 2] = Ok K /\
            is_mat (foldr Nat.mul 1 [2; 2]) (foldr Nat.mul 1 [2; 2]) K.
Proof.
  apply (kronecker_product_is_mat _ [2; 2]); [|discriminate].
  repeat constructor.
Defined.
