(* ===== verification/Decompose.v ===== *)
(** * The term/factor decomposer

    [get_terms_and_factors] of [src/Modules/sympy/utils.py] (lines 18-46):
    an expression becomes its ordered additive terms and, for each term,
    its ordered multiplicative factors.  The Python function recurses on
    every factor of every term; the recursion is bounded here by [fuel],
    the interpreter's recursion limit, and running out of it is the
    [RecursionError] Python raises. *)

From Stdlib Require Import ZArith.
From stdpp Require Import base list strings decidable.
From S2P Require Import Prelude Expr Engine.
Import ListNotations.

(** The expressions the [Expr] implementation of the multimethods handles:
    neither a leaf type nor [Pow]. *)
Definition is_generic (e : Expr) : bool :=
  match e with EAdd _ | EMul _ | EComm _ _ => true | _ => false end.

(** What one factor contributes to its term's factor list: a power
    [b**n] contributes [n] copies of [b] ([range(n)] is empty for [n < 0]),
    any other leaf contributes itself. *)
Definition factor_decomp (f : Expr) : list Expr :=
  match f with EPow b n => repeat b (Z.to_nat n) | _ => [f] end.

(** The factor list the decomposer produces for one term of the engine. *)
Definition term_factors `{AlgebraEngine} (t : Expr) : list Expr :=
  concat (map factor_decomp (ordered_factors t)).

(** Every factor of every term of an expression. *)
Definition all_factors `{AlgebraEngine} (e : Expr) : list Expr :=
  concat (map term_factors (expand_terms e)).

Section Decompose.
Context `{AlgebraEngine}.

Fixpoint get_terms_and_factors (fuel : nat) (e : Expr)
    : result (list Expr * list (list Expr)) :=
  match e with
  | ENum _ | ESym _ _ | EOp _ _ _ _ | EBoson _ _ => Ok ([e], [[e]])
  | EPow b n => Ok ([e], [repeat b (Z.to_nat n)])
  | _ =>
      match fuel with
      | 0 => Err RecursionError
      | S fuel' =>
          let terms := expand_terms e in
          fots <- mapR (fun t =>
                    fls <- mapR (fun f =>
                             r <- get_terms_and_factors fuel' f ;;
                             head_or_index_error r.2) (ordered_factors t) ;;
                    Ok (concat fls)) terms ;;
          Ok (terms, fots)
      end
  end.

(** Every factor the engine hands back can be decomposed without a
    further expansion. *)
Definition decomposable (e : Expr) : Prop :=
  forall t f, t ∈ expand_terms e -> f ∈ ordered_factors t -> is_generic f = false.

(** A checker for [decomposable], to run on examples. *)
Definition decomposable_b (e : Expr) : bool :=
  forallb (fun t => forallb (fun f => negb (is_generic f)) (ordered_factors t)) (expand_terms e).

Lemma decomposable_b_sound e : decomposable_b e = true -> decomposable e.
Proof.
  unfold decomposable_b. rewrite forallb_forall. intros Hall t f Ht Hf.
  apply list_elem_of_In in Ht, Hf. specialize (Hall t Ht). rewrite forallb_forall in Hall.
  apply negb_true_iff, Hall, Hf.
Qed.

Lemma gtf_non_generic fuel f :
  is_generic f = false -> get_terms_and_factors fuel f = Ok ([f], [factor_decomp f]).
Proof. destruct f, fuel; simpl; intros; try discriminate; reflexivity. Qed.
End Decompose.

Section DecomposeTheorems.
Context `{AlgebraEngine}.

Lemma gtf_generic_unfold fuel e :
  is_generic e = true ->
  get_terms_and_factors (S fuel) e =
  (fots <- mapR (fun t =>
             fls <- mapR (fun f =>
                      r <- get_terms_and_factors fuel f ;;
                      head_or_index_error r.2) (ordered_factors t) ;;
             Ok (concat fls)) (expand_terms e) ;;
   Ok (expand_terms e, fots)).
Proof. destruct e; try discriminate; reflexivity. Qed.

(** With one level of recursion to spare, a compound
    expression whose factors need no further expansion decomposes into
    the engine's terms, each factor contributing [factor_decomp]. *)
Lemma get_terms_and_factors_total_core fuel e :
  is_generic e = true -> decomposable e ->
  get_terms_and_factors (S fuel) e =
    Ok (expand_terms e, map term_factors (expand_terms e)).
Proof.
  intros Hg Hd. rewrite gtf_generic_unfold by done.
  rewrite (mapR_Ok_map _ term_factors); [done|].
  intros t Ht. rewrite (mapR_Ok_map _ factor_decomp); [done|].
  intros f Hf. rewrite gtf_non_generic by (eapply Hd; eauto). done.
Qed.

(** C6. (termination) With one level of recursion to spare, a compound
    expression whose factors need no further expansion decomposes into
    the engine's terms, each factor contributing [factor_decomp]. *)
Theorem get_terms_and_factors_total fuel e :
  is_generic e = true -> decomposable e ->
  get_terms_and_factors (S fuel) e =
    Ok (expand_terms e, map term_factors (expand_terms e)).
Proof. intros; eapply get_terms_and_factors_total_core; eassumption. Qed.

(** An opaque factor (its own single term and factor, e.g. an unevaluated
    [Commutator]) sends the decomposer into an endless recursion. *)
Lemma gtf_opaque fuel f :
  is_generic f = true -> expand_terms f = [f] -> ordered_factors f = [f] ->
  get_terms_and_factors fuel f = Err RecursionError.
Proof.
  intros Hg Ht Hf. induction fuel as [|fuel IH].
  - destruct f; done.
  - rewrite gtf_generic_unfold, Ht by done. simpl. rewrite Hf. simpl. by rewrite IH.
Qed.

Context `{!EngineLaws}.

(** One step of the loop body: the factor list of one term. *)
Definition decompose_factor (fuel : nat) (f : Expr) : result (list Expr) :=
  r <- get_terms_and_factors fuel f ;; head_or_index_error r.2.

Definition decompose_term (fuel : nat) (t : Expr) : result (list Expr) :=
  fls <- mapR (decompose_factor fuel) (ordered_factors t) ;; Ok (concat fls).

(** Under the engine laws a factor decomposes to [Ok] or recurses
    forever. *)
Lemma decompose_factor_cases fuel e t f :
  t ∈ expand_terms e -> f ∈ ordered_factors t ->
  (is_generic f = false /\ decompose_factor fuel f = Ok (factor_decomp f))
  \/ (is_generic f = true /\ decompose_factor fuel f = Err RecursionError).
Proof.
  intros Ht Hf. unfold decompose_factor.
  destruct (is_generic f) eqn:Eg; [right|left; by rewrite gtf_non_generic].
  split; [done|]. rewrite gtf_opaque; [done|done| |];
    destruct (factors_shape e t f Ht Hf) as [Hl|[(b & n & -> & _)|(_ & _ & ? & ?)]];
    try done; by destruct f.
Qed.

Lemma decompose_term_cases fuel e t :
  t ∈ expand_terms e ->
  (exists fs, decompose_term fuel t = Ok fs) \/ decompose_term fuel t = Err RecursionError.
Proof.
  intros Ht. unfold decompose_term.
  destruct (mapR _ _) as [fls|err] eqn:E; simpl; [eauto|right].
  apply mapR_Err_elem in E as (f & Hf & E).
  destruct (decompose_factor_cases fuel e t f Ht Hf) as [[_ E']|[_ E']]; congruence.
Qed.

Lemma decompose_term_loop fuel e t f :
  t ∈ expand_terms e -> f ∈ ordered_factors t -> is_generic f = true ->
  decompose_term fuel t = Err RecursionError.
Proof.
  intros Ht Hf Hg. unfold decompose_term. rewrite (mapR_Err_uniform _ _ RecursionError); [done| |].
  - intros f' Hf'. destruct (decompose_factor_cases fuel e t f' Ht Hf') as [[_ E]|[_ E]]; eauto.
  - exists f. split; [done|].
    destruct (decompose_factor_cases fuel e t f Ht Hf) as [[? _]|[_ E]]; congruence.
Qed.

(** C17. (termination, negative) A compound expression with an opaque factor
    in one of its terms, such as an unevaluated [Commutator], is never
    decomposed: whatever the recursion limit, the recursion hits it. *)
Theorem get_terms_and_factors_diverges fuel e t f :
  is_generic e = true -> t ∈ expand_terms e -> f ∈ ordered_factors t ->
  is_generic f = true -> get_terms_and_factors fuel e = Err RecursionError.
Proof.
  intros Hg Ht Hf Hgf. destruct fuel as [|fuel]; [by destruct e|].
  rewrite gtf_generic_unfold by done.
  change (fots <- mapR (decompose_term fuel) (expand_terms e) ;; Ok (expand_terms e, fots)
          = Err RecursionError).
  rewrite (mapR_Err_uniform _ _ RecursionError); [done| |].
  - intros t' Ht'. by apply (decompose_term_cases fuel e t').
  - exists t. split; [done|]. by eapply decompose_term_loop.
Qed.

Lemma factor_decomp_leaves f :
  factor_ok f -> is_generic f = false -> Forall (fun g => is_leaf g = true) (factor_decomp f).
Proof.
  intros [Hl|[(b & n & -> & [Hb|Hn])|(Hl & Hnp & _)]] Hg; simpl.
  - destruct f; try discriminate; repeat constructor; done.
  - apply Forall_forall. intros x Hx. by apply repeat_spec in Hx as ->.
  - destruct n; try lia. constructor.
  - exfalso. destruct f; try discriminate. by eapply Hnp.
Qed.

(** C7. (type) Every factor of a successful decomposition is a leaf, unless
    the expression is itself a power of a compound base. *)
Theorem get_terms_and_factors_leaves fuel e ts fss :
  (forall b n, e = EPow b n -> is_leaf b = true) ->
  get_terms_and_factors fuel e = Ok (ts, fss) ->
  length fss = length ts /\ Forall (Forall (fun f => is_leaf f = true)) fss.
Proof.
  intros Hpow. destruct (is_generic e) eqn:Eg.
  - destruct fuel as [|fuel]; [by destruct e|].
    rewrite gtf_generic_unfold by done. intros Hr. rinv. simplify_eq.
    split; [by eapply mapR_length|].
    apply Forall_forall. intros fs Hfs. apply list_elem_of_In in Hfs.
    destruct (mapR_Ok_elem _ _ _ _ Ha Hfs) as (t & Ht & Hfs').
    change (decompose_term fuel t = Ok fs) in Hfs'. unfold decompose_term in Hfs'.
    rinv. subst fs.
    apply Forall_forall. intros g Hg. apply in_concat in Hg as (fl & Hfl & Hg). apply list_elem_of_In in Hfl.
    destruct (mapR_Ok_elem _ _ _ _ Ha0 Hfl) as (f & Hf & Hfl').
    destruct (decompose_factor_cases fuel e t f Ht Hf) as [[Hgf E]|[_ E]];
      rewrite E in Hfl'; [|discriminate]. injection Hfl' as <-.
    pose proof (factor_decomp_leaves f (factors_shape e t f Ht Hf) Hgf) as HF.
    rewrite Forall_forall in HF. by apply HF.
  - rewrite gtf_non_generic by done. intros [= <- <-]. split; [done|].
    apply Forall_singleton. destruct e; try discriminate; simpl; try (by repeat constructor).
    apply Forall_forall. intros x Hx. apply repeat_spec in Hx as ->. by eapply Hpow.
Qed.

(** The factors of a term of a decomposable expression are leaves. *)
Lemma term_factors_leaves e t :
  decomposable e -> t ∈ expand_terms e -> Forall (fun f => is_leaf f = true) (term_factors t).
Proof.
  intros Hd Ht. unfold term_factors. apply Forall_concat, Forall_forall.
  intros fl Hfl. apply in_map_iff in Hfl as (f & <- & Hf). apply list_elem_of_In in Hf.
  apply factor_decomp_leaves; [by eapply factors_shape|by eapply Hd].
Qed.

Lemma all_factors_leaves e :
  decomposable e -> Forall (fun f => is_leaf f = true) (all_factors e).
Proof.
  intros Hd. apply Forall_concat, Forall_forall. intros fs Hfs.
  apply in_map_iff in Hfs as (t & <- & Ht). apply list_elem_of_In in Ht.
  by eapply term_factors_leaves.
Qed.

Lemma decomposable_term e t :
  decomposable e -> t ∈ expand_terms e -> decomposable t.
Proof.
  intros Hd Ht t' f Ht' Hf. rewrite (terms_stable e t Ht) in Ht'.
  apply list_elem_of_singleton in Ht' as ->. by eapply Hd.
Qed.

(** A term of a decomposable expression, decomposed again (as
    [count_bosons(term)] does), gives back itself and its factors. *)
Lemma get_terms_and_factors_term fuel e t :
  decomposable e -> t ∈ expand_terms e -> is_leaf t = false ->
  get_terms_and_factors (S fuel) t = Ok ([t], [term_factors t]).
Proof.
  intros Hd Ht Hl. destruct (is_generic t) eqn:Eg.
  - rewrite get_terms_and_factors_total_core by (done || by eapply decomposable_term).
    by rewrite (terms_stable e t Ht).
  - rewrite gtf_non_generic by done. unfold term_factors.
    rewrite factors_non_mul by (intros l ->; discriminate). simpl. by rewrite app_nil_r.
Qed.
End DecomposeTheorems.

(** ** The theorems on examples *)
Module DecomposeExamples.
Import Fixtures.

(** [s1*opA + s2*a**2]: two terms, the power expanded into two factors. *)
Lemma get_terms_and_factors_total_witness :
  let e := EAdd [EMul [s1; opA]; EMul [s2; EPow a 2]] in
  is_generic e = true /\ decomposable e /\
  get_terms_and_factors 1 e = Ok (expand_terms e, map term_factors (expand_terms e)).
Proof.
  intros e. assert (Hd : decomposable e) by (apply decomposable_b_sound; vm_compute; reflexivity).
  split_and!; [reflexivity|exact Hd|]. apply get_terms_and_factors_total; [reflexivity|exact Hd].
Defined.

(** [g*[opA, opB]] with the commutator left unevaluated. *)
Lemma get_terms_and_factors_diverges_witness :
  let e := EMul [g; EComm opA opB] in
  get_terms_and_factors 1000 e = Err RecursionError.
Proof.
  intros e. apply (get_terms_and_factors_diverges 1000 e e (EComm opA opB)).
  - reflexivity.
  - vm_compute. left.
  - vm_compute. right. left.
  - reflexivity.
Defined.

Lemma get_terms_and_factors_leaves_witness :
  let e := EAdd [EMul [s1; opA]; EMul [s2; EPow a 2]] in
  get_terms_and_factors 1 e = Ok ([EMul [s1; opA]; EMul [s2; EPow a 2]], [[s1; opA]; [s2; a; a]]) /\
  length [[s1; opA]; [s2; a; a]] = length [EMul [s1; opA]; EMul [s2; EPow a 2]] /\
  Forall (Forall (fun f => is_leaf f = true)) [[s1; opA]; [s2; a; a]].
Proof.
  intros e. assert (Hr : get_terms_and_factors 1 e =
    Ok ([EMul [s1; opA]; EMul [s2; EPow a 2]], [[s1; opA]; [s2; a; a]])) by reflexivity.
  split; [exact Hr|].
  apply (get_terms_and_factors_leaves 1 e _ _); [intros b n He; discriminate He|exact Hr].
Defined.
End DecomposeExamples.
