(* ===== verification/Classify.v ===== *)
(** * The classifier engine

    The four classifiers of [src/Modules/sympy/utils.py]:
    [group_by_order] (lines 48-69), [group_by_infinite] (71-87),
    [count_bosons] (89-117) and [group_by_diagonal] (121-145).  Each is a
    multimethod: a leaf implementation per leaf type, and an [Expr]
    implementation that decomposes the expression and calls the
    multimethod again on every factor.  That call is one level deeper in
    the Python recursion, so each classifier takes the remaining recursion
    depth [fuel] and raises [RecursionError] when it is used up. *)

From Stdlib Require Import ZArith.
From stdpp Require Import base list strings decidable.
From S2P Require Import Prelude Expr Engine Decompose.
Import ListNotations.

(** ** [group_by_order] *)

(** The value of [group_by_order]: the leaf implementations return a
    number, the [Expr] implementation a dict from orders to sums. *)
Inductive OrderResult : Type :=
| OrderInt (n : nat)
| OrderDict (d : dict nat (list Expr)).

(** A factor's order enters [np_sum(...)], which starts from [0]: adding a
    dict raises [TypeError]. *)
Definition order_as_int (r : OrderResult) : result nat :=
  match r with OrderInt n => Ok n | OrderDict _ => Err TypeError end.

Section GroupByOrder.
Context `{AlgebraEngine}.

Fixpoint group_by_order (fuel : nat) (e : Expr) : result OrderResult :=
  match e with
  | ESym _ o => Ok (OrderInt o)
  | ENum _ | EOp _ _ _ _ | EBoson _ _ => Ok (OrderInt 0)
  | _ =>
      match fuel with
      | 0 => Err RecursionError
      | S fuel' =>
          p <- get_terms_and_factors fuel' e ;;
          ords <- mapR (fun fs =>
                    ns <- mapR (fun f => r <- group_by_order fuel' f ;; order_as_int r) fs ;;
                    Ok (sum_list ns)) p.2 ;;
          Ok (OrderDict (group_pairs (combine ords p.1)))
      end
  end.
End GroupByOrder.

(** The order of a leaf ([RDsymbol.order], and 0 for the other leaves),
    and of a term: the sum over its decomposed factors. *)
Definition leaf_order (e : Expr) : nat :=
  match e with ESym _ o => o | _ => 0 end.

Definition term_order `{AlgebraEngine} (t : Expr) : nat :=
  sum_list (map leaf_order (term_factors t)).

Section GroupByOrderTheorems.
Context `{AlgebraEngine}.

Lemma group_by_order_generic_unfold fuel e :
  is_leaf e = false ->
  group_by_order (S fuel) e =
    (p <- get_terms_and_factors fuel e ;;
     ords <- mapR (fun fs =>
               ns <- mapR (fun f => r <- group_by_order fuel f ;; order_as_int r) fs ;;
               Ok (sum_list ns)) p.2 ;;
     Ok (OrderDict (group_pairs (combine ords p.1)))).
Proof. destruct e; try discriminate; reflexivity. Qed.

Lemma group_by_order_leaf fuel f :
  is_leaf f = true -> group_by_order fuel f = Ok (OrderInt (leaf_order f)).
Proof. destruct f, fuel; try discriminate; reflexivity. Qed.

(** On the factors of a decomposed term, the recursive calls return the
    leaf orders. *)
Lemma factor_orders_leaves fuel fs :
  Forall (fun f => is_leaf f = true) fs ->
  mapR (fun f => r <- group_by_order fuel f ;; order_as_int r) fs = Ok (map leaf_order fs).
Proof.
  intros Hfs. apply mapR_Ok_map. intros f Hf. rewrite Forall_forall in Hfs.
  rewrite group_by_order_leaf; [done|]. apply Hfs. by apply list_elem_of_In.
Qed.

Context `{!EngineLaws}.

(** The dict [group_by_order] returns has one key per order
    that occurs, and the bucket of order [k] holds exactly the terms of
    order [k], in the engine's order. *)
Lemma group_by_order_buckets_core fuel e :
  is_generic e = true -> decomposable e ->
  exists d, group_by_order (S (S fuel)) e = Ok (OrderDict d) /\
    forall k, dget k d = nonempty (filter (fun t => term_order t = k) (expand_terms e)).
Proof.
  intros Hg Hd. rewrite group_by_order_generic_unfold by (by destruct e).
  rewrite get_terms_and_factors_total_core by done.
  cbn [rbind fst snd]. rewrite (mapR_Ok_map _ (fun fs => sum_list (map leaf_order fs))).
  - cbn [rbind]. eexists; split; [reflexivity|]. intros k.
    rewrite dget_group_pairs, map_map. apply (f_equal nonempty), bucket_combine_map.
  - intros fs Hfs. apply list_elem_of_fmap in Hfs as (t & -> & Ht).
    rewrite factor_orders_leaves by (by eapply term_factors_leaves). done.
Qed.

(** C1. (functional) The dict [group_by_order] returns has one key per order
    that occurs, and the bucket of order [k] holds exactly the terms of
    order [k], in the engine's order. *)
Theorem group_by_order_buckets fuel e :
  is_generic e = true -> decomposable e ->
  exists d, group_by_order (S (S fuel)) e = Ok (OrderDict d) /\
    forall k, dget k d = nonempty (filter (fun t => term_order t = k) (expand_terms e)).
Proof. intros; eapply group_by_order_buckets_core; eassumption. Qed.

(** C10. (functional) [group_by_order] is additive: when the engine expands a
    sum into the terms of its two summands, the bucket of every order is
    the concatenation of the summands' buckets. *)
Theorem group_by_order_add fuel a b :
  expand_terms (EAdd [a; b]) = expand_terms a ++ expand_terms b ->
  is_generic a = true -> is_generic b = true -> decomposable a -> decomposable b ->
  exists da db dab,
    group_by_order (S (S fuel)) a = Ok (OrderDict da) /\
    group_by_order (S (S fuel)) b = Ok (OrderDict db) /\
    group_by_order (S (S fuel)) (EAdd [a; b]) = Ok (OrderDict dab) /\
    forall k, dget_or [] k dab = dget_or [] k da ++ dget_or [] k db.
Proof.
  intros Hab Hga Hgb Hda Hdb.
  assert (Hd : decomposable (EAdd [a; b])).
  { intros t f Ht Hf. rewrite Hab in Ht. apply elem_of_app in Ht as [Ht|Ht]; eauto. }
  destruct (group_by_order_buckets_core fuel a Hga Hda) as (da & Ea & Ha).
  destruct (group_by_order_buckets_core fuel b Hgb Hdb) as (db & Eb & Hb).
  destruct (group_by_order_buckets_core fuel (EAdd [a; b]) eq_refl Hd) as (dab & Eab & Hab').
  exists da, db, dab. split_and!; [done..|]. intros k. unfold dget_or.
  by rewrite Ha, Hb, Hab', !default_nonempty, Hab, list.filter_app.
Qed.

(** C16. (error) A power of a compound base, such as [(g*sx + f*tx)**2], is
    never classified: the [Pow] case of the decomposer repeats the
    unexpanded base as a factor, and the order of that factor is a dict,
    which [np_sum] cannot add. *)
Theorem group_by_order_pow_compound fuel b n :
  is_generic b = true -> decomposable b -> (0 < n)%Z ->
  group_by_order (S (S (S fuel))) (EPow b n) = Err TypeError.
Proof.
  intros Hg Hd Hn. rewrite group_by_order_generic_unfold by done.
  rewrite gtf_non_generic by done. cbn [rbind fst snd factor_decomp].
  destruct (Z.to_nat n) as [|k] eqn:Ek; [lia|]. cbn [repeat mapR].
  destruct (group_by_order_buckets_core fuel b Hg Hd) as (d & Eb & _).
  by rewrite Eb.
Qed.
End GroupByOrderTheorems.

(** A power with a negative exponent contributes no factor at all
    ([range(n)] is empty), so the term is filed under order 0 whatever the
    order of its base. *)
Theorem group_by_order_neg_pow `{AlgebraEngine} fuel b n :
  (n < 0)%Z -> group_by_order (S (S fuel)) (EPow b n) = Ok (OrderDict [(0, [EPow b n])]).
Proof. intros Hn. destruct n; try lia. reflexivity. Qed.

(** ** [group_by_infinite] *)

(** The leaf implementation returns a bool, the [Expr] implementation a
    dict from bools to sums. *)
Inductive InfResult : Type :=
| InfBool (b : bool)
| InfDict (d : dict bool (list Expr)).

(** Python truthiness of the two kinds of value. *)
Definition inf_truthy (r : InfResult) : bool :=
  match r with InfBool b => b | InfDict d => negb (bool_decide (d = [])) end.

(** [np_any(lst)]: on a list of bools, whether one is true; a list that
    also holds a dict becomes an object array, and [np.any] then returns,
    as Python's [or] does, the first truthy element or else the last. *)
Fixpoint np_any_objects (l : list InfResult) : InfResult :=
  match l with
  | [] => InfBool false
  | [x] => x
  | x :: l' => if inf_truthy x then x else np_any_objects l'
  end.

(** The value becomes a dict key: a dict is unhashable. *)
Definition inf_key (r : InfResult) : result bool :=
  match r with InfBool b => Ok b | InfDict _ => Err TypeError end.

Section GroupByInfinite.
Context `{AlgebraEngine}.

Fixpoint group_by_infinite (fuel : nat) (e : Expr) : result InfResult :=
  if is_leaf e then Ok (InfBool (is_boson e)) else
  match fuel with
  | 0 => Err RecursionError
  | S fuel' =>
      p <- get_terms_and_factors fuel' e ;;
      keys <- mapR (fun fs =>
                rs <- mapR (group_by_infinite fuel') fs ;;
                inf_key (np_any_objects rs)) p.2 ;;
      Ok (InfDict (group_pairs (combine keys p.1)))
  end.
End GroupByInfinite.

(** A term is infinite when one of its factors is a boson operator. *)
Definition term_infinite `{AlgebraEngine} (t : Expr) : bool :=
  existsb is_boson (term_factors t).

Lemma np_any_objects_bools (bs : list bool) :
  np_any_objects (map InfBool bs) = InfBool (existsb id bs).
Proof.
  induction bs as [|b [|b' bs] IH]; simpl; [done| |].
  - by destruct b.
  - destruct b; simpl in *; [done|]. exact IH.
Qed.

Section GroupByInfiniteTheorems.
Context `{AlgebraEngine}.

Lemma group_by_infinite_leaf fuel f :
  is_leaf f = true -> group_by_infinite fuel f = Ok (InfBool (is_boson f)).
Proof. destruct f, fuel; try discriminate; reflexivity. Qed.

Lemma group_by_infinite_generic_unfold fuel e :
  is_leaf e = false ->
  group_by_infinite (S fuel) e =
    (p <- get_terms_and_factors fuel e ;;
     keys <- mapR (fun fs =>
               rs <- mapR (group_by_infinite fuel) fs ;;
               inf_key (np_any_objects rs)) p.2 ;;
     Ok (InfDict (group_pairs (combine keys p.1)))).
Proof. destruct e; try discriminate; reflexivity. Qed.

Lemma factor_infinite_leaves fuel fs :
  Forall (fun f => is_leaf f = true) fs ->
  (rs <- mapR (group_by_infinite fuel) fs ;; inf_key (np_any_objects rs))
  = Ok (existsb is_boson fs).
Proof.
  intros Hfs. rewrite (mapR_Ok_map _ (fun f => InfBool (is_boson f))).
  - cbn [rbind]. rewrite <-(map_map is_boson InfBool), np_any_objects_bools.
    simpl. clear Hfs. induction fs as [|f fs IH]; simpl; [done|].
    injection IH as ->. done.
  - intros f Hf. rewrite Forall_forall in Hfs.
    apply group_by_infinite_leaf, Hfs. by apply list_elem_of_In.
Qed.

Context `{!EngineLaws}.

(** On a decomposable expression, [group_by_infinite] groups the terms by
    [term_infinite]. *)
Lemma group_by_infinite_dict fuel e :
  is_generic e = true -> decomposable e ->
  group_by_infinite (S (S fuel)) e
  = Ok (InfDict (group_pairs (combine (map term_infinite (expand_terms e)) (expand_terms e)))).
Proof.
  intros Hg Hd. rewrite group_by_infinite_generic_unfold by (by destruct e).
  rewrite get_terms_and_factors_total_core by done. cbn [rbind fst snd].
  rewrite (mapR_Ok_map _ (fun fs => existsb is_boson fs)).
  - cbn [rbind]. by rewrite map_map.
  - intros fs Hfs. apply list_elem_of_fmap in Hfs as (t & -> & Ht).
    apply factor_infinite_leaves. by eapply term_factors_leaves.
Qed.

(** C3. (functional) [group_by_infinite] files every term under [true]
    exactly when one of its factors is a boson operator; no term is lost
    or duplicated, so the two sums add up to the expression. *)
Theorem group_by_infinite_partition fuel e :
  is_generic e = true -> decomposable e ->
  exists d, group_by_infinite (S (S fuel)) e = Ok (InfDict d) /\
    (forall b, dget b d = nonempty (filter (fun t => term_infinite t = b) (expand_terms e))) /\
    concat (dvalues d) ≡ₚ expand_terms e.
Proof.
  intros Hg Hd. rewrite group_by_infinite_dict by done.
  eexists; split_and!; [reflexivity| |].
  - intros b. rewrite dget_group_pairs. apply (f_equal nonempty), bucket_combine_map.
  - by rewrite group_pairs_perm, map_snd_combine_map.
Qed.
End GroupByInfiniteTheorems.

(** ** The theorems on examples *)
Module ClassifyExamples.
Import Fixtures.

(** Spec scenario B: [s1*opA + s2*opA*opA] with [s1] of order 1 and
    [s2] of order 2 gives [{1: s1*opA, 2: s2*opA*opA}], no key 0. *)
Example scenario_B :
  group_by_order 3 (EAdd [EMul [s1; opA]; EMul [s2; opA; opA]])
  = Ok (OrderDict [(1, [EMul [s1; opA]]); (2, [EMul [s2; opA; opA]])]).
Proof. reflexivity. Qed.

Lemma group_by_order_buckets_witness :
  let e := EAdd [EMul [s1; opA]; EMul [s2; opA; opA]] in
  exists d, group_by_order 3 e = Ok (OrderDict d) /\
    forall k, dget k d = nonempty (filter (fun t => term_order t = k) (expand_terms e)).
Proof.
  intros e. apply (group_by_order_buckets 1 e);
    [reflexivity|apply decomposable_b_sound; vm_compute; reflexivity].
Defined.

Lemma group_by_order_add_witness :
  let x := EMul [s1; opA] in let y := EAdd [EMul [s2; opA; opA]; EMul [g; a]] in
  exists da db dab,
    group_by_order 3 x = Ok (OrderDict da) /\
    group_by_order 3 y = Ok (OrderDict db) /\
    group_by_order 3 (EAdd [x; y]) = Ok (OrderDict dab) /\
    forall k, dget_or [] k dab = dget_or [] k da ++ dget_or [] k db.
Proof.
  intros x y. apply (group_by_order_add 1 x y).
  - reflexivity.
  - reflexivity.
  - reflexivity.
  - apply decomposable_b_sound. vm_compute. reflexivity.
  - apply decomposable_b_sound. vm_compute. reflexivity.
Defined.

(** [(s1*opA + opB)**2] *)
Lemma group_by_order_pow_compound_witness :
  group_by_order 4 (EPow (EAdd [EMul [s1; opA]; opB]) 2) = Err TypeError.
Proof.
  apply (group_by_order_pow_compound 1 (EAdd [EMul [s1; opA]; opB]) 2).
  - reflexivity.
  - apply decomposable_b_sound. vm_compute. reflexivity.
  - lia.
Defined.

(** [s1**(-1)], of order 1 by the spec's rule, is filed under order 0. *)
Lemma group_by_order_neg_pow_witness :
  group_by_order 2 (EPow s1 (-1)) = Ok (OrderDict [(0, [EPow s1 (-1)])]).
Proof. apply (group_by_order_neg_pow 0 s1 (-1)). lia. Defined.

Lemma group_by_infinite_partition_witness :
  let e := EAdd [EMul [s1; ad; opA]; EMul [s2; opA]] in
  exists d, group_by_infinite 2 e = Ok (InfDict d) /\
    (forall b, dget b d = nonempty (filter (fun t => term_infinite t = b) (expand_terms e))) /\
    concat (dvalues d) ≡ₚ expand_terms e.
Proof.
  intros e. apply (group_by_infinite_partition 0 e);
    [reflexivity|apply decomposable_b_sound; vm_compute; reflexivity].
Defined.
End ClassifyExamples.
