(* ===== verification/Bosons.v ===== *)
(** * Boson occupation counting

    [count_bosons] of [src/Modules/sympy/utils.py] (lines 89-117): for
    each boson mode (the [subspace] of an [RDBoson]), the number of its
    creation and annihilation operators over every factor of every term.
    The leaf implementations return [None] (no boson) or a pair
    [(subspace, {kind: 1})]; the [Expr] implementation returns a dict of
    dicts. *)

From Stdlib Require Import ZArith.
From stdpp Require Import base list strings decidable sets.
From S2P Require Import Prelude Expr Engine Decompose.
Import ListNotations.

Inductive BosonCount : Type :=
| CountNone
| CountLeaf (sub : string) (kind : Ladder)
| CountDict (d : dict string (dict Ladder nat)).

(** The body of the inner loop (lines 111-115): the first count of a mode
    creates its dict, later ones add to the existing entry. *)
Definition add_count (sub : string) (kind : Ladder) (n : nat)
    (bc : dict string (dict Ladder nat)) : dict string (dict Ladder nat) :=
  match dget sub bc with
  | None => dset sub [(kind, n)] bc
  | Some inner => dset sub (dset kind (dget_or 0 kind inner + n) inner) bc
  end.

(** [subspace, result_count = result_count] (line 110) after the [None]
    test: a leaf pair unpacks; a dict unpacks into its keys, which fails
    unless it has exactly two, and then the second key, a string, has no
    [.items()]. *)
Definition unpack_count (r : BosonCount) : result (option (string * Ladder)) :=
  match r with
  | CountNone => Ok None
  | CountLeaf s k => Ok (Some (s, k))
  | CountDict d => if bool_decide (length d = 2) then Err AttributeError else Err ValueError
  end.

Definition tally (cs : list (option (string * Ladder))) : dict string (dict Ladder nat) :=
  fold_left (fun bc c => match c with None => bc | Some (s, k) => add_count s k 1 bc end) cs [].

Section CountBosons.
Context `{AlgebraEngine}.

Fixpoint count_bosons (fuel : nat) (e : Expr) : result BosonCount :=
  match e with
  | EBoson s k => Ok (CountLeaf s k)
  | ENum _ | ESym _ _ | EOp _ _ _ _ => Ok CountNone
  | _ =>
      match fuel with
      | 0 => Err RecursionError
      | S fuel' =>
          p <- get_terms_and_factors fuel' e ;;
          cs <- mapR (fun f => r <- count_bosons fuel' f ;; unpack_count r) (concat p.2) ;;
          Ok (CountDict (tally cs))
      end
  end.
End CountBosons.

(** The count a dict of dicts records for a mode and a kind, [0] when
    absent. *)
Definition count_of (s : string) (k : Ladder) (d : dict string (dict Ladder nat)) : nat :=
  dget_or 0 k (dget_or [] s d).

(** The number of [RDBoson]s of mode [s] and kind [k] in a factor list. *)
Definition boson_count (s : string) (k : Ladder) (fs : list Expr) : nat :=
  length (filter (fun f => f = EBoson s k) fs).

(** What a leaf factor contributes. *)
Definition leaf_boson (f : Expr) : option (string * Ladder) :=
  match f with EBoson s k => Some (s, k) | _ => None end.

Lemma count_of_add_count s k s' k' n bc :
  count_of s k (add_count s' k' n bc)
  = count_of s k bc + (if bool_decide ((s, k) = (s', k')) then n else 0).
Proof.
  unfold count_of, add_count, dget_or.
  destruct (decide (s = s')) as [<-|Hs].
  - destruct (dget s bc) as [inner|] eqn:E; rewrite dget_dset_eq; simpl; rewrite ?E; simpl.
    + destruct (decide (k = k')) as [<-|Hk].
      * rewrite dget_dset_eq, bool_decide_true by done. simpl. lia.
      * rewrite dget_dset_ne, bool_decide_false by congruence. simpl. lia.
    + case_decide as Hk; [subst|]; case_bool_decide; simplify_eq; simpl; try lia.
      all: by rewrite decide_True.
  - rewrite bool_decide_false by congruence.
    destruct (dget s' bc); rewrite dget_dset_ne by done; lia.
Qed.

Lemma count_of_tally_gen s k cs bc :
  count_of s k (fold_left (fun bc c => match c with None => bc | Some (s, k) => add_count s k 1 bc end) cs bc)
  = count_of s k bc + length (filter (fun c => c = Some (s, k)) cs).
Proof.
  revert bc. induction cs as [|[[s' k']|] cs IH]; intros bc; simpl; [lia| |].
  - rewrite IH, count_of_add_count, filter_cons.
    case_bool_decide as E; [injection E as -> ->; rewrite decide_True by done; simpl; lia|].
    rewrite decide_False by congruence. lia.
  - rewrite IH, filter_cons, decide_False by done. done.
Qed.

Lemma dget_tally_gen s cs bc :
  is_Some (dget s (fold_left (fun bc c => match c with None => bc | Some (s, k) => add_count s k 1 bc end) cs bc))
  <-> is_Some (dget s bc) \/ exists k, Some (s, k) ∈ cs.
Proof.
  revert bc. induction cs as [|[[s' k']|] cs IH]; intros bc; simpl.
  - split; [auto|]. intros [?|(k & Hk)]; [done|set_solver].
  - rewrite IH. unfold add_count.
    assert (His : is_Some (dget s (match dget s' bc with
                   | Some inner => dset s' (dset k' (dget_or 0 k' inner + 1) inner) bc
                   | None => dset s' [(k', 1)] bc end)) <-> is_Some (dget s bc) \/ s = s').
    { destruct (decide (s = s')) as [<-|Hne].
      - destruct (dget s bc); rewrite dget_dset_eq; naive_solver.
      - destruct (dget s' bc); rewrite dget_dset_ne by done; naive_solver. }
    rewrite His. split.
    + intros [[Hs|Heq]|(k & Hk)]; [by left|subst; right; exists k'; left|right; exists k; by right].
    + intros [?|(k & Hk)]; [by left; left|]. apply elem_of_cons in Hk as [Hk|Hk].
      * injection Hk as -> ->. by left; right.
      * right. by exists k.
  - rewrite IH. split; [intros [?|(k & Hk)]; [by left|right; exists k; by right]|].
    intros [?|(k & Hk)]; [by left|]. apply elem_of_cons in Hk as [Hk|Hk]; [done|].
    right. by exists k.
Qed.

Lemma tally_leaves s k fs :
  length (filter (fun c => c = Some (s, k)) (map leaf_boson fs)) = boson_count s k fs.
Proof.
  unfold boson_count. induction fs as [|f fs IH]; [done|].
  rewrite map_cons, !filter_cons.
  destruct f as [| | | s' k'| | | |]; cbn [leaf_boson];
    try (rewrite !decide_False by done; exact IH).
  destruct (decide ((s', k') = (s, k))) as [E|E].
  - injection E as -> ->. rewrite !decide_True by done. cbn [length]. by rewrite IH.
  - rewrite !decide_False by congruence. exact IH.
Qed.

Lemma leaf_boson_elem s k fs : Some (s, k) ∈ map leaf_boson fs <-> EBoson s k ∈ fs.
Proof.
  rewrite list_elem_of_fmap. split.
  - intros (f & Hf & Hin). destruct f; try discriminate. by injection Hf as -> ->.
  - intros Hin. by exists (EBoson s k).
Qed.

Lemma tally_NoDup cs : NoDup (dkeys (tally cs)).
Proof.
  unfold tally. generalize (NoDup_nil_2 (A:=string)).
  change (@nil string) with (dkeys (@nil (string * dict Ladder nat))).
  generalize (@nil (string * dict Ladder nat)).
  induction cs as [|[[s k]|] cs IH]; intros bc Hbc; simpl; [done| |by apply IH].
  apply IH. unfold add_count. destruct (dget s bc); by apply dkeys_dset_NoDup.
Qed.

Section CountBosonsTheorems.
Context `{AlgebraEngine}.

Lemma count_bosons_generic_unfold fuel e :
  is_leaf e = false ->
  count_bosons (S fuel) e =
    (p <- get_terms_and_factors fuel e ;;
     cs <- mapR (fun f => r <- count_bosons fuel f ;; unpack_count r) (concat p.2) ;;
     Ok (CountDict (tally cs))).
Proof. destruct e; try discriminate; reflexivity. Qed.

Lemma leaf_counts fuel fs :
  Forall (fun f => is_leaf f = true) fs ->
  mapR (fun f => r <- count_bosons fuel f ;; unpack_count r) fs = Ok (map leaf_boson fs).
Proof.
  intros Hfs. apply mapR_Ok_map. intros f Hf. rewrite Forall_forall in Hfs.
  apply Hfs in Hf. by destruct f, fuel.
Qed.

Lemma count_bosons_leaf fuel f :
  is_leaf f = true ->
  count_bosons fuel f = Ok (match f with EBoson s k => CountLeaf s k | _ => CountNone end).
Proof. destruct f, fuel; try discriminate; reflexivity. Qed.

Context `{!EngineLaws}.

(** [count_bosons(term)] on a compound term of a decomposable
    expression tallies the bosons among the term's factors. *)
Lemma count_bosons_term fuel e t :
  decomposable e -> t ∈ expand_terms e -> is_leaf t = false ->
  count_bosons (S (S fuel)) t = Ok (CountDict (tally (map leaf_boson (term_factors t)))).
Proof.
  intros Hd Ht Hl. rewrite count_bosons_generic_unfold by done.
  rewrite (get_terms_and_factors_term fuel e t) by done. cbn [rbind fst snd concat].
  rewrite app_nil_r, leaf_counts by (by eapply term_factors_leaves). done.
Qed.

(** C4. (functional) [count_bosons] counts, for every mode and kind, the
    boson operators among all factors of all terms, and a mode is a key
    exactly when one of its operators occurs: a non-boson factor
    contributes nothing, not a zero count. *)
Theorem count_bosons_counts fuel e :
  is_generic e = true -> decomposable e ->
  exists d, count_bosons (S (S fuel)) e = Ok (CountDict d) /\
    (forall s k, count_of s k d = boson_count s k (all_factors e)) /\
    (forall s, is_Some (dget s d) <-> exists k, EBoson s k ∈ all_factors e).
Proof.
  intros Hg Hd. rewrite count_bosons_generic_unfold by (by destruct e).
  rewrite get_terms_and_factors_total_core by done. cbn [rbind fst snd].
  fold (all_factors e). rewrite leaf_counts by (by apply all_factors_leaves).
  cbn [rbind]. eexists; split_and!; [reflexivity| |].
  - intros s k. unfold tally. rewrite count_of_tally_gen, tally_leaves. done.
  - intros s. unfold tally. rewrite dget_tally_gen. simpl.
    setoid_rewrite leaf_boson_elem. split; [intros [[? ?]|?]; [done|done]|auto].
Qed.
End CountBosonsTheorems.

(** ** The theorems on examples *)
Module BosonsExamples.
Import Fixtures.

Example count_bosons_example :
  count_bosons 2 (EAdd [EMul [s1; ad; a; opA]; EMul [s2; EPow ad 2]])
  = Ok (CountDict [("a", [(Creation, 3); (Annihilation, 1)])]).
Proof. reflexivity. Qed.

Lemma count_bosons_counts_witness :
  let e := EAdd [EMul [s1; ad; a; opA]; EMul [s2; EPow ad 2]] in
  exists d, count_bosons 2 e = Ok (CountDict d) /\
    (forall s k, count_of s k d = boson_count s k (all_factors e)) /\
    (forall s, is_Some (dget s d) <-> exists k, EBoson s k ∈ all_factors e).
Proof.
  intros e. apply (count_bosons_counts 0 e);
    [reflexivity|apply decomposable_b_sound; vm_compute; reflexivity].
Defined.
End BosonsExamples.
