(* ===== verification/Diagonal.v ===== *)
(** * Diagonal / non-diagonal classification

    [group_by_diagonal] of [src/Modules/sympy/utils.py] (lines 121-145).
    A lone [RDOperator] is diagonal when its matrix is (line 124); a
    symbol or a number always is (line 129); every other expression, a
    lone [RDBoson] included, is split into terms, and a term is diagonal
    when every boson mode in it has as many creation as annihilation
    operators and every non-boson factor is diagonal. *)

From Stdlib Require Import ZArith.
From stdpp Require Import base list strings decidable sets.
From S2P Require Import Prelude Expr Engine Decompose Bosons.
Import ListNotations.

(** ** Diagonal matrices *)

(** The reference: every entry off the diagonal is the number 0. *)
Fixpoint row_offdiag_zero (i j : nat) (row : list Expr) : bool :=
  match row with
  | [] => true
  | x :: r => (bool_decide (i = j) || bool_decide (x = ENum 0)) && row_offdiag_zero i (S j) r
  end.

Fixpoint offdiag_zero_from (i : nat) (M : Matrix) : bool :=
  match M with
  | [] => true
  | row :: M' => row_offdiag_zero i 0 row && offdiag_zero_from (S i) M'
  end.

Definition offdiag_zero (M : Matrix) : bool := offdiag_zero_from 0 M.

(** What the code computes: the sum of the absolute values of the entries
    of [M] minus the diagonal matrix of its diagonal, compared with [0].
    The residual is [0] on the diagonal and the entry elsewhere; the
    absolute value of a number is a number, that of a symbolic entry is
    a symbolic [Abs(x)] ([None]), and a sum with a symbolic summand is
    never the number [0]. *)
Definition abs_residual (i j : nat) (x : Expr) : option Z :=
  if decide (i = j) then Some 0%Z
  else match x with ENum z => Some (Z.abs z) | _ => None end.

Definition opt_add (a b : option Z) : option Z :=
  match a, b with Some x, Some y => Some (x + y)%Z | _, _ => None end.

Fixpoint row_residual (i j : nat) (row : list Expr) : option Z :=
  match row with
  | [] => Some 0%Z
  | x :: r => opt_add (abs_residual i j x) (row_residual i (S j) r)
  end.

Fixpoint residual_sum (i : nat) (M : Matrix) : option Z :=
  match M with
  | [] => Some 0%Z
  | row :: M' => opt_add (row_residual i 0 row) (residual_sum (S i) M')
  end.

Definition residual_is_zero (M : Matrix) : bool :=
  match residual_sum 0 M with Some z => Z.eqb z 0 | None => false end.

(** [M - diag(...)] needs a square matrix (SymPy raises [ShapeError]). *)
Definition is_square (M : Matrix) : bool :=
  forallb (fun row => bool_decide (length row = length M)) M.

(** [group_by_diagonal(RDOperator)]'s test (line 124). *)
Definition matrix_is_diagonal (M : Matrix) : result bool :=
  if is_square M then Ok (residual_is_zero M) else Err ShapeError.

(** A sum of absolute values is [Some z] with [z] nonnegative, and it is
    [Some 0] exactly when every summand is the number [0]. *)
Definition residual_spec (r : option Z) (b : bool) : Prop :=
  match r with
  | Some z => (0 <= z)%Z /\ (z = 0%Z <-> b = true)
  | None => b = false
  end.

Lemma opt_add_spec r1 r2 b1 b2 :
  residual_spec r1 b1 -> residual_spec r2 b2 -> residual_spec (opt_add r1 r2) (b1 && b2).
Proof.
  destruct r1 as [z1|], r2 as [z2|]; simpl; try (intros ->; done);
    [|intros ? ->; by destruct b1].
  intros [H1 H1'] [H2 H2']. split; [lia|].
  rewrite andb_true_iff, <-H1', <-H2'. lia.
Qed.

Lemma abs_residual_spec i j x :
  residual_spec (abs_residual i j x) (bool_decide (i = j) || bool_decide (x = ENum 0)).
Proof.
  unfold abs_residual. destruct (decide (i = j)) as [->|Hij].
  - rewrite bool_decide_true by done. simpl. lia.
  - rewrite bool_decide_false by done. simpl.
    destruct x as [z| | | | | | |]; simpl; try reflexivity.
    split; [lia|]. rewrite bool_decide_eq_true.
    split; [intros Hz; f_equal; lia|intros H; injection H; lia].
Qed.

Lemma row_residual_spec i j row : residual_spec (row_residual i j row) (row_offdiag_zero i j row).
Proof.
  revert j. induction row as [|x row IH]; intros j; simpl; [lia|].
  apply opt_add_spec; [apply abs_residual_spec|apply IH].
Qed.

Lemma residual_sum_spec i M : residual_spec (residual_sum i M) (offdiag_zero_from i M).
Proof.
  revert i. induction M as [|row M IH]; intros i; simpl; [lia|].
  apply opt_add_spec; [apply row_residual_spec|apply IH].
Qed.

(** The code's sum-of-absolute-residuals test decides
    exactly that every off-diagonal entry is zero. *)
Lemma residual_is_zero_offdiag_core (M : Matrix) : residual_is_zero M = offdiag_zero M.
Proof.
  unfold residual_is_zero, offdiag_zero. pose proof (residual_sum_spec 0 M) as Hs.
  destruct (residual_sum 0 M) as [z|]; simpl in *; [|done].
  destruct Hs as [_ Hz]. destruct (Z.eqb_spec z 0) as [->|Hne]; symmetry.
  - by apply Hz.
  - destruct (offdiag_zero_from 0 M); [|done]. exfalso. by apply Hne, Hz.
Qed.

(** C11. (equivalence) The code's sum-of-absolute-residuals test decides
    exactly that every off-diagonal entry is zero. *)
Theorem residual_is_zero_offdiag (M : Matrix) : residual_is_zero M = offdiag_zero M.
Proof. intros; eapply residual_is_zero_offdiag_core; eassumption. Qed.

(** ** [group_by_diagonal] *)

(** [bosons_counts.values()]: only the [Expr] implementation of
    [count_bosons] returns a dict; [None] and the leaf pair have no
    [.values()]. *)
Definition count_values (r : BosonCount) : result (list (dict Ladder nat)) :=
  match r with CountDict d => Ok (dvalues d) | _ => Err AttributeError end.

(** [boson_count.get("creation", 0) == boson_count.get("annihilation", 0)] *)
Definition balanced (c : dict Ladder nat) : bool :=
  bool_decide (dget_or 0 Creation c = dget_or 0 Annihilation c).

Section GroupByDiagonal.
Context `{AlgebraEngine}.

Fixpoint group_by_diagonal (fuel : nat) (e : Expr) : result (dict bool (list Expr)) :=
  match e with
  | EOp _ _ _ m => b <- matrix_is_diagonal m ;; Ok [(b, [e])]
  | ESym _ _ | ENum _ => Ok [(true, [e])]
  | _ =>
      match fuel with
      | 0 => Err RecursionError
      | S fuel' =>
          p <- get_terms_and_factors fuel' e ;;
          keys <- mapR (fun tf =>
                    bc <- count_bosons fuel' tf.1 ;;
                    counts <- count_values bc ;;
                    fin <- mapR (fun f =>
                             r <- group_by_diagonal fuel' f ;;
                             head_or_index_error (dkeys r))
                           (filter (fun f => is_boson f = false) tf.2) ;;
                    Ok (forallb balanced counts && forallb id fin))
                  (combine p.1 p.2) ;;
          Ok (group_pairs (combine keys p.1))
      end
  end.
End GroupByDiagonal.

(** ** The specification of a diagonal term *)

(** The modes of the boson operators among some factors. *)
Definition boson_modes (fs : list Expr) : list string :=
  omap (fun f => match f with EBoson s _ => Some s | _ => None end) fs.

(** Every mode has as many creation as annihilation operators. *)
Definition bosons_balanced (fs : list Expr) : bool :=
  forallb (fun s => bool_decide (boson_count s Creation fs = boson_count s Annihilation fs))
    (boson_modes fs).

(** A lone factor is diagonal: an operator with a diagonal matrix, or a
    symbol or a number. *)
Definition leaf_diagonal (f : Expr) : bool :=
  match f with EOp _ _ _ m => offdiag_zero m | _ => true end.

Definition finite_diagonal (fs : list Expr) : bool :=
  forallb leaf_diagonal (filter (fun f => is_boson f = false) fs).

Definition term_is_diagonal (fs : list Expr) : bool :=
  bosons_balanced fs && finite_diagonal fs.

(** The operators among some factors have square matrices. *)
Definition operators_square (fs : list Expr) : Prop :=
  Forall (fun f => match f with EOp _ _ _ m => is_square m = true | _ => True end) fs.

Lemma boson_count_notin s k fs : s ∉ boson_modes fs -> boson_count s k fs = 0.
Proof.
  unfold boson_count, boson_modes. induction fs as [|f fs IH]; [done|].
  rewrite filter_cons. intros Hs. destruct (decide (f = EBoson s k)) as [->|Hf].
  - exfalso. apply Hs. simpl. left.
  - apply IH. intros Hin. apply Hs. destruct f; simpl; try done. by right.
Qed.

(** The balance test over the modes present is the balance of every mode. *)
Lemma bosons_balanced_spec fs :
  bosons_balanced fs = true <->
  forall s, boson_count s Creation fs = boson_count s Annihilation fs.
Proof.
  unfold bosons_balanced. rewrite forallb_forall. split.
  - intros Hall s. destruct (decide (s ∈ boson_modes fs)) as [Hin|Hout].
    + rewrite <-bool_decide_eq_true. apply Hall. by apply list_elem_of_In.
    + by rewrite !boson_count_notin.
  - intros Hall s _. by apply bool_decide_eq_true_2.
Qed.

(** (refinement) Checking every value of the counts dict checks every
    mode: the modes absent from the dict have no operator at all. *)
Lemma values_balanced_iff d :
  NoDup (dkeys d) ->
  forallb balanced (dvalues d) = true <->
  forall s, count_of s Creation d = count_of s Annihilation d.
Proof.
  intros Hnd. unfold dvalues. rewrite forallb_forall. split.
  - intros Hall s. unfold count_of, dget_or at 2 4.
    destruct (dget s d) as [c|] eqn:E; simpl; [|done].
    apply dget_Some_elem in E. rewrite <-bool_decide_eq_true. apply Hall, in_map_iff.
    exists (s, c). split; [done|by apply list_elem_of_In].
  - intros Hall c Hc. apply in_map_iff in Hc as ([s c'] & <- & Hsc).
    apply list_elem_of_In, (dget_elem_NoDup _ _ _ Hnd) in Hsc.
    apply bool_decide_eq_true_2. specialize (Hall s). unfold count_of, dget_or at 2 4 in Hall.
    by rewrite Hsc in Hall.
Qed.

(** The code's balance test on the counts dict of a term's factors is
    the per-mode balance of creation and annihilation operators. *)
Lemma tally_balanced_core fs :
  forallb balanced (dvalues (tally (map leaf_boson fs))) = bosons_balanced fs.
Proof.
  apply eq_bool_prop_intro. rewrite !Is_true_true, values_balanced_iff by apply tally_NoDup.
  rewrite bosons_balanced_spec. setoid_rewrite count_of_tally_gen.
  unfold count_of, dget_or. simpl. by setoid_rewrite tally_leaves.
Qed.

(** C12. (refinement) The code's test, that every value of the counts
    dict built from a term's factors is balanced, is the specification's
    per-mode balance of creation and annihilation operators. *)
Lemma tally_balanced fs :
  forallb balanced (dvalues (tally (map leaf_boson fs))) = bosons_balanced fs.
Proof. intros; eapply tally_balanced_core; eassumption. Qed.

Lemma forallb_map_id {A} (g : A -> bool) (l : list A) : forallb id (map g l) = forallb g l.
Proof. induction l as [|x l IH]; simpl; [done|]. by rewrite IH. Qed.

(** The expressions [group_by_diagonal] sends to its [Expr]
    implementation: all but operators, symbols and numbers. *)
Definition diag_compound (e : Expr) : bool :=
  match e with EOp _ _ _ _ | ESym _ _ | ENum _ => false | _ => true end.

Section GroupByDiagonalTheorems.
Context `{AlgebraEngine}.

(** The body of the loop for one (term, factors) pair. *)
Definition diagonal_key (fuel : nat) (tf : Expr * list Expr) : result bool :=
  bc <- count_bosons fuel tf.1 ;;
  counts <- count_values bc ;;
  fin <- mapR (fun f => r <- group_by_diagonal fuel f ;; head_or_index_error (dkeys r))
           (filter (fun f => is_boson f = false) tf.2) ;;
  Ok (forallb balanced counts && forallb id fin).

Lemma group_by_diagonal_compound_unfold fuel e :
  diag_compound e = true ->
  group_by_diagonal (S fuel) e =
    (p <- get_terms_and_factors fuel e ;;
     keys <- mapR (diagonal_key fuel) (combine p.1 p.2) ;;
     Ok (group_pairs (combine keys p.1))).
Proof. destruct e; try discriminate; reflexivity. Qed.

Lemma finite_keys fuel fs :
  Forall (fun f => is_leaf f = true) fs -> operators_square fs ->
  mapR (fun f => r <- group_by_diagonal fuel f ;; head_or_index_error (dkeys r))
    (filter (fun f => is_boson f = false) fs)
  = Ok (map leaf_diagonal (filter (fun f => is_boson f = false) fs)).
Proof.
  intros Hl Hsq. apply mapR_Ok_map. intros f Hf.
  apply list_elem_of_filter in Hf as [Hb Hf].
  unfold operators_square in Hsq. rewrite Forall_forall in Hl, Hsq. specialize (Hl f Hf). specialize (Hsq f Hf).
  destruct f, fuel; try discriminate; simpl in *; try done;
    unfold matrix_is_diagonal; rewrite Hsq, residual_is_zero_offdiag_core; done.
Qed.

Context `{!EngineLaws}.

(** (functional) The key of a compound term is the specification's
    verdict on its factors. *)
Lemma diagonal_key_term fuel e t :
  decomposable e -> t ∈ expand_terms e -> is_leaf t = false ->
  operators_square (term_factors t) ->
  diagonal_key (S (S fuel)) (t, term_factors t) = Ok (term_is_diagonal (term_factors t)).
Proof.
  intros Hd Ht Hl Hsq. unfold diagonal_key. cbn [fst snd].
  rewrite (count_bosons_term fuel e t) by done. cbn [rbind count_values].
  rewrite finite_keys by (done || by eapply term_factors_leaves). cbn [rbind].
  by rewrite tally_balanced_core, forallb_map_id.
Qed.

Lemma operators_square_term e t :
  operators_square (all_factors e) -> t ∈ expand_terms e -> operators_square (term_factors t).
Proof.
  unfold operators_square, all_factors. rewrite Forall_concat, Forall_forall.
  intros Hall Ht. apply Hall, list_elem_of_fmap. eauto.
Qed.

(** When no term is a lone leaf and every matrix is
    square, [group_by_diagonal] files each term under [true] exactly
    when every boson mode in it is balanced and each of its non-boson
    factors is diagonal; no term is lost or duplicated. *)
Lemma group_by_diagonal_buckets_core fuel e :
  is_generic e = true -> decomposable e ->
  (forall t, t ∈ expand_terms e -> is_leaf t = false) ->
  operators_square (all_factors e) ->
  exists d, group_by_diagonal (S (S (S fuel))) e = Ok d /\
    (forall b, dget b d =
       nonempty (filter (fun t => term_is_diagonal (term_factors t) = b) (expand_terms e))) /\
    concat (dvalues d) ≡ₚ expand_terms e.
Proof.
  intros Hg Hd Hterms Hsq. rewrite group_by_diagonal_compound_unfold by (by destruct e).
  rewrite get_terms_and_factors_total_core by done. cbn [rbind fst snd].
  rewrite (mapR_Ok_map _ (fun tf => term_is_diagonal tf.2)).
  - cbn [rbind]. rewrite (map_combine_map term_factors (fun _ fs => term_is_diagonal fs)).
    eexists; split_and!; [reflexivity| |].
    + intros b. rewrite dget_group_pairs.
      apply (f_equal nonempty), (bucket_combine_map (fun t => term_is_diagonal (term_factors t))).
    + by rewrite group_pairs_perm, map_snd_combine_map.
  - intros [t fs] Htf. apply elem_of_combine_map in Htf as [Ht ->]. cbn [snd].
    apply (diagonal_key_term fuel e t); auto. by eapply operators_square_term.
Qed.

(** C2. (functional) When no term is a lone leaf and every matrix is
    square, [group_by_diagonal] files each term under [true] exactly
    when every boson mode in it is balanced and each of its non-boson
    factors is diagonal; no term is lost or duplicated. *)
Theorem group_by_diagonal_buckets fuel e :
  is_generic e = true -> decomposable e ->
  (forall t, t ∈ expand_terms e -> is_leaf t = false) ->
  operators_square (all_factors e) ->
  exists d, group_by_diagonal (S (S (S fuel))) e = Ok d /\
    (forall b, dget b d =
       nonempty (filter (fun t => term_is_diagonal (term_factors t) = b) (expand_terms e))) /\
    concat (dvalues d) ≡ₚ expand_terms e.
Proof. intros; eapply group_by_diagonal_buckets_core; eassumption. Qed.

(** C14. (error) A term that is a lone leaf, a bare [sigma_z] or a constant
    next to other terms, makes [group_by_diagonal] raise
    [AttributeError]: [count_bosons] returns [None] or a pair for a leaf,
    neither of which has [.values()]. *)
Theorem group_by_diagonal_leaf_term fuel e t :
  is_generic e = true -> decomposable e -> operators_square (all_factors e) ->
  t ∈ expand_terms e -> is_leaf t = true ->
  group_by_diagonal (S (S (S fuel))) e = Err AttributeError.
Proof.
  intros Hg Hd Hsq Ht Hl. rewrite group_by_diagonal_compound_unfold by (by destruct e).
  rewrite get_terms_and_factors_total_core by done. cbn [rbind fst snd].
  assert (Hleaf : forall t', is_leaf t' = true ->
            diagonal_key (S (S fuel)) (t', term_factors t') = Err AttributeError).
  { intros t' Hl'. unfold diagonal_key. cbn [fst].
    rewrite count_bosons_leaf by done. by destruct t'. }
  rewrite (mapR_Err_uniform _ _ AttributeError); [done| |].
  - intros [t' fs] Htf. apply elem_of_combine_map in Htf as [Ht' ->].
    destruct (is_leaf t') eqn:El; [right; by apply Hleaf|left].
    eexists. apply (diagonal_key_term fuel e t'); auto. by eapply operators_square_term.
  - exists (t, term_factors t). split; [|by apply Hleaf].
    clear -Ht. induction (expand_terms e) as [|x l IH]; [set_solver|].
    simpl. apply elem_of_cons in Ht as [->|Ht]; [by left|right; auto].
Qed.

(** C8. (functional) Spec: an expression whose terms are all diagonal is
    classified [{True: expr}], with no non-diagonal part. *)
Corollary group_by_diagonal_all_diagonal fuel e :
  is_generic e = true -> decomposable e ->
  (forall t, t ∈ expand_terms e -> is_leaf t = false) ->
  operators_square (all_factors e) -> expand_terms e <> [] ->
  (forall t, t ∈ expand_terms e -> term_is_diagonal (term_factors t) = true) ->
  exists d, group_by_diagonal (S (S (S fuel))) e = Ok d /\
    dget true d = Some (expand_terms e) /\ dget false d = None.
Proof.
  intros Hg Hd Hl Hsq Hne Hall.
  destruct (group_by_diagonal_buckets_core fuel e Hg Hd Hl Hsq) as (d & Ed & Hb & _).
  exists d. split_and!; [done| |].
  - rewrite Hb, filter_all_true; [by destruct (expand_terms e)|].
    intros t Ht. by apply Hall.
  - rewrite Hb, filter_all_false; [done|]. intros t Ht. by rewrite Hall.
Qed.

(** C9. (functional) Spec: a term with more creation than annihilation
    operators of some mode, or fewer, is non-diagonal whatever its
    finite factors. *)
Corollary group_by_diagonal_imbalanced fuel e t s :
  is_generic e = true -> decomposable e ->
  (forall t, t ∈ expand_terms e -> is_leaf t = false) ->
  operators_square (all_factors e) -> t ∈ expand_terms e ->
  boson_count s Creation (term_factors t) <> boson_count s Annihilation (term_factors t) ->
  exists d, group_by_diagonal (S (S (S fuel))) e = Ok d /\
    t ∈ dget_or [] false d /\ t ∉ dget_or [] true d.
Proof.
  intros Hg Hd Hl Hsq Ht Hs.
  destruct (group_by_diagonal_buckets_core fuel e Hg Hd Hl Hsq) as (d & Ed & Hb & _).
  assert (Hnd : term_is_diagonal (term_factors t) = false).
  { unfold term_is_diagonal. apply andb_false_iff. left.
    apply not_true_iff_false. rewrite bosons_balanced_spec. eauto. }
  exists d. unfold dget_or. rewrite !Hb, !default_nonempty. split_and!; [done| |].
  - by apply list_elem_of_filter.
  - rewrite list_elem_of_filter. intros [? _]. congruence.
Qed.
End GroupByDiagonalTheorems.

(** ** The theorems on examples *)
Module DiagonalExamples.
Import Fixtures.

(** Spec scenario C: [Dagger(a)*a*sigma_x] is balanced but [sigma_x] is
    off-diagonal, so the term is non-diagonal. *)
Example scenario_C :
  group_by_diagonal 3 (EMul [ad; a; sigma_x]) = Ok [(false, [EMul [ad; a; sigma_x]])].
Proof. reflexivity. Qed.

Lemma values_balanced_iff_witness :
  let d := [("a", [(Creation, 1); (Annihilation, 1)]); ("b", [(Creation, 2)])] in
  NoDup (dkeys d) /\
  (forallb balanced (dvalues d) = true <->
   forall s, count_of s Creation d = count_of s Annihilation d).
Proof.
  intros d. assert (Hnd : NoDup (dkeys d)) by (vm_compute; repeat constructor; set_solver).
  split; [exact Hnd|]. by apply values_balanced_iff.
Defined.

Lemma group_by_diagonal_buckets_witness :
  let e := EAdd [EMul [s1; ad; a; opA]; EMul [s2; opB]] in
  exists d, group_by_diagonal 3 e = Ok d /\
    (forall b, dget b d =
       nonempty (filter (fun t => term_is_diagonal (term_factors t) = b) (expand_terms e))) /\
    concat (dvalues d) ≡ₚ expand_terms e.
Proof.
  intros e. apply (group_by_diagonal_buckets 0 e).
  - reflexivity.
  - apply decomposable_b_sound. vm_compute. reflexivity.
  - intros t Ht. vm_compute in Ht. apply list_elem_of_In in Ht.
    destruct Ht as [<-|[<-|[]]]; reflexivity.
  - vm_compute. repeat constructor.
Defined.

(** [opB + s2*opB]: the lone [opB] term raises. *)
Lemma group_by_diagonal_leaf_term_witness :
  group_by_diagonal 3 (EAdd [opB; EMul [s2; opB]]) = Err AttributeError.
Proof.
  apply (group_by_diagonal_leaf_term 0 (EAdd [opB; EMul [s2; opB]]) opB).
  - reflexivity.
  - apply decomposable_b_sound. vm_compute. reflexivity.
  - vm_compute. repeat constructor.
  - vm_compute. left.
  - reflexivity.
Defined.

Lemma group_by_diagonal_all_diagonal_witness :
  let e := EAdd [EMul [s1; ad; a; sigma_z]; EMul [s2; opB]] in
  exists d, group_by_diagonal 3 e = Ok d /\
    dget true d = Some (expand_terms e) /\ dget false d = None.
Proof.
  intros e. apply (group_by_diagonal_all_diagonal 0 e).
  - reflexivity.
  - apply decomposable_b_sound. vm_compute. reflexivity.
  - intros t Ht. vm_compute in Ht. apply list_elem_of_In in Ht.
    destruct Ht as [<-|[<-|[]]]; reflexivity.
  - vm_compute. repeat constructor.
  - vm_compute. discriminate.
  - intros t Ht. vm_compute in Ht. apply list_elem_of_In in Ht.
    destruct Ht as [<-|[<-|[]]]; reflexivity.
Defined.

(** [g*a*sigma_z]: an annihilation operator alone, with a diagonal
    finite factor. *)
Lemma group_by_diagonal_imbalanced_witness :
  let e := EAdd [EMul [g; a; sigma_z]; EMul [s2; opB]] in
  exists d, group_by_diagonal 3 e = Ok d /\
    EMul [g; a; sigma_z] ∈ dget_or [] false d /\ EMul [g; a; sigma_z] ∉ dget_or [] true d.
Proof.
  intros e. apply (group_by_diagonal_imbalanced 0 e (EMul [g; a; sigma_z]) "a").
  - reflexivity.
  - apply decomposable_b_sound. vm_compute. reflexivity.
  - intros t Ht. vm_compute in Ht. apply list_elem_of_In in Ht.
    destruct Ht as [<-|[<-|[]]]; reflexivity.
  - vm_compute. repeat constructor.
  - vm_compute. left.
  - vm_compute. discriminate.
Defined.
End DiagonalExamples.
