(* ===== verification/Domain.v ===== *)
(** * Domain expansion

    [get_finite_identities] (lines 148-166) and [domain_expansion] (lines
    170-221) of [src/Modules/sympy/utils.py]: every finite operator
    becomes the Kronecker product, over an ordered list of subspaces, of
    its own matrix on its subspace and an identity on every other one; a
    boson operator becomes the product of the identities times itself; a
    compound expression is expanded factor by factor and term by term. *)

From Stdlib Require Import ZArith.
From stdpp Require Import base list strings decidable.
From S2P Require Import Prelude Expr Engine Matrix Decompose.
Import ListNotations.

(** The value of [domain_expansion]: a scalar left as it is, an explicit
    matrix, or the SymPy [Add] of [Mul]s the [Expr] implementation builds
    (the product of matrices is kept as the formal product SymPy makes of
    them). *)
Inductive DVal : Type :=
| DScalar (e : Expr)
| DMatrix (m : Matrix)
| DSum (terms : list (list DVal)).

Section Domain.
Context `{AlgebraEngine}.

(** One identity per subspace an operator of the expression acts on,
    keyed by the subspace; [dict.update] keeps the key's first position
    and the last value. *)
Fixpoint get_finite_identities (fuel : nat) (e : Expr) : result (dict string Matrix) :=
  match e with
  | EOp _ s d _ => Ok [(s, eye d)]
  | ENum _ | ESym _ _ | EBoson _ _ => Ok []
  | _ =>
      match fuel with
      | 0 => Err RecursionError
      | S fuel' =>
          p <- get_terms_and_factors fuel' e ;;
          ids <- mapR (get_finite_identities fuel') (concat p.2) ;;
          Ok (fold_left dupdate ids [])
      end
  end.

(** [identities=None] is the default: each implementation then computes
    the identities of its own argument. *)
Fixpoint domain_expansion (fuel : nat) (e : Expr) (subspaces : list string)
    (identities : option (dict string Matrix)) : result DVal :=
  match e with
  | ENum _ | ESym _ _ => Ok (DScalar e)
  | EBoson _ _ =>
      let ids := default [] identities in
      ms <- mapR (fun s => dindex s ids) subspaces ;;
      K <- kronecker_product ms ;;
      Ok (DMatrix (scale_matrix K e))
  | EOp _ sub d m =>
      let ids := default [(sub, eye d)] identities in
      ms <- mapR (fun s => if decide (s = sub) then Ok m else dindex s ids) subspaces ;;
      K <- kronecker_product ms ;;
      Ok (DMatrix K)
  | _ =>
      match fuel with
      | 0 => Err RecursionError
      | S fuel' =>
          ids <- match identities with
                 | Some ids => Ok ids
                 | None => get_finite_identities fuel' e
                 end ;;
          p <- get_terms_and_factors fuel' e ;;
          ts <- mapR (fun fs => mapR (fun f => domain_expansion fuel' f subspaces (Some ids)) fs) p.2 ;;
          Ok (DSum ts)
      end
  end.
End Domain.

(** ** Shapes of the expansion *)

(** Each listed subspace has an identity of its declared dimension. *)
Definition identities_fit (ids : dict string Matrix) (subs : list string) (dims : list nat) : Prop :=
  Forall2 (fun s d => exists M, dget s ids = Some M /\ is_mat d d M) subs dims.

(** Each operator's matrix has the dimension of its subspace. *)
Definition operators_fit (subs : list string) (dims : list nat) (fs : list Expr) : Prop :=
  Forall (fun f => match f with
                   | EOp _ s _ m => Forall2 (fun s' d' => s' = s -> is_mat d' d' m) subs dims
                   | _ => True end) fs.

(** The expansion of a leaf: a symbol or a number stays itself, an
    operator or a boson becomes a [D x D] matrix. *)
Definition leaf_expansion_shape (D : nat) (f : Expr) (v : DVal) : Prop :=
  match f with
  | ENum _ | ESym _ _ => v = DScalar f
  | _ => exists K, v = DMatrix K /\ is_mat D D K
  end.

(** The dimensions of the operators on subspace [s] in a factor list, in
    order. *)
Fixpoint subspace_dims (s : string) (fs : list Expr) : list nat :=
  match fs with
  | [] => []
  | EOp _ s' d _ :: fs' => if decide (s = s') then d :: subspace_dims s fs' else subspace_dims s fs'
  | _ :: fs' => subspace_dims s fs'
  end.

(** What [get_finite_identities] returns on a leaf (lines 148-155). *)
Definition leaf_identities (f : Expr) : dict string Matrix :=
  match f with EOp _ s d _ => [(s, eye d)] | _ => [] end.

Lemma dget_fold_identities s fs d0 :
  dget s (fold_left dupdate (map leaf_identities fs) d0)
  = match list.last (subspace_dims s fs) with Some d => Some (eye d) | None => dget s d0 end.
Proof.
  revert d0. induction fs as [|f fs IH]; intros d0; [done|]. cbn [map fold_left]. rewrite IH.
  destruct f as [| |n s' d m| | | | |]; cbn [subspace_dims leaf_identities]; try done.
  unfold dupdate. cbn [fold_left fst snd].
  destruct (decide (s = s')) as [<-|Hne].
  - rewrite last_cons, dget_dset_eq. by destruct (list.last (subspace_dims s fs)).
  - by rewrite dget_dset_ne by congruence.
Qed.

Lemma identity_matrices subs dims ids :
  identities_fit ids subs dims ->
  exists ms, mapR (fun s => dindex s ids) subs = Ok ms /\ Forall2 (fun M d => is_mat d d M) ms dims.
Proof.
  intros Hids. apply mapR_Forall2_exists. eapply Forall2_impl; [|exact Hids].
  intros s d (M & HM & ?). exists M. unfold dindex. by rewrite HM.
Qed.

Lemma operator_matrices s m subs dims ids :
  identities_fit ids subs dims ->
  Forall2 (fun s' d' => s' = s -> is_mat d' d' m) subs dims ->
  exists ms, mapR (fun s' => if decide (s' = s) then Ok m else dindex s' ids) subs = Ok ms /\
             Forall2 (fun M d => is_mat d d M) ms dims.
Proof.
  intros Hids Hop. apply mapR_Forall2_exists. revert Hop.
  induction Hids as [|s' d' subs dims (M & HM & HMd) _ IH]; intros Hop; [constructor|].
  inversion Hop as [|? ? ? ? Hs Hop']; subst. constructor; [|by apply IH].
  destruct (decide (s' = s)) as [->|Hne]; [exists m; auto|].
  exists M. unfold dindex. by rewrite HM.
Qed.

Section DomainTheorems.
Context `{AlgebraEngine}.

Lemma domain_expansion_leaf_shape fuel f subs dims ids :
  is_leaf f = true -> identities_fit ids subs dims -> dims <> [] ->
  operators_fit subs dims [f] ->
  exists v, domain_expansion fuel f subs (Some ids) = Ok v /\
            leaf_expansion_shape (foldr Nat.mul 1 dims) f v.
Proof.
  intros Hl Hids Hd Hops.
  destruct f as [z|x o|n s d m|s k| | | |]; try discriminate; destruct fuel;
    cbn [domain_expansion default id].
  1-4: by eexists.
  1,2: inversion Hops as [|? ? Hop _]; subst; cbn in Hop;
       destruct (operator_matrices s m subs dims ids Hids Hop) as (ms & -> & Hms);
       cbn [rbind]; destruct (kronecker_product_is_mat ms dims Hms Hd) as (K & -> & HK);
       eexists; split; [reflexivity|]; by exists K.
  all: destruct (identity_matrices subs dims ids Hids) as (ms & -> & Hms);
       cbn [rbind]; destruct (kronecker_product_is_mat ms dims Hms Hd) as (K & -> & HK);
       eexists; split; [reflexivity|]; eexists; split; [reflexivity|by apply scale_matrix_is_mat].
Qed.

Lemma domain_expansion_generic_unfold fuel e subs ids :
  is_leaf e = false ->
  domain_expansion (S fuel) e subs (Some ids) =
    (p <- get_terms_and_factors fuel e ;;
     ts <- mapR (fun fs => mapR (fun f => domain_expansion fuel f subs (Some ids)) fs) p.2 ;;
     Ok (DSum ts)).
Proof. destruct e; try discriminate; reflexivity. Qed.

Context `{!EngineLaws}.

(** C5. (bounds) Over subspaces of dimensions [d1, ..., dn] with their
    identities, [domain_expansion] expands every factor of every term:
    a symbol or number stays a scalar, and every operator and boson
    becomes a square matrix of dimension [d1 * ... * dn]. *)
Theorem domain_expansion_square fuel e subs dims ids :
  is_generic e = true -> decomposable e -> dims <> [] ->
  identities_fit ids subs dims -> operators_fit subs dims (all_factors e) ->
  exists ts, domain_expansion (S (S fuel)) e subs (Some ids) = Ok (DSum ts) /\
    Forall2 (Forall2 (leaf_expansion_shape (foldr Nat.mul 1 dims)))
      (map term_factors (expand_terms e)) ts.
Proof.
  intros Hg Hd Hdims Hids Hops. rewrite domain_expansion_generic_unfold by (by destruct e).
  rewrite get_terms_and_factors_total_core by done. cbn [rbind fst snd].
  pose proof (all_factors_leaves e Hd) as Hleaves.
  unfold operators_fit in Hops. rewrite Forall_forall in Hops, Hleaves.
  edestruct (mapR_exists (fun fs => mapR (fun f => domain_expansion (S fuel) f subs (Some ids)) fs)
               (Forall2 (leaf_expansion_shape (foldr Nat.mul 1 dims)))
               (map term_factors (expand_terms e))) as (ts & Hts1 & Hts);
    [|rewrite Hts1; exists ts; split; [reflexivity|exact Hts]].
  intros fs Hfs. cbn beta.
  assert (Hin : forall f, f ∈ fs -> f ∈ all_factors e).
  { intros f Hf. unfold all_factors. apply list_elem_of_In, in_concat.
    exists fs. split; by apply list_elem_of_In. }
  edestruct (mapR_exists (fun f => domain_expansion (S fuel) f subs (Some ids))
               (leaf_expansion_shape (foldr Nat.mul 1 dims)) fs) as (vs & -> & Hvs).
  - intros f Hf. apply domain_expansion_leaf_shape; auto.
    + apply Hleaves, list_elem_of_In, Hin, Hf.
    + repeat constructor. apply Hops, list_elem_of_In, Hin, Hf.
  - by exists vs.
Qed.
Lemma get_finite_identities_generic_unfold fuel e :
  is_leaf e = false ->
  get_finite_identities (S fuel) e =
    (p <- get_terms_and_factors fuel e ;;
     ids <- mapR (get_finite_identities fuel) (concat p.2) ;;
     Ok (fold_left dupdate ids [])).
Proof. destruct e; try discriminate; reflexivity. Qed.

Lemma get_finite_identities_leaves fuel fs :
  Forall (fun f => is_leaf f = true) fs ->
  mapR (get_finite_identities fuel) fs = Ok (map leaf_identities fs).
Proof.
  intros Hfs. apply mapR_Ok_map. intros f Hf. rewrite Forall_forall in Hfs.
  assert (Hl : is_leaf f = true) by (apply Hfs, list_elem_of_In, Hf). by destruct f, fuel.
Qed.

(** C13. (functional) [get_finite_identities] maps each subspace an
    operator of the expression acts on, once, to the identity of the
    dimension of the LAST operator on it: operators of one subspace with
    different dimensions are not reported, the later one silently
    wins. *)
Theorem get_finite_identities_last fuel e :
  is_generic e = true -> decomposable e ->
  exists ids, get_finite_identities (S (S fuel)) e = Ok ids /\ NoDup (dkeys ids) /\
    forall s, dget s ids = eye <$> list.last (subspace_dims s (all_factors e)).
Proof.
  intros Hg Hd. rewrite get_finite_identities_generic_unfold by (by destruct e).
  rewrite get_terms_and_factors_total_core by done. cbn [rbind fst snd]. fold (all_factors e).
  rewrite get_finite_identities_leaves by (by apply all_factors_leaves). cbn [rbind].
  eexists; split_and!; [reflexivity|apply fold_dupdate_NoDup, NoDup_nil_2|].
  intros s. rewrite dget_fold_identities. by destruct (list.last _).
Qed.
End DomainTheorems.

(** C15. (error) With the default [identities=None], a lone operator only has
    the identity of its own subspace: any other listed subspace raises
    [KeyError] (spec scenario A expects [kron(A, eye(2))]). *)
Theorem domain_expansion_default_identities `{AlgebraEngine} fuel n s d m subs s' :
  s' ∈ subs -> s' <> s -> domain_expansion fuel (EOp n s d m) subs None = Err KeyError.
Proof.
  intros Hin Hne. assert (Hkey : forall x, x <> s -> dindex x [(s, eye d)] = Err KeyError).
  { intros x Hx. unfold dindex. simpl. by rewrite decide_False. }
  destruct fuel; cbn [domain_expansion default];
    (rewrite (mapR_Err_uniform _ _ KeyError); [done| |]).
  all: try (intros x _; destruct (decide (x = s)); [left; eauto|right; by apply Hkey]).
  all: exists s'; split; [done|]; rewrite decide_False by done; by apply Hkey.
Qed.

(** C18. (error) An operator whose subspace is not listed is expanded as the
    identity: its own matrix is never used, and no error is raised. *)
Theorem domain_expansion_unlisted `{AlgebraEngine} fuel n s d m m' subs ids :
  s ∉ subs ->
  domain_expansion fuel (EOp n s d m) subs (Some ids)
  = domain_expansion fuel (EOp n s d m') subs (Some ids).
Proof.
  intros Hs. destruct fuel; cbn [domain_expansion default id];
    (rewrite (mapR_ext _ (fun s' => if decide (s' = s) then Ok m' else dindex s' ids)); [done|]);
    intros x Hx; (rewrite !decide_False; [done|..]); intros ->; contradiction.
Qed.

(** ** The theorems on examples *)
Module DomainExamples.
Import Fixtures.

Definition ids_XY : dict string Matrix := [("X", eye 2); ("Y", eye 2)].

(** Spec scenario A, with the identities passed explicitly: the
    expansions are [kron(A, eye(2))] and [kron(eye(2), B)]. *)
Example scenario_A :
  domain_expansion 1 opA ["X"; "Y"] (Some ids_XY) = Ok (DMatrix (kron2 sx_mat (eye 2))) /\
  domain_expansion 1 opB ["X"; "Y"] (Some ids_XY) = Ok (DMatrix (kron2 (eye 2) id2_mat)).
Proof. split; reflexivity. Qed.

Lemma domain_expansion_square_witness :
  let e := EAdd [EMul [s1; opA]; EMul [s2; ad; opB]] in
  exists ts, domain_expansion 2 e ["X"; "Y"] (Some ids_XY) = Ok (DSum ts) /\
    Forall2 (Forall2 (leaf_expansion_shape (foldr Nat.mul 1 [2; 2])))
      (map term_factors (expand_terms e)) ts.
Proof.
  intros e. apply (domain_expansion_square 0 e ["X"; "Y"] [2; 2] ids_XY).
  - reflexivity.
  - apply decomposable_b_sound. vm_compute. reflexivity.
  - discriminate.
  - repeat constructor; eexists; (split; [reflexivity|apply eye_is_mat]).
  - unfold operators_fit. change (all_factors e) with [s1; opA; s2; ad; opB].
    repeat constructor.
Defined.

Lemma domain_expansion_default_identities_witness :
  domain_expansion 1 opA ["X"; "Y"] None = Err KeyError.
Proof.
  apply (domain_expansion_default_identities 1 "opA" "X" 2 sx_mat ["X"; "Y"] "Y").
  - vm_compute. right. left.
  - discriminate.
Defined.

Lemma domain_expansion_unlisted_witness :
  domain_expansion 1 opA ["Y"] (Some ids_XY)
  = domain_expansion 1 (EOp "opA" "X" 2 sz_mat) ["Y"] (Some ids_XY).
Proof.
  apply (domain_expansion_unlisted 1 "opA" "X" 2 sx_mat sz_mat ["Y"] ids_XY).
  vm_compute. intros Hin. inversion Hin as [|? ? ? Hin']; inversion Hin'.
Defined.
(** Two operators on [X] of dimensions 2 and 3: the identity kept is
    [eye(3)]. *)
Lemma get_finite_identities_last_witness :
  let e := EAdd [EMul [s1; opA]; EMul [s2; EOp "opC" "X" 3 (eye 3)]] in
  exists ids, get_finite_identities 2 e = Ok ids /\ NoDup (dkeys ids) /\
    forall s, dget s ids = eye <$> list.last (subspace_dims s (all_factors e)).
Proof.
  intros e. apply (get_finite_identities_last 0 e);
    [reflexivity|apply decomposable_b_sound; vm_compute; reflexivity].
Defined.
End DomainExamples.
