(* ===== verification/Ansatz.v ===== *)
(** * The ansatz helpers

    The functions of [src/Modules/sympy/utils.py] after the classifiers
    (lines 223-295), which build and handle the generator of the
    transformation:
    - [nested_commutator] (lines 223-229), the [k]-fold commutator
      [[...[[A, B], B]..., B]] of the Baker-Campbell-Hausdorff series;
    - [S] (lines 251-257), the ansatz operator: a [dim x dim] matrix of
      fresh symbols, named [S_op] here because [S] is the successor of
      [nat];
    - [expand_commutator] (lines 259-264), SymPy's commutator expansion
      iterated to a fixed point;
    - [group_by_infinite_operators] (lines 231-248), [get_finite_operators]
      (lines 266-272) and [get_matrix] (lines 275-295). *)

From Stdlib Require Import ZArith.
From stdpp Require Import base list strings decidable pretty.
From S2P Require Import Prelude Expr Engine Matrix Decompose Classify Domain.
Import ListNotations.

(** ** [nested_commutator]

    [k] is a Python int.  Each call for [k >= 2] makes one recursive call
    for [k - 1]; a negative [k] never reaches the base cases and recurses
    until the interpreter's limit, which [fuel] stands for. *)
Fixpoint nested_commutator (fuel : nat) (A B : Expr) (k : Z) : result Expr :=
  match fuel with
  | 0 => Err RecursionError
  | S fuel' =>
      if decide (k = 0%Z) then Ok A
      else if decide (k = 1%Z) then Ok (EComm A B)
      else c <- nested_commutator fuel' A B (k - 1) ;; Ok (EComm c B)
  end.

(** ** [S]: the ansatz operator *)

(** SymPy's [Matrix.reshape(r, c)] of a flat list: rows of [c] entries
    in order; a list whose length is not [r * c] raises [ValueError]. *)
Fixpoint chunks {A} (c rows : nat) (l : list A) : list (list A) :=
  match rows with
  | 0 => []
  | S r => take c l :: chunks c r (drop c l)
  end.

Definition reshape (r c : nat) (l : list Expr) : result Matrix :=
  if decide (length l = r * c) then Ok (chunks c r l) else Err ValueError.

(** [[RDsymbol(name + f"_{i}", order=order) for i in range(dim**2)]] *)
Definition symbols_list (dim : nat) (name : string) (order : nat) : list Expr :=
  (fun i => ESym (name +:+ "_" +:+ pretty i) order) <$> seq 0 (dim * dim).

(** [S(dim, name, order)]: the operator named [name] on the subspace
    ["finite"] whose matrix is the symbols laid out row by row.  The
    function returns the operator alone, not its unknowns. *)
Definition S_op (dim : nat) (name : string) (order : nat) : result Expr :=
  M <- reshape dim dim (symbols_list dim name order) ;;
  Ok (EOp name "finite" dim M).

(** ** Lemmas on [chunks] *)

Lemma length_chunks {A} c r (l : list A) : length (chunks c r l) = r.
Proof. revert l. induction r as [|r IH]; intros l; simpl; [done|by rewrite IH]. Qed.

Lemma chunks_is_rows {A} c r (l : list A) :
  length l = r * c -> Forall (fun row => length row = c) (chunks c r l).
Proof.
  revert l. induction r as [|r IH]; intros l Hl; simpl; constructor.
  - rewrite length_take. lia.
  - apply IH. rewrite length_drop. lia.
Qed.

(** Entry [(i, j)] of the reshaped list is entry [i * c + j] of the list. *)
Lemma lookup_chunks {A} c r (l : list A) i j :
  j < c -> chunks c r l !! i ≫= (.!! j) = if decide (i < r) then l !! (i * c + j) else None.
Proof.
  intros Hj. revert l i. induction r as [|r IH]; intros l i; simpl.
  - done.
  - destruct i as [|i]; simpl.
    + by rewrite lookup_take_lt by lia.
    + rewrite IH, lookup_drop. do 2 case_decide; try lia; [|done].
      f_equal. lia.
Qed.

Lemma symbols_list_length dim name order : length (symbols_list dim name order) = dim * dim.
Proof. unfold symbols_list. by rewrite length_fmap, length_seq. Qed.

#[export] Instance symbol_name_inj name order :
  Inj (=) (=) (fun i : nat => ESym (name +:+ "_" +:+ pretty i) order).
Proof.
  intros i j Hij. injection Hij as Hij. apply (inj (String.append name)) in Hij.
  injection Hij as Hij. by apply (inj pretty).
Qed.

(** ** Theorems on [nested_commutator] and [S] *)

(** C20. (termination) [nested_commutator(A, B, k)] returns the [k]-fold
    commutator [[...[A, B]..., B]] exactly when [k >= 0] and the
    recursion depth [max 1 k] fits in the interpreter's limit; for a
    negative [k] it raises [RecursionError] whatever the limit. *)
Theorem nested_commutator_closed fuel A B k :
  nested_commutator fuel A B k =
  if decide ((0 <= k)%Z /\ max 1 (Z.to_nat k) <= fuel)
  then Ok (Nat.iter (Z.to_nat k) (fun X => EComm X B) A)
  else Err RecursionError.
Proof.
  revert k. induction fuel as [|fuel IH]; intros k; cbn [nested_commutator].
  - rewrite decide_False; [done|lia].
  - destruct (decide (k = 0%Z)) as [->|H0]; [by rewrite decide_True by lia|].
    destruct (decide (k = 1%Z)) as [->|H1]; [by rewrite decide_True by lia|].
    rewrite IH. destruct (decide (_ /\ _)) as [Hk|Hk]; cbn [rbind].
    + rewrite decide_True by lia. by replace (Z.to_nat k) with (S (Z.to_nat (k - 1))) by lia.
    + by rewrite decide_False by lia.
Qed.

(** C21. (functional) [S(dim, name, order)] never fails: it is the operator
    [name] on the subspace ["finite"] of dimension [dim], whose matrix is
    [dim x dim] with entry [(i, j)] the symbol [name_{i*dim+j}] of the
    given order. *)
Theorem S_op_matrix dim name order :
  exists M, S_op dim name order = Ok (EOp name "finite" dim M) /\ is_mat dim dim M /\
    forall i j, i < dim -> j < dim ->
      M !! i ≫= (.!! j) = Some (ESym (name +:+ "_" +:+ pretty (i * dim + j)) order).
Proof.
  unfold S_op, reshape. rewrite decide_True by apply symbols_list_length. cbn [rbind].
  eexists; split_and!; [reflexivity| |].
  - split; [apply length_chunks|apply chunks_is_rows, symbols_list_length].
  - intros i j Hi Hj. rewrite lookup_chunks, decide_True by done.
    unfold symbols_list. rewrite list_lookup_fmap, lookup_seq_lt by nia. done.
Qed.

(** The [dim * dim] unknowns of an ansatz operator are
    pairwise distinct symbols, so that the equation solver treats them as
    independent unknowns. *)
Theorem symbols_list_NoDup dim name order : NoDup (symbols_list dim name order).
Proof. unfold symbols_list. apply NoDup_fmap_2; [apply symbol_name_inj|apply NoDup_seq]. Qed.

(** ** [group_by_infinite_operators] *)

(** [result_infinite_term] and [result_finite_term]: the product, from
    [1], of a term's boson factors and of its other factors, in order. *)
Definition boson_part (fs : list Expr) : Expr :=
  expr_prod (filter (fun f => is_boson f = true) fs).

Definition finite_part (fs : list Expr) : Expr :=
  expr_prod (filter (fun f => is_boson f = false) fs).

(** A term as the summands it adds to a SymPy sum: [0] adds none. *)
Definition summand (t : Expr) : list Expr :=
  if decide (t = ENum 0) then [] else [t].

Section GroupByInfiniteOperators.
Context `{AlgebraEngine}.

(** The finite terms stay under the key [1]; the infinite ones, taken
    again as one sum and decomposed, are grouped by their boson factors,
    each contributing its finite factors.  A leaf argument makes
    [group_by_infinite] return a bool, which has no [.get]; with no
    infinite term, [get(True, 0)] is [0], whose single factor [0] adds
    nothing under the key [1]. *)
Definition group_by_infinite_operators (fuel : nat) (e : Expr)
    : result (dict Expr (list Expr)) :=
  r <- group_by_infinite fuel e ;;
  match r with
  | InfBool _ => Err AttributeError
  | InfDict infinit_dict =>
      let result_dict := [(ENum 1, dget_or [] false infinit_dict)] in
      p <- get_terms_and_factors fuel (expr_sum (dget_or [] true infinit_dict)) ;;
      Ok (fold_left (fun d kv => dict_extend kv.1 kv.2 d)
            (map (fun fs => (boson_part fs, summand (finite_part fs))) p.2) result_dict)
  end.
End GroupByInfiniteOperators.

(** The infinite terms of an expression, in order. *)
Definition inf_terms `{AlgebraEngine} (e : Expr) : list Expr :=
  filter (fun t => term_infinite t = true) (expand_terms e).

Lemma expr_prod_one l : expr_prod l = ENum 1 -> l = [] \/ l = [ENum 1].
Proof. destruct l as [|x [|y l]]; simpl; intros E; [by left|by right; subst|discriminate]. Qed.

Section GroupByInfiniteOperatorsTheorems.
Context `{AlgebraEngine} `{!EngineLaws}.

Lemma term_factors_leaf t : is_leaf t = true -> term_factors t = [t].
Proof.
  intros Hl. unfold term_factors. rewrite factors_non_mul by (by destruct t).
  by destruct t.
Qed.

(** Every term of a decomposable expression, leaf or not, is decomposed
    into itself and its factors. *)
Lemma get_terms_and_factors_any_term fuel e t :
  decomposable e -> t ∈ expand_terms e ->
  get_terms_and_factors (S fuel) t = Ok ([t], [term_factors t]).
Proof.
  intros Hd Ht. destruct (is_leaf t) eqn:El.
  - rewrite term_factors_leaf by done. by destruct t.
  - by apply (get_terms_and_factors_term fuel e t).
Qed.

(** A sum of terms of a decomposable expression decomposes into these
    terms when the engine gives them back. *)
Lemma get_terms_and_factors_sum fuel e ts :
  decomposable e -> ts ⊆ expand_terms e -> ts <> [] ->
  (2 <= length ts -> expand_terms (EAdd ts) = ts) ->
  get_terms_and_factors (S (S fuel)) (expr_sum ts) = Ok (ts, map term_factors ts).
Proof.
  intros Hd Hsub Hne Hre. destruct ts as [|t [|t' ts]]; [done| |].
  - apply (get_terms_and_factors_any_term _ e); [done|]. apply Hsub. left.
  - cbn [expr_sum]. rewrite get_terms_and_factors_total_core; [|done|].
    + by rewrite Hre by (simpl; lia).
    + intros t0 f Ht0 Hf. rewrite Hre in Ht0 by (simpl; lia).
      eapply Hd; [apply Hsub, Ht0|exact Hf].
Qed.

Lemma boson_part_infinite t : term_infinite t = true -> boson_part (term_factors t) <> ENum 1.
Proof.
  unfold term_infinite, boson_part. intros Hb E.
  apply existsb_exists in Hb as (f & Hf & Hbf).
  assert (Hin : f ∈ filter (fun f => is_boson f = true) (term_factors t)).
  { apply list_elem_of_filter. split; [done|by apply list_elem_of_In]. }
  destruct (expr_prod_one _ E) as [E'|E']; rewrite E' in Hin; [inversion Hin|].
  apply list_elem_of_singleton in Hin. by subst.
Qed.

Lemma dget_result_dict k (fin : list Expr) : k <> ENum 1 -> dget k [(ENum 1, fin)] = None.
Proof. intros Hk. simpl. by rewrite decide_False. Qed.

(** C23. (functional) [group_by_infinite_operators] keeps the finite terms
    under the key [1] and groups the infinite terms by their product of
    boson factors, each contributing the product of its other factors.
    The hypothesis is what the engine must do for the code to work: give
    back the infinite terms when their sum is expanded again (no like
    terms left to collect). *)
Theorem group_by_infinite_operators_groups fuel e :
  is_generic e = true -> decomposable e ->
  (2 <= length (inf_terms e) -> expand_terms (EAdd (inf_terms e)) = inf_terms e) ->
  exists d, group_by_infinite_operators (S (S fuel)) e = Ok d /\
    dget (ENum 1) d = Some (filter (fun t => term_infinite t = false) (expand_terms e)) /\
    forall k, k <> ENum 1 ->
      dget k d = (fun fss => concat (map (fun fs => summand (finite_part fs)) fss)) <$>
                 nonempty (filter (fun fs => boson_part fs = k) (map term_factors (inf_terms e))).
Proof.
  intros Hg Hd Hre. unfold group_by_infinite_operators.
  rewrite group_by_infinite_dict by done. cbn [rbind].
  unfold dget_or. rewrite !dget_group_pairs, !bucket_combine_map, !default_nonempty.
  fold (inf_terms e). set (fin := filter (fun t => term_infinite t = false) (expand_terms e)).
  destruct (decide (inf_terms e = [])) as [Hnil|Hnil].
  - rewrite Hnil. cbn [expr_sum get_terms_and_factors rbind snd].
    eexists; split_and!; [reflexivity| |].
    + rewrite dget_fold_extend. simpl. by rewrite app_nil_r.
    + intros k Hk. rewrite dget_fold_extend, dget_result_dict by done.
      unfold bucket. cbn [map]. change (boson_part [ENum 0]) with (ENum 1).
      rewrite filter_cons, decide_False by done. done.
  - rewrite (get_terms_and_factors_sum _ e) by (done || apply list_subseteq_filter). cbn [rbind].
    eexists; split_and!; [reflexivity| |].
    + rewrite dget_fold_extend, bucket_map_pair. cbn [dget_or dget].
      rewrite decide_True by done.
      cbn [snd]. rewrite filter_all_false; [by rewrite app_nil_r|].
      intros fs Hfs Hk. apply list_elem_of_fmap in Hfs as (t & -> & Ht).
      apply list_elem_of_filter in Ht as [Ht _]. by apply (boson_part_infinite t).
    + intros k Hk. rewrite dget_fold_extend, dget_result_dict, bucket_map_pair by done.
      cbn [snd]. unfold dget_or. rewrite dget_result_dict by done. generalize (filter (fun x => boson_part x = k) (map term_factors (inf_terms e))). by intros [|? ?].
Qed.
End GroupByInfiniteOperatorsTheorems.

(** ** [expand_commutator] *)

Section ExpandCommutator.
(** [expr.expand(commutator=True)], SymPy's expansion of commutators by
    linearity and the Leibniz rule, is a parameter. *)
Context (expand : Expr -> Expr).

(** The [while] loop of lines 261-263 on its two variables: [fuel]
    bounds the number of tests of its condition, and [None] is a loop
    still running when the fuel is spent (Python does not stop it). *)
Fixpoint expand_commutator_loop (fuel : nat) (expr expr_expanded : Expr) : option Expr :=
  match fuel with
  | 0 => None
  | S fuel' =>
      if decide (expr_expanded = expr) then Some expr_expanded
      else expand_commutator_loop fuel' expr_expanded (expand expr_expanded)
  end.

Definition expand_commutator (fuel : nat) (expr : Expr) : option Expr :=
  expand_commutator_loop fuel expr (expand expr).

Lemma expand_commutator_loop_sound fuel x r :
  expand_commutator_loop fuel x (expand x) = Some r ->
  expand r = r /\ exists n, r = Nat.iter n expand x.
Proof.
  revert x. induction fuel as [|fuel IH]; intros x; simpl; [done|].
  case_decide as Hfix.
  - intros [= <-]. split; [by rewrite !Hfix|]. by exists 1.
  - intros Hr. destruct (IH _ Hr) as [Hr' [n ->]]. split; [done|].
    exists (S n). by rewrite Nat.iter_succ_r.
Qed.

Lemma expand_commutator_loop_reaches fuel x n :
  expand (Nat.iter n expand x) = Nat.iter n expand x -> n < fuel ->
  exists r, expand_commutator_loop fuel x (expand x) = Some r /\ expand r = r.
Proof.
  revert x fuel. induction n as [|n IH]; intros x fuel Hfix Hn;
    (destruct fuel as [|fuel]; [lia|]); simpl in *.
  - rewrite decide_True by done. exists (expand x). by rewrite !Hfix.
  - case_decide as Hx; [exists (expand x); split; [done|by rewrite !Hx]|].
    apply IH; [by rewrite <-Nat.iter_succ_r|lia].
Qed.

(** C24. (safety) When [expand_commutator] returns, its result is a fixed
    point of the expansion reached by iterating it from the argument. *)
Theorem expand_commutator_fixed_point fuel e r :
  expand_commutator fuel e = Some r ->
  expand r = r /\ exists n, r = Nat.iter n expand e.
Proof. apply expand_commutator_loop_sound. Qed.

(** C25. (liveness) [expand_commutator] returns, given enough iterations,
    exactly when iterating the expansion from the argument reaches a
    fixed point; otherwise the loop runs forever. *)
Theorem expand_commutator_terminates e :
  (exists fuel r, expand_commutator fuel e = Some r)
  <-> exists n, expand (Nat.iter n expand e) = Nat.iter n expand e.
Proof.
  split.
  - intros (fuel & r & Hr). destruct (expand_commutator_loop_sound fuel e r Hr) as [Hfix [n ->]].
    by exists n.
  - intros [n Hn]. destruct (expand_commutator_loop_reaches (S n) e n Hn) as (r & Hr & _); [lia|].
    by exists (S n), r.
Qed.
End ExpandCommutator.

(** ** The theorems on examples *)
Module AnsatzExamples.
Import Fixtures.

(** The generator of [src/pysw/solver.py] at order 1 for a spin coupled
    to a boson: two terms share the boson factor [a†]. *)
Definition V1 : Expr := EAdd [EMul [g; ad; opA]; EMul [s1; opB]; EMul [s2; ad; sigma_z]].

Example group_by_infinite_operators_V1 :
  group_by_infinite_operators 2 V1
  = Ok [(ENum 1, [EMul [s1; opB]]); (ad, [EMul [g; opA]; EMul [s2; sigma_z]])].
Proof. vm_compute. reflexivity. Qed.

Lemma group_by_infinite_operators_groups_witness :
  exists d, group_by_infinite_operators 2 V1 = Ok d /\
    dget (ENum 1) d = Some (filter (fun t => term_infinite t = false) (expand_terms V1)) /\
    forall k, k <> ENum 1 ->
      dget k d = (fun fss => concat (map (fun fs => summand (finite_part fs)) fss)) <$>
                 nonempty (filter (fun fs => boson_part fs = k) (map term_factors (inf_terms V1))).
Proof.
  apply (group_by_infinite_operators_groups 0 V1).
  - reflexivity.
  - apply decomposable_b_sound. vm_compute. reflexivity.
  - intros _. vm_compute. reflexivity.
Defined.
(** A one-step linearity rule [[x + y, b] = [x, b] + [y, b]] as the
    expansion. *)
Definition expand_once (e : Expr) : Expr :=
  match e with
  | EComm (EAdd [x; y]) b => EAdd [EComm x b; EComm y b]
  | _ => e
  end.

Lemma expand_commutator_fixed_point_witness :
  expand_once (EAdd [EComm opA sigma_z; EComm opB sigma_z])
    = EAdd [EComm opA sigma_z; EComm opB sigma_z] /\
  exists n, EAdd [EComm opA sigma_z; EComm opB sigma_z]
            = Nat.iter n expand_once (EComm (EAdd [opA; opB]) sigma_z).
Proof. apply (expand_commutator_fixed_point expand_once 3). vm_compute. reflexivity. Defined.

End AnsatzExamples.
