(* ===== verification/FiniteOperators.v ===== *)
(** * Finite operators and their matrices

    [get_finite_operators] (lines 266-272) and [get_matrix] (lines
    275-295) of [src/Modules/sympy/utils.py]: the first puts a list of
    operators on one subspace ["finite"], each with the Kronecker product
    of its matrix and the identities of the other subspaces; the second
    multiplies the matrices and scalars of the factors of each term, as
    Python and SymPy do ([ShapeError] on sizes that do not fit), and
    hands the products to SymPy's [Add]. *)

From Stdlib Require Import ZArith.
From stdpp Require Import base list strings decidable pretty.
From S2P Require Import Prelude Expr Engine Matrix Decompose Classify Domain Ansatz.
Import ListNotations.

(** ** [get_finite_operators] *)

(** [RDOperator(names[i], subspace=subspaces[i], dim=dims[i],
    matrix=matrices[i])], which raises [IndexError] when one of the lists
    is shorter than [names]. *)
Definition operator_at (names subspaces : list string) (dims : list nat)
    (matrices : list Matrix) (i : nat) : result Expr :=
  n <- py_index names i ;;
  s <- py_index subspaces i ;;
  d <- py_index dims i ;;
  m <- py_index matrices i ;;
  Ok (EOp n s d m).

(** The Kronecker product of the list [[identities[symbols(subspace)] if
    symbols(subspace) != op.subspace else op.matrix for subspace in
    subspaces]]: the list [subspaces] is walked as given, duplicates
    included. *)
Definition expand_operator (identities : dict string Matrix) (subspaces : list string)
    (op : Expr) : result Matrix :=
  match op with
  | EOp _ s _ m =>
      ms <- mapR (fun s' => if decide (s' = s) then Ok m else dindex s' identities) subspaces ;;
      kronecker_product ms
  | _ => Err AttributeError
  end.

Section GetFiniteOperators.
Context `{AlgebraEngine}.

(** The operators, the identities of their sum, the total dimension
    [Mul] of [dict(zip(subspaces, dims)).values()] (one factor per distinct
    subspace, its last dimension), and the operators again on the
    subspace ["finite"] of that dimension with their expanded matrices. *)
Definition get_finite_operators (fuel : nat) (names subspaces : list string)
    (dims : list nat) (matrices : list Matrix) : result (list Expr) :=
  operators <- mapR (operator_at names subspaces dims matrices) (seq 0 (length names)) ;;
  identities <- get_finite_identities fuel (expr_sum operators) ;;
  let dim := foldr Nat.mul 1 (dvalues (dupdate [] (combine subspaces dims))) in
  expanded_operators <- mapR (expand_operator identities subspaces) operators ;;
  Ok (map (fun ne => EOp ne.1 "finite" dim ne.2) (combine names expanded_operators)).
End GetFiniteOperators.

(** The operators the first comprehension builds from lists of one
    length. *)
Fixpoint operators_of (names subspaces : list string) (dims : list nat)
    (matrices : list Matrix) : list Expr :=
  match names, subspaces, dims, matrices with
  | n :: names', s :: subspaces', d :: dims', m :: matrices' =>
      EOp n s d m :: operators_of names' subspaces' dims' matrices'
  | _, _, _, _ => []
  end.

Lemma operator_at_operators_of names subspaces dims matrices :
  length subspaces = length names -> length dims = length names ->
  length matrices = length names ->
  mapR (operator_at names subspaces dims matrices) (seq 0 (length names))
  = Ok (operators_of names subspaces dims matrices).
Proof.
  revert subspaces dims matrices.
  induction names as [|n names IH]; intros [|s subs] [|d dims] [|m mats] Hs Hd Hm;
    simpl in *; try (done || lia).
  rewrite <-seq_shift, mapR_map. cbn [mapR].
  rewrite (mapR_ext _ (operator_at names subs dims mats)), IH by (done || lia). done.
Qed.

Lemma operators_of_subspace names subspaces dims matrices n s d m :
  EOp n s d m ∈ operators_of names subspaces dims matrices -> s ∈ subspaces.
Proof.
  revert subspaces dims matrices.
  induction names as [|n' names IH]; intros [|s' subs] [|d' dims] [|m' mats]; simpl;
    try (intros Hin; inversion Hin; fail).
  rewrite elem_of_cons. intros [Heq|Hin]; [injection Heq as -> -> -> ->; left|right; by eapply IH].
Qed.

Lemma operators_of_leaves names subspaces dims matrices :
  Forall (fun x => is_leaf x = true) (operators_of names subspaces dims matrices).
Proof.
  revert subspaces dims matrices.
  induction names; intros [|??] [|??] [|??]; simpl; constructor; auto.
Qed.

Lemma operators_of_operators names subspaces dims matrices :
  Forall (fun x => is_operator x = true) (operators_of names subspaces dims matrices).
Proof.
  revert subspaces dims matrices.
  induction names; intros [|??] [|??] [|??]; simpl; constructor; auto.
Qed.

Lemma operators_of_NoDup names subspaces dims matrices :
  NoDup subspaces -> NoDup (operators_of names subspaces dims matrices).
Proof.
  revert subspaces dims matrices.
  induction names as [|n names IH]; intros [|s subs] [|d dims] [|m mats]; simpl;
    try (intros; constructor; fail).
  rewrite !NoDup_cons. intros [Hs Hnd]. split; [|by apply IH].
  intros Hin. by apply Hs, (operators_of_subspace names subs dims mats n s d m).
Qed.

Lemma subspace_dims_fresh s names subspaces dims matrices :
  s ∉ subspaces -> subspace_dims s (operators_of names subspaces dims matrices) = [].
Proof.
  revert subspaces dims matrices.
  induction names as [|n names IH]; intros [|s' subs] [|d dims] [|m mats] Hs; simpl; try done.
  rewrite elem_of_cons in Hs. rewrite decide_False by naive_solver. apply IH. naive_solver.
Qed.

Lemma operators_of_in_subspaces names subspaces dims matrices :
  Forall (fun f => match f with EOp _ s _ _ => s ∈ subspaces | _ => True end)
    (operators_of names subspaces dims matrices).
Proof.
  revert subspaces dims matrices.
  induction names as [|n names IH]; intros [|s subs] [|d dims] [|m mats]; simpl; constructor.
  - left.
  - eapply Forall_impl; [apply IH|]. intros [|? ?|? s' ? ?|? ?| | | |] ?; try done. by right.
Qed.

(** With distinct subspaces, the operator on a subspace is the only one
    there: its dimension is the one given for the subspace. *)
Lemma operators_of_dims names subspaces dims matrices :
  length subspaces = length names -> length dims = length names ->
  length matrices = length names -> NoDup subspaces ->
  Forall2 (fun s d => subspace_dims s (operators_of names subspaces dims matrices) = [d])
    subspaces dims.
Proof.
  revert subspaces dims matrices.
  induction names as [|n names IH]; intros [|s subs] [|d dims] [|m mats] Hs Hd Hm Hnd;
    simpl in *; try (lia || (constructor; fail)).
  apply NoDup_cons in Hnd as [Hs' Hnd]. constructor.
  - rewrite decide_True by done. by rewrite subspace_dims_fresh.
  - eapply (Forall2_impl_elem _ _ _ _ (IH subs dims mats ltac:(lia) ltac:(lia) ltac:(lia) Hnd)).
    intros s' d' Hin Hsd. rewrite decide_False; [done|]. intros ->. contradiction.
Qed.

(** With distinct subspaces, the operator on a subspace fits the
    dimension given for it and is alone there. *)
Lemma operators_of_fit names subspaces dims matrices :
  length subspaces = length names -> length dims = length names ->
  length matrices = length names -> NoDup subspaces ->
  Forall2 (fun m d => is_mat d d m) matrices dims ->
  operators_fit subspaces dims (operators_of names subspaces dims matrices).
Proof.
  unfold operators_fit. revert subspaces dims matrices.
  induction names as [|n names IH]; intros [|s subs] [|d dims] [|m mats] Hs Hd Hm Hnd Hmat;
    simpl in *; try (lia || (constructor; fail)).
  apply NoDup_cons in Hnd as [Hs' Hnd]. inversion Hmat as [|? ? ? ? Hmd Hmat']; subst.
  pose proof (not_elem_of_Forall_ne s subs Hs') as Hne. constructor.
  - constructor; [done|]. apply Forall_Forall2_l; [lia|].
    eapply Forall_impl; [exact Hne|]. intros s' Hs'' d' ->. contradiction.
  - pose proof (operators_of_in_subspaces names subs dims mats) as Hin.
    pose proof (IH subs dims mats ltac:(lia) ltac:(lia) ltac:(lia) Hnd Hmat') as Hfit.
    pose proof (proj2 (Forall_and _ _) (conj Hin Hfit)) as Hboth.
    eapply Forall_impl; [exact Hboth|]. intros [|? ?|? s0 ? m0|? ?| | | |] [Hs0 Hf]; try done.
    constructor; [|done]. intros ->. contradiction.
Qed.
Lemma subspace_dims_perm s l l' : l ≡ₚ l' -> subspace_dims s l ≡ₚ subspace_dims s l'.
Proof.
  induction 1 as [|x l l' _ IH|x y l|l l' l'' _ IH1 _ IH2]; simpl.
  - done.
  - destruct x; try exact IH. case_decide; [by constructor|exact IH].
  - destruct x, y; try done; repeat case_decide; try done; by constructor.
  - by rewrite IH1, IH2.
Qed.

Lemma Forall2_finite_operators names (Ks : list Matrix) D (P : Matrix -> Prop) :
  length Ks = length names -> Forall P Ks ->
  Forall2 (fun n op => exists K, op = EOp n "finite" D K /\ P K) names
    (map (fun ne => EOp ne.1 "finite" D ne.2) (combine names Ks)).
Proof.
  revert Ks. induction names as [|n names IH]; intros [|K Ks] Hl HP; simpl in *; try (lia || constructor).
  - inversion HP. eauto.
  - inversion HP. apply IH; [lia|done].
Qed.

Section GetFiniteOperatorsTheorems.
Context `{AlgebraEngine} `{!EngineLaws}.

(** The identities of a sum of distinct operators are those of its
    terms, which the engine may reorder. *)
Lemma get_finite_identities_operators fuel ops :
  ops <> [] -> Forall (fun x => is_leaf x = true) ops -> NoDup ops ->
  exists ts, ts ≡ₚ ops /\
    get_finite_identities (S (S fuel)) (expr_sum ops) = Ok (fold_left dupdate (map leaf_identities ts) []).
Proof.
  intros Hne Hl Hnd. destruct ops as [|op [|op' ops]]; [done| |].
  - exists [op]. split; [done|]. inversion Hl; subst. by destruct op.
  - remember (op :: op' :: ops) as l eqn:El.
    assert (Hperm : expand_terms (EAdd l) ≡ₚ l) by (by apply sum_of_leaves).
    assert (Hleaf : forall t, t ∈ expand_terms (EAdd l) -> is_leaf t = true).
    { intros t Ht. rewrite Hperm in Ht. rewrite Forall_forall in Hl.
      by apply Hl. }
    exists (expand_terms (EAdd l)). split; [done|].
    replace (expr_sum l) with (EAdd l) by (by subst).
    rewrite get_finite_identities_generic_unfold by done.
    rewrite get_terms_and_factors_total_core; [|done|].
    + cbn [rbind snd].
      assert (Hts : forall ts, (forall t, t ∈ ts -> is_leaf t = true) ->
                    concat (map term_factors ts) = ts).
      { induction ts as [|t ts IH]; intros Hlf; [done|]. cbn [map concat].
        rewrite term_factors_leaf by (apply Hlf; left). simpl. f_equal.
        apply IH. intros t' Ht'. apply Hlf. by right. }
      rewrite (Hts _ Hleaf), get_finite_identities_leaves; [done|].
      apply Forall_forall. intros t Ht. by apply Hleaf.
    + intros t f Ht Hf. rewrite factors_non_mul in Hf by (intros ? ->; by specialize (Hleaf _ Ht)).
      apply list_elem_of_singleton in Hf as ->. specialize (Hleaf _ Ht). by destruct t.
Qed.

Lemma get_finite_operators_square_core fuel names subspaces dims matrices :
  length subspaces = length names -> length dims = length names ->
  length matrices = length names -> names <> [] -> NoDup subspaces ->
  Forall2 (fun m d => is_mat d d m) matrices dims ->
  exists ops, get_finite_operators (S (S fuel)) names subspaces dims matrices = Ok ops /\
    Forall2 (fun n op => exists K, op = EOp n "finite" (foldr Nat.mul 1 dims) K /\
                                   is_mat (foldr Nat.mul 1 dims) (foldr Nat.mul 1 dims) K)
      names ops.
Proof.
  intros Hs Hd Hm Hne Hnd Hmat. unfold get_finite_operators.
  rewrite operator_at_operators_of by done. cbn [rbind].
  set (ops := operators_of names subspaces dims matrices).
  assert (Hops : ops <> []).
  { subst ops. destruct names, subspaces, dims, matrices; simpl in *; done || lia. }
  destruct (get_finite_identities_operators fuel ops) as (ts & Hts & ->);
    [done|apply operators_of_leaves|by apply operators_of_NoDup|].
  cbn [rbind]. set (ids := fold_left dupdate (map leaf_identities ts) []).
  assert (Hfit : identities_fit ids subspaces dims).
  { eapply Forall2_impl; [apply (operators_of_dims names subspaces dims matrices); done|].
    intros s d Hsd. exists (eye d). split; [|apply eye_is_mat].
    subst ids. rewrite dget_fold_identities.
    pose proof (subspace_dims_perm s _ _ Hts) as Hp. fold ops in Hsd. rewrite Hsd in Hp.
    by apply Permutation_singleton_r in Hp as ->. }
  assert (Hdims : dims <> []) by (destruct dims, names; simpl in *; done || lia).
  rewrite dupdate_fresh; cycle 1.
  { by rewrite map_fst_combine by lia. }
  { intros k _ Hk. inversion Hk. }
  unfold dvalues. rewrite app_nil_l, map_snd_combine by lia.
  edestruct (mapR_exists (expand_operator ids subspaces)
               (fun _ K => is_mat (foldr Nat.mul 1 dims) (foldr Nat.mul 1 dims) K) ops)
    as (Ks & -> & HKs).
  - intros op Hop. pose proof (operators_of_fit names subspaces dims matrices) as Hof.
    unfold operators_fit in Hof. rewrite Forall_forall in Hof.
    specialize (Hof ltac:(done) ltac:(done) ltac:(done) Hnd Hmat op Hop).
    pose proof (operators_of_operators names subspaces dims matrices) as Hl.
    rewrite Forall_forall in Hl. specialize (Hl _ Hop).
    destruct op as [|? ?|n s d m|? ?| | | |]; try discriminate.
    destruct (operator_matrices s m subspaces dims ids Hfit Hof) as (ms & Hms & Hmsd).
    destruct (kronecker_product_is_mat ms dims Hmsd Hdims) as (K & HK & HKd).
    exists K. split; [|done]. cbn [expand_operator]. by rewrite Hms.
  - cbn [rbind]. eexists; split; [reflexivity|]. apply Forall2_finite_operators.
    + apply Forall2_length in HKs. subst ops. rewrite <-HKs.
      clear -Hs Hd Hm. revert subspaces dims matrices Hs Hd Hm.
      induction names; intros [|??] [|??] [|??] ???; simpl in *; try lia. f_equal. apply IHnames; lia.
    + eapply Forall2_Forall_r; [exact HKs|]. apply Forall_forall. by intros.
Qed.

(** C26. (bounds) Given operators on distinct subspaces whose matrices fit
    their dimensions, [get_finite_operators] returns them all on the
    subspace ["finite"], with the product of the dimensions as their
    dimension and square matrices of that size. *)
Theorem get_finite_operators_square fuel names subspaces dims matrices :
  length subspaces = length names -> length dims = length names ->
  length matrices = length names -> names <> [] -> NoDup subspaces ->
  Forall2 (fun m d => is_mat d d m) matrices dims ->
  exists ops, get_finite_operators (S (S fuel)) names subspaces dims matrices = Ok ops /\
    Forall2 (fun n op => exists K, op = EOp n "finite" (foldr Nat.mul 1 dims) K /\
                                   is_mat (foldr Nat.mul 1 dims) (foldr Nat.mul 1 dims) K)
      names ops.
Proof. apply get_finite_operators_square_core. Qed.
End GetFiniteOperatorsTheorems.

Lemma operator_at_ok_or_index_error names subspaces dims matrices i :
  (exists op, operator_at names subspaces dims matrices i = Ok op) \/
  operator_at names subspaces dims matrices i = Err IndexError.
Proof.
  unfold operator_at, py_index.
  destruct (names !! i), (subspaces !! i), (dims !! i), (matrices !! i); cbn [rbind]; eauto.
Qed.

(** When [subspaces] is shorter than [names], the list
    comprehension reads past its end: [get_finite_operators] raises
    [IndexError]. *)
Theorem get_finite_operators_short_subspaces `{AlgebraEngine} fuel names subspaces dims matrices :
  length subspaces < length names ->
  get_finite_operators fuel names subspaces dims matrices = Err IndexError.
Proof.
  intros Hlen. unfold get_finite_operators.
  rewrite (mapR_Err_uniform _ _ IndexError); [done| |].
  - intros i _. apply operator_at_ok_or_index_error.
  - exists (length subspaces). split; [apply list_elem_of_In, in_seq; lia|].
    unfold operator_at, py_index.
    destruct (lookup_lt_is_Some_2 names (length subspaces) Hlen) as [n ->]. cbn [rbind].
    by rewrite lookup_ge_None_2.
Qed.

Section SharedSubspace.
Context `{AlgebraEngine} `{!EngineLaws}.

(** C27. (error) Two operators on the same subspace: the total dimension
    counts the subspace once ([dict(zip(...))] keeps one entry), but each
    expanded matrix is the Kronecker product of the operator's matrix with
    itself, since the walk over [subspaces] meets the operator's own
    subspace twice: a [d x d] operator gets a [d^2 x d^2] matrix and
    declared dimension [d]. *)
Theorem get_finite_operators_shared_subspace fuel n1 n2 s d m1 m2 :
  n1 <> n2 -> is_mat d d m1 -> is_mat d d m2 ->
  exists K1 K2,
    get_finite_operators (S (S fuel)) [n1; n2] [s; s] [d; d] [m1; m2]
      = Ok [EOp n1 "finite" d K1; EOp n2 "finite" d K2] /\
    K1 = kron2 m1 m1 /\ K2 = kron2 m2 m2 /\
    is_mat (d * d) (d * d) K1 /\ is_mat (d * d) (d * d) K2.
Proof.
  intros Hn Hm1 Hm2. unfold get_finite_operators.
  rewrite operator_at_operators_of by done. cbn [operators_of rbind].
  destruct (get_finite_identities_operators fuel [EOp n1 s d m1; EOp n2 s d m2])
    as (ts & _ & ->); [done|repeat constructor|..].
  { apply NoDup_cons. split; [|apply NoDup_singleton].
    intros Hin. apply list_elem_of_singleton in Hin. congruence. }
  cbn [rbind mapR expand_operator]. rewrite !decide_True by done. cbn [rbind kronecker_product fold_left].
  unfold dupdate. cbn [combine fold_left fst snd dset]. rewrite decide_True by done.
  cbn [dvalues map foldr combine]. rewrite Nat.mul_1_r.
  eexists _, _. split_and!; [reflexivity|reflexivity|reflexivity|by apply kron2_is_mat..].
Qed.
End SharedSubspace.

(** ** [get_matrix] *)

(** A value of [get_matrix]: a scalar expression or a SymPy matrix. *)
Inductive GVal : Type :=
| GScalar (e : Expr)
| GMatrix (m : Matrix).

(** [mat_res * v] (line 293) on those values: a scalar and a matrix give
    the matrix with its entries scaled ([Matrix.__rmul__] and
    [Matrix.__mul__]), two matrices their product or [ShapeError]. *)
Definition py_mul (a b : GVal) : result GVal :=
  match a, b with
  | GScalar x, GScalar y => Ok (GScalar (expr_mul x y))
  | GScalar x, GMatrix m => Ok (GMatrix (lscale_matrix x m))
  | GMatrix m, GScalar y => Ok (GMatrix (scale_matrix m y))
  | GMatrix m1, GMatrix m2 => rmap GMatrix (mat_mul m1 m2)
  end.

Section GetMatrix.
Context `{AlgebraEngine}.

(** SymPy's [Add] of the term values (line 295), left abstract: the theorems
    below hold whatever it computes of the products it is given. *)
Variable sympy_add : list GVal -> result GVal.

(** Lines 290-293 for one term: [mat_res = 1], then [mat_res *=
    get_matrix(factor)] for each factor in order. *)
Definition term_matrix (get : Expr -> result GVal) (fs : list Expr) : result GVal :=
  fold_result (fun mat_res f => v <- get f ;; py_mul mat_res v) fs (GScalar (ENum 1)).

(** A symbol or number is its own value, an operator its matrix (the
    [print] calls are output only); any other expression, an [RDBoson]
    included since no leaf implementation takes it, is decomposed, the
    factors of each term multiplied in order, and the products added. *)
Fixpoint get_matrix (fuel : nat) (e : Expr) : result GVal :=
  match e with
  | ENum _ | ESym _ _ => Ok (GScalar e)
  | EOp _ _ _ m => Ok (GMatrix m)
  | _ =>
      match fuel with
      | 0 => Err RecursionError
      | S fuel' =>
          p <- get_terms_and_factors fuel' e ;;
          matrices <- mapR (term_matrix (get_matrix fuel')) p.2 ;;
          sympy_add matrices
      end
  end.
End GetMatrix.

(** *** The products without shape checks, and the shapes they need *)

(** The value of a leaf factor. *)
Definition leaf_value (f : Expr) : GVal :=
  match f with EOp _ _ _ m => GMatrix m | _ => GScalar f end.

Definition mul_raw (a b : GVal) : GVal :=
  match a, b with
  | GScalar x, GScalar y => GScalar (expr_mul x y)
  | GScalar x, GMatrix m => GMatrix (lscale_matrix x m)
  | GMatrix m, GScalar y => GMatrix (scale_matrix m y)
  | GMatrix m1, GMatrix m2 => GMatrix (mat_mul_raw m1 m2)
  end.

(** The ordered product of a term's factors. *)
Definition term_product (fs : list Expr) : GVal :=
  fold_left (fun acc f => mul_raw acc (leaf_value f)) fs (GScalar (ENum 1)).

(** An operator's matrix is square. *)
Definition op_square (f : Expr) : Prop :=
  match f with EOp _ _ _ m => is_mat (length m) (length m) m | _ => True end.

(** The sizes of the operators among a list of factors, in order. *)
Definition op_sizes (fs : list Expr) : list nat :=
  flat_map (fun f => match f with EOp _ _ _ m => [length m] | _ => [] end) fs.

(** The operators of a list of factors all have the size [d] of the
    accumulated matrix, or, when nothing has been multiplied yet, the
    size of the first one. *)
Definition uniform_from (acc : option nat) (sizes : list nat) : bool :=
  match acc, sizes with
  | None, [] => true
  | None, a :: l => forallb (Nat.eqb a) l
  | Some d, l => forallb (Nat.eqb d) l
  end.

Definition ops_uniform (fs : list Expr) : bool := uniform_from None (op_sizes fs).

Definition gval_size (v : GVal) : option nat :=
  match v with GScalar _ => None | GMatrix m => Some (length m) end.

Definition gval_square (v : GVal) : Prop :=
  match v with GScalar _ => True | GMatrix m => is_mat (length m) (length m) m end.

Section GetMatrixTheorems.
Context `{AlgebraEngine}.
Variable sympy_add : list GVal -> result GVal.

(** Every expression but a number, a symbol or an operator goes to the
    [Expr] implementation, a boson included. *)
Lemma get_matrix_generic_unfold fuel e :
  is_leaf e = false \/ is_boson e = true ->
  get_matrix sympy_add (S fuel) e =
    (p <- get_terms_and_factors fuel e ;;
     matrices <- mapR (term_matrix (get_matrix sympy_add fuel)) p.2 ;;
     sympy_add matrices).
Proof. destruct e; intros [Hl|Hl]; try discriminate; reflexivity. Qed.

Lemma get_matrix_boson fuel s k : get_matrix sympy_add fuel (EBoson s k) = Err RecursionError.
Proof.
  induction fuel as [|fuel IH]; [done|]. rewrite get_matrix_generic_unfold, gtf_non_generic by (by right || done).
  cbn [rbind snd factor_decomp mapR]. unfold term_matrix. cbn [fold_result]. by rewrite IH.
Qed.

Lemma get_matrix_leaf fuel f :
  is_leaf f = true -> is_boson f = false -> get_matrix sympy_add fuel f = Ok (leaf_value f).
Proof. destruct f, fuel; try discriminate; reflexivity. Qed.

(** One step [mat_res *= get_matrix(factor)] on a leaf: the product of
    the step, or [ShapeError] exactly when the factor is an operator of
    another size than the accumulated matrix. *)
Lemma py_mul_step a f l :
  gval_square a -> is_leaf f = true -> is_boson f = false -> op_square f ->
  (py_mul a (leaf_value f) = Ok (mul_raw a (leaf_value f)) /\
   gval_square (mul_raw a (leaf_value f)) /\
   gval_size (mul_raw a (leaf_value f)) = gval_size a ∪ head (op_sizes [f]) /\
   uniform_from (gval_size (mul_raw a (leaf_value f))) (op_sizes l) =
     uniform_from (gval_size a) (op_sizes (f :: l))) \/
  (py_mul a (leaf_value f) = Err ShapeError /\ uniform_from (gval_size a) (op_sizes (f :: l)) = false).
Proof.
  intros Ha Hl Hb Hsq. unfold op_sizes. destruct f as [z|x o|n s d m|s k| | | |]; try discriminate;
    cbn [flat_map app head leaf_value py_mul mul_raw op_square] in *.
  1,2: left; destruct a as [x'|M]; cbn [gval_size gval_square py_mul mul_raw] in *;
       [by split_and!|unfold scale_matrix; rewrite length_map; split_and!; [done|by apply scale_matrix_is_mat|done|done]].
  destruct a as [x'|M]; cbn [gval_size gval_square py_mul mul_raw] in *.
  { left. unfold lscale_matrix. rewrite length_map. split_and!; [done|by apply lscale_matrix_is_mat|done|done]. }
  destruct (decide (length M = length m)) as [Hd|Hd].
  - left. rewrite (mat_mul_square (length M) M m Ha) by (by rewrite Hd). cbn [rmap gval_size].
    assert (Hp : is_mat (length M) (length M) (mat_mul_raw M m))
      by (apply mat_mul_raw_is_mat; [done|by rewrite Hd]).
    rewrite (proj1 Hp). split_and!; [done|done|reflexivity|].
    cbn [uniform_from forallb]. by rewrite Hd, Nat.eqb_refl.
  - right. rewrite (mat_mul_mismatch (length M) (length m) M m) by done. cbn [uniform_from forallb].
    split; [done|]. by apply andb_false_intro1, Nat.eqb_neq.
Qed.

(** The loop of lines 292-293 on leaves that are no boson: the ordered
    product, or [ShapeError] exactly when an operator's size differs
    from the size of the operators before it. *)
Lemma term_fold_spec fuel fs a :
  gval_square a ->
  Forall (fun f => is_leaf f = true /\ is_boson f = false /\ op_square f) fs ->
  fold_result (fun mat_res f => v <- get_matrix sympy_add fuel f ;; py_mul mat_res v) fs a =
    if uniform_from (gval_size a) (op_sizes fs)
    then Ok (fold_left (fun acc f => mul_raw acc (leaf_value f)) fs a) else Err ShapeError.
Proof.
  intros Ha Hfs. revert a Ha. induction Hfs as [|f fs (Hl & Hb & Hsq) _ IH]; intros a Ha.
  { by destruct a. }
  cbn [fold_result fold_left]. rewrite get_matrix_leaf by done. cbn [rbind].
  destruct (py_mul_step a f fs) as [(-> & Hsq' & _ & <-)|(-> & ->)]; [done..| |done].
  cbn [rbind]. by apply IH.
Qed.

(** The size of the product is the size of the first operator, the
    product a scalar when there is none. *)
Lemma term_fold_size fs a :
  gval_square a ->
  Forall (fun f => is_leaf f = true /\ is_boson f = false /\ op_square f) fs ->
  uniform_from (gval_size a) (op_sizes fs) = true ->
  gval_square (fold_left (fun acc f => mul_raw acc (leaf_value f)) fs a) /\
  gval_size (fold_left (fun acc f => mul_raw acc (leaf_value f)) fs a) = gval_size a ∪ head (op_sizes fs).
Proof.
  intros Ha Hfs. revert a Ha. induction Hfs as [|f fs (Hl & Hb & Hsq) _ IH]; intros a Ha Hu.
  { cbn. by destruct (gval_size a). }
  cbn [fold_left]. destruct (py_mul_step a f fs) as [(_ & Hsq' & Hsz & Hu')|(_ & Hu')]; [done..| |congruence].
  rewrite <-Hu' in Hu. destruct (IH _ Hsq' Hu) as [IHsq ->]. split; [done|].
  rewrite Hsz. unfold op_sizes. cbn [flat_map].
  destruct f; cbn [app head]; destruct (gval_size a), (head (flat_map _ fs)); reflexivity.
Qed.

(** A term with a boson raises [RecursionError] when the operators before
    it multiply. *)
Lemma term_fold_boson fuel fs a s k :
  gval_square a -> EBoson s k ∈ fs ->
  Forall (fun f => is_leaf f = true /\ op_square f) fs ->
  uniform_from (gval_size a) (op_sizes fs) = true ->
  fold_result (fun mat_res f => v <- get_matrix sympy_add fuel f ;; py_mul mat_res v) fs a =
    Err RecursionError.
Proof.
  intros Ha Hin Hfs. revert a Ha Hin. induction Hfs as [|f fs (Hl & Hsq) _ IH]; intros a Ha Hin Hu.
  { by apply not_elem_of_nil in Hin. }
  cbn [fold_result]. destruct (is_boson f) eqn:Hb.
  { destruct f; try discriminate. by rewrite get_matrix_boson. }
  apply elem_of_cons in Hin as [<-|Hin]; [done|].
  rewrite get_matrix_leaf by done. cbn [rbind].
  destruct (py_mul_step a f fs) as [(-> & Hsq' & _ & Hu')|(_ & Hu')]; [done..| |congruence].
  cbn [rbind]. apply IH; [done|done|congruence].
Qed.

(** The hypotheses on the factors of an expression hold of the factors
    of each of its terms. *)
Lemma all_factors_term (P : Expr -> Prop) e fs :
  Forall P (all_factors e) -> fs ∈ map term_factors (expand_terms e) -> Forall P fs.
Proof. unfold all_factors. rewrite Forall_concat, Forall_forall. auto. Qed.

Context `{!EngineLaws}.

Lemma get_matrix_terms fuel e :
  is_generic e = true -> decomposable e ->
  get_matrix sympy_add (S (S fuel)) e =
    (matrices <- mapR (term_matrix (get_matrix sympy_add (S fuel))) (map term_factors (expand_terms e)) ;;
     sympy_add matrices).
Proof.
  intros Hg Hd. rewrite get_matrix_generic_unfold by (left; by destruct e).
  by rewrite get_terms_and_factors_total_core.
Qed.

(** The factors of a term of a boson-free expression whose operators
    are square. *)
Lemma term_factors_square e fs :
  decomposable e -> Forall (fun f => is_boson f = false /\ op_square f) (all_factors e) ->
  fs ∈ map term_factors (expand_terms e) ->
  Forall (fun f => is_leaf f = true /\ is_boson f = false /\ op_square f) fs.
Proof.
  intros Hd Hfs Hin. pose proof (all_factors_term _ _ _ (all_factors_leaves e Hd) Hin) as Hl.
  pose proof (all_factors_term _ _ _ Hfs Hin) as Hs. rewrite Forall_forall in Hl, Hs |- *.
  intros f Hf. destruct (Hs f Hf). auto.
Qed.

Lemma term_matrix_spec fuel fs :
  Forall (fun f => is_leaf f = true /\ is_boson f = false /\ op_square f) fs ->
  term_matrix (get_matrix sympy_add fuel) fs = if ops_uniform fs then Ok (term_product fs) else Err ShapeError.
Proof. intros Hfs. by apply term_fold_spec. Qed.

Lemma term_matrix_boson fuel fs s k :
  EBoson s k ∈ fs -> Forall (fun f => is_leaf f = true /\ op_square f) fs -> ops_uniform fs = true ->
  term_matrix (get_matrix sympy_add fuel) fs = Err RecursionError.
Proof. intros. by eapply term_fold_boson. Qed.

(** C19. (error) On an expression without bosons whose operators have
    square matrices, [get_matrix] raises [ShapeError] as soon as one
    term multiplies two operators of different sizes, such as operators
    of two subspaces not yet put on one by [get_finite_operators]:
    line 293 multiplies their matrices as they are. *)
Theorem get_matrix_shape_error fuel e :
  is_generic e = true -> decomposable e ->
  Forall (fun f => is_boson f = false /\ op_square f) (all_factors e) ->
  Exists (fun fs => ops_uniform fs = false) (map term_factors (expand_terms e)) ->
  get_matrix sympy_add (S (S fuel)) e = Err ShapeError.
Proof.
  intros Hg Hd Hfs Hex. rewrite get_matrix_terms by done.
  rewrite (mapR_Err_uniform _ _ ShapeError); [done| |].
  - intros fs Hin. rewrite term_matrix_spec by (by eapply term_factors_square).
    destruct (ops_uniform fs); eauto.
  - apply Exists_exists in Hex as (fs & Hin & Hu). exists fs. split; [done|].
    rewrite term_matrix_spec by (by eapply term_factors_square). by rewrite Hu.
Qed.

(** C28. (error) [get_matrix] has no implementation for [RDBoson]: the
    generic one decomposes a boson into itself and calls itself on it
    again.  So an expression with a boson factor whose terms otherwise
    multiply (square operators of one size per term) raises
    [RecursionError] whatever the recursion limit ("only use expr
    without infinite operators"). *)
Theorem get_matrix_boson_diverges fuel e s k :
  is_generic e = true -> decomposable e -> EBoson s k ∈ all_factors e ->
  Forall op_square (all_factors e) ->
  Forall (fun fs => ops_uniform fs = true) (map term_factors (expand_terms e)) ->
  get_matrix sympy_add fuel e = Err RecursionError.
Proof.
  intros Hg Hd Hb Hsq Hu. destruct fuel as [|[|fuel]]; [by destruct e|by destruct e|].
  rewrite get_matrix_terms by done. rewrite Forall_forall in Hu.
  assert (Hfs : forall fs, fs ∈ map term_factors (expand_terms e) ->
            Forall (fun f => is_leaf f = true /\ op_square f) fs).
  { intros fs Hin. apply (all_factors_term _ e); [|done]. apply Forall_and. split; [by apply all_factors_leaves|done]. }
  unfold all_factors in Hb. apply list_elem_of_In, in_concat in Hb as (fs & Hin & Hbf).
  apply list_elem_of_In in Hin, Hbf.
  rewrite (mapR_Err_uniform _ _ RecursionError); [done| |].
  2: { exists fs. split; [done|]. apply (term_matrix_boson _ _ s k); auto. }
  intros fs' Hin'. destruct (decide (Forall (fun f => is_boson f = false) fs')) as [Hnb|Hnb].
  - left. eexists. rewrite term_matrix_spec, Hu; [done|done|].
    rewrite Forall_forall in Hnb |- *. intros f Hf.
    destruct (proj1 (Forall_forall _ _) (Hfs fs' Hin') f Hf). auto.
  - right. apply not_Forall_Exists, Exists_exists in Hnb as (f & Hf & Hbf'); [|apply _].
    pose proof (proj1 (Forall_forall _ _) (Hfs fs' Hin') f Hf) as [Hl _].
    destruct f as [| | |s' k'| | | |]; try (by destruct Hbf'); try discriminate.
    eauto using term_matrix_boson.
Qed.

Lemma get_matrix_products_core fuel e :
  is_generic e = true -> decomposable e ->
  Forall (fun f => is_boson f = false /\ op_square f) (all_factors e) ->
  Forall (fun fs => ops_uniform fs = true) (map term_factors (expand_terms e)) ->
  get_matrix sympy_add (S (S fuel)) e = sympy_add (map term_product (map term_factors (expand_terms e))) /\
  Forall (fun fs => gval_square (term_product fs) /\ gval_size (term_product fs) = head (op_sizes fs))
    (map term_factors (expand_terms e)).
Proof.
  intros Hg Hd Hfs Hu. rewrite get_matrix_terms by done. rewrite Forall_forall in Hu. split.
  - rewrite (mapR_Ok_map _ term_product); [done|].
    intros fs Hin. rewrite term_matrix_spec by (by eapply term_factors_square). by rewrite Hu.
  - apply Forall_forall. intros fs Hin. unfold term_product.
    destruct (term_fold_size fs (GScalar (ENum 1))) as [Hs ->]; [done|by eapply term_factors_square|by apply Hu|].
    split; [done|]. by destruct (head _).
Qed.

(** C29. (functional) On an expression without bosons whose operators
    have square matrices and whose terms each multiply operators of one
    size, [get_matrix] raises nothing of its own: it hands SymPy's [Add]
    the ordered product of the factors of each term, and each product is
    a square matrix of the size of its term's operators, or a scalar
    when the term has no operator. *)
Theorem get_matrix_products fuel e :
  is_generic e = true -> decomposable e ->
  Forall (fun f => is_boson f = false /\ op_square f) (all_factors e) ->
  Forall (fun fs => ops_uniform fs = true) (map term_factors (expand_terms e)) ->
  get_matrix sympy_add (S (S fuel)) e = sympy_add (map term_product (map term_factors (expand_terms e))) /\
  Forall (fun fs => gval_square (term_product fs) /\ gval_size (term_product fs) = head (op_sizes fs))
    (map term_factors (expand_terms e)).
Proof. apply get_matrix_products_core. Qed.

Lemma op_sizes_Forall (P : nat -> Prop) fs :
  Forall (fun f => Forall P (op_sizes [f])) fs -> Forall P (op_sizes fs).
Proof.
  induction 1 as [|f fs Hf _ IH]; [constructor|]. unfold op_sizes in *. cbn [flat_map] in *.
  rewrite app_nil_r in Hf. by apply Forall_app.
Qed.

Lemma uniform_from_all d l : Forall (eq d) l -> uniform_from None l = true.
Proof.
  destruct 1 as [|x l <- Hl]; [done|]. cbn [uniform_from].
  apply forallb_forall. intros y Hy. apply Nat.eqb_eq. rewrite Forall_forall in Hl. apply Hl. by apply list_elem_of_In.
Qed.

(** C22. (safety) The two helpers compose: the operators
    [get_finite_operators] builds, multiplied with numbers and symbols
    in any expression without bosons, never make [get_matrix] raise
    [ShapeError].  It hands SymPy's [Add] the ordered product of each
    term, a scalar or a square matrix whose size is the product of the
    dimensions of the subspaces. *)
Theorem get_matrix_finite_operators fuel fuel' names subspaces dims matrices ops e :
  length subspaces = length names -> length dims = length names ->
  length matrices = length names -> names <> [] -> NoDup subspaces ->
  Forall2 (fun m d => is_mat d d m) matrices dims ->
  get_finite_operators (S (S fuel)) names subspaces dims matrices = Ok ops ->
  is_generic e = true -> decomposable e ->
  Forall (fun f => f ∈ ops \/ (op_sizes [f] = [] /\ is_boson f = false)) (all_factors e) ->
  get_matrix sympy_add (S (S fuel')) e = sympy_add (map term_product (map term_factors (expand_terms e))) /\
  Forall (fun v => (exists x, v = GScalar x) \/
                   exists K, v = GMatrix K /\ is_mat (foldr Nat.mul 1 dims) (foldr Nat.mul 1 dims) K)
    (map term_product (map term_factors (expand_terms e))).
Proof.
  intros Hs Hd Hm Hne Hnd Hmat Hget Hg Hdec Hfs.
  destruct (get_finite_operators_square_core fuel names subspaces dims matrices) as (ops' & Hops' & Hops); [done..|].
  rewrite Hget in Hops'. injection Hops' as <-. set (D := foldr Nat.mul 1 dims) in *.
  assert (Hf : Forall (fun f => (is_boson f = false /\ op_square f) /\ Forall (eq D) (op_sizes [f]))
                 (all_factors e)).
  { eapply Forall_impl; [exact Hfs|]. intros f [Hin|[Hsz Hb]].
    - apply list_elem_of_lookup in Hin as (i & Hi).
      destruct (Forall2_lookup_r _ _ _ _ _ Hops Hi) as (n & _ & K & -> & HK).
      pose proof (proj1 HK) as HKD. cbn. rewrite HKD. split; [split; [done|exact HK]|repeat constructor].
    - rewrite Hsz. split; [|constructor]. split; [done|]. by destruct f. }
  apply Forall_and in Hf as [Hsq Hsz].
  assert (Hu : Forall (fun fs => ops_uniform fs = true) (map term_factors (expand_terms e))).
  { apply Forall_forall. intros fs Hin. apply (uniform_from_all D), op_sizes_Forall.
    by apply (all_factors_term _ e). }
  destruct (get_matrix_products_core fuel' e) as [-> Hprod]; [done..|]. split; [done|].
  rewrite Forall_forall in Hprod. apply Forall_forall. intros v Hv. apply list_elem_of_fmap in Hv as (fs & -> & Hin).
  destruct (Hprod fs Hin) as [Hsqv Hszv].
  pose proof (op_sizes_Forall _ _ (all_factors_term _ e fs Hsz Hin)) as HD.
  destruct (term_product fs) as [x|K]; [by left; eauto|right; exists K; split; [done|]].
  cbn [gval_size gval_square] in Hszv, Hsqv. destruct (op_sizes fs) as [|d l]; [done|].
  cbn in Hszv. injection Hszv as Hk. apply Forall_cons in HD as [HDd _]. by rewrite HDd, <-Hk.
Qed.
End GetMatrixTheorems.

(** ** The theorems on examples *)
Module FiniteOperatorsExamples.
Import Fixtures.

(** [sigma_z] on [spin] and [opA] on [X]: two 4 x 4 operators on the
    subspace ["finite"] of dimension 4. *)
Lemma get_finite_operators_square_witness :
  exists ops, get_finite_operators 2 ["sigma_z"; "opA"] ["spin"; "X"] [2; 2] [sz_mat; sx_mat] = Ok ops /\
    Forall2 (fun n op => exists K, op = EOp n "finite" (foldr Nat.mul 1 [2; 2]) K /\
                                   is_mat (foldr Nat.mul 1 [2; 2]) (foldr Nat.mul 1 [2; 2]) K)
      ["sigma_z"; "opA"] ops.
Proof.
  apply (get_finite_operators_square 0); try reflexivity; try discriminate.
  - apply (bool_decide_unpack _). vm_compute. reflexivity.
  - repeat constructor.
Defined.

(** [sigma_x] and [sigma_z] both on [spin], as in [src/test.py]. *)
Lemma get_finite_operators_shared_subspace_witness :
  exists K1 K2,
    get_finite_operators 2 ["sigma_x"; "sigma_z"] ["spin"; "spin"] [2; 2] [sx_mat; sz_mat]
      = Ok [EOp "sigma_x" "finite" 2 K1; EOp "sigma_z" "finite" 2 K2] /\
    K1 = kron2 sx_mat sx_mat /\ K2 = kron2 sz_mat sz_mat /\
    is_mat (2 * 2) (2 * 2) K1 /\ is_mat (2 * 2) (2 * 2) K2.
Proof.
  apply (get_finite_operators_shared_subspace 0); [discriminate|repeat constructor..].
Defined.

Lemma get_finite_operators_short_subspaces_witness :
  get_finite_operators 2 ["sigma_x"; "tau_x"] ["spin"] [2; 2] [sx_mat; sx_mat] = Err IndexError.
Proof. apply get_finite_operators_short_subspaces. simpl. lia. Defined.

(** An [Add] for the examples: scalars and matrices of one size added
    entry by entry. *)
Definition add_values (vs : list GVal) : result GVal :=
  match vs with
  | [] => Ok (GScalar (ENum 0))
  | v :: vs' =>
      fold_result (fun x y =>
        match x, y with
        | GScalar p, GScalar q => Ok (GScalar (expr_add p q))
        | GMatrix m1, GMatrix m2 =>
            if decide (length m1 = length m2) then Ok (GMatrix (zip_with (zip_with expr_add) m1 m2))
            else Err ShapeError
        | _, _ => Err TypeError
        end) vs' v
  end.

(** An operator on a three-dimensional subspace. *)
Definition opC : Expr := EOp "opC" "Z" 3 (eye 3).

(** A spin coupled to the boson mode [a]. *)
Definition V2 : Expr := EAdd [EMul [g; ad; opA]; EMul [s1; opB]].

(** Two operators on the subspace ["finite"], as [get_finite_operators]
    returns them. *)
Definition W1 : Expr :=
  EAdd [EMul [g; EOp "X1" "finite" 2 sx_mat]; EMul [s2; EOp "Z1" "finite" 2 sz_mat]].

Lemma get_matrix_shape_error_witness :
  get_matrix add_values 2 (EMul [g; sigma_z; opC]) = Err ShapeError.
Proof.
  apply (get_matrix_shape_error add_values 0 (EMul [g; sigma_z; opC])).
  - reflexivity.
  - apply decomposable_b_sound. vm_compute. reflexivity.
  - vm_compute. repeat (constructor || split).
  - vm_compute. repeat constructor.
Defined.

Lemma get_matrix_boson_diverges_witness :
  get_matrix add_values 1000 V2 = Err RecursionError.
Proof.
  apply (get_matrix_boson_diverges add_values 1000 V2 "a" Creation).
  - reflexivity.
  - apply decomposable_b_sound. vm_compute. reflexivity.
  - vm_compute. right. left.
  - vm_compute. repeat (constructor || split).
  - vm_compute. repeat constructor.
Defined.

(** The ShapeError of [opA * opC] comes before the boson is reached. *)
Lemma get_matrix_mismatch_before_boson :
  get_matrix add_values 1000 (EMul [opA; opC; a]) = Err ShapeError.
Proof. vm_compute. reflexivity. Qed.

Lemma get_matrix_products_witness :
  get_matrix add_values 2 W1 = add_values (map term_product (map term_factors (expand_terms W1))) /\
  Forall (fun fs => gval_square (term_product fs) /\ gval_size (term_product fs) = head (op_sizes fs))
    (map term_factors (expand_terms W1)).
Proof.
  apply (get_matrix_products add_values 0 W1).
  - reflexivity.
  - apply decomposable_b_sound. vm_compute. reflexivity.
  - vm_compute. repeat (constructor || split).
  - vm_compute. repeat constructor.
Defined.

(** The operators of [get_finite_operators_square_witness], in an
    expression with a scalar term. *)
Definition fops : list Expr :=
  match get_finite_operators 2 ["sigma_z"; "opA"] ["spin"; "X"] [2; 2] [sz_mat; sx_mat] with
  | Ok l => l
  | Err _ => []
  end.

Definition E3 : Expr :=
  EAdd [EMul [g; nth 0 fops (ENum 0); nth 1 fops (ENum 0)]; EMul [s1; nth 1 fops (ENum 0)]; s2].

Lemma get_matrix_finite_operators_witness :
  get_matrix add_values 2 E3 = add_values (map term_product (map term_factors (expand_terms E3))) /\
  Forall (fun v => (exists x, v = GScalar x) \/
                   exists K, v = GMatrix K /\ is_mat (foldr Nat.mul 1 [2; 2]) (foldr Nat.mul 1 [2; 2]) K)
    (map term_product (map term_factors (expand_terms E3))).
Proof.
  apply (get_matrix_finite_operators add_values 0 0 ["sigma_z"; "opA"] ["spin"; "X"] [2; 2] [sz_mat; sx_mat] fops E3);
    try reflexivity; try discriminate.
  - apply (bool_decide_unpack _). vm_compute. reflexivity.
  - repeat constructor.
  - apply decomposable_b_sound. vm_compute. reflexivity.
  - apply (bool_decide_unpack _). vm_compute. reflexivity.
Defined.

End FiniteOperatorsExamples.
