(* ===== verification/PyswUtils.v ===== *)
(** * The older classifiers of [src/pysw/utils.py]

    The module the solver imports ([from .utils import *]).  Its
    classifiers walk the SymPy tree instead of decomposing it:
    [term.find(RDsymbol)], [term.has(BosonOp)] and [expr.atoms(BosonOp)]
    look at every subexpression.  Operators are those of
    [src/pysw/classes.py]: an [RDOperator] has a name and a [SubSpace]
    and no matrix among its arguments, so the matrix an [EOp] carries is
    not a subexpression here.  [expr.as_ordered_terms()] is called without
    [expand()]: the terms of a sum are its arguments, any other expression
    is its own single term. *)

From Stdlib Require Import ZArith.
From stdpp Require Import base list strings decidable.
From S2P Require Import Prelude Expr Matrix Ansatz.
Import ListNotations.

(** ** Walking the tree *)

(** The subexpressions of an expression, itself first. *)
Fixpoint subexprs (e : Expr) : list Expr :=
  e :: match e with
       | EAdd l | EMul l => concat (map subexprs l)
       | EPow b _ => subexprs b
       | EComm a b => subexprs a ++ subexprs b
       | _ => []
       end.

(** [expr.as_ordered_terms()] *)
Definition ordered_terms (e : Expr) : list Expr :=
  match e with EAdd l => l | _ => [e] end.

Definition is_symbol (e : Expr) : bool :=
  match e with ESym _ _ => true | _ => false end.

Definition symbol_order (e : Expr) : nat :=
  match e with ESym _ o => o | _ => 0 end.

(** [term.find(RDsymbol)]: the SET of the symbols of a term. *)
Definition find_symbols (t : Expr) : list Expr :=
  remove_dups (filter (fun x => is_symbol x = true) (subexprs t)).

(** [int(sum(i.order for i in term.find(RDsymbol)))] *)
Definition pysw_term_order (t : Expr) : nat :=
  sum_list (map symbol_order (find_symbols t)).

(** [term.has(BosonOp)] *)
Definition has_boson (t : Expr) : bool := existsb is_boson (subexprs t).

(** ** [group_by_order] (lines 9-16)

    A [defaultdict] filled by [result[order] = Add(result[order], term)]. *)
Definition group_by_order_pysw (expr : Expr) : dict nat (list Expr) :=
  group_pairs (map (fun t => (pysw_term_order t, t)) (ordered_terms expr)).

(** ** [group_by_infinite] (lines 19-26)

    [result[int(term.has(BosonOp))] = Add(result[idx], term)] on the pair
    [[S.Zero, S.Zero]]. *)
Definition add_at (idx : bool) (t : Expr) (r : list Expr * list Expr) : list Expr * list Expr :=
  if idx then (r.1, r.2 ++ [t]) else (r.1 ++ [t], r.2).

Definition group_by_infinite_pysw (expr : Expr) : list Expr * list Expr :=
  fold_left (fun r t => add_at (has_boson t) t r) (ordered_terms expr) ([], []).

(** ** [group_by_diagonal] (lines 29-56) *)

(** [set(boson.name for boson in expr.atoms(BosonOp))] *)
Definition boson_names (e : Expr) : list string :=
  remove_dups (omap (fun x => match x with EBoson s _ => Some s | _ => None end) (subexprs e)).

(** [all(f(x) for x in xs)], which stops at the first false value. *)
Fixpoint py_all {A} (f : A -> result bool) (xs : list A) : result bool :=
  match xs with
  | [] => Ok true
  | x :: xs' => b <- f x ;; if b then py_all f xs' else Ok false
  end.

(** [check_balanced(name)] reads [Dagger], which the module never
    imports: the call raises [NameError]. *)
Definition check_balanced (name : string) : result bool := Err NameError.

(** The key of a term: [boson_check] ranges over the bosons of the whole
    expression; [term.find(sp.Matrix)] finds nothing, since a mutable
    [Matrix] is never a node of a SymPy expression, so [matrix_check] is
    the [all] of no value. *)
Definition pysw_diagonal_key (expr t : Expr) : result bool :=
  boson_check <- py_all check_balanced (boson_names expr) ;;
  matrix_check <- py_all (fun m : Matrix => Ok true) [] ;;
  Ok (boson_check && matrix_check).

Definition group_by_diagonal_pysw (expr : Expr) : result (list Expr * list Expr) :=
  keys <- mapR (pysw_diagonal_key expr) (ordered_terms expr) ;;
  Ok (fold_left (fun r kt => add_at kt.1 kt.2 r) (combine keys (ordered_terms expr)) ([], [])).

(** ** [expand_operators] (lines 59-76) *)

(** [mat.shape] of a matrix given by its rows *)
Definition shape (m : Matrix) : nat * nat :=
  (length m, match m with [] => 0 | r :: _ => length r end).

(** [TensorProduct] of a list of matrices is their Kronecker product;
    SymPy reads its first argument, so none raises [IndexError]. *)
Definition tensor_product (ms : list Matrix) : result Matrix :=
  match ms with [] => Err IndexError | _ => kronecker_product ms end.

(** One iteration of the loop: the three assertions, then the tensor
    product over [subspaces] of [mat] on the operator's subspace and the
    identity elsewhere. *)
Definition expand_substitution (subspaces : list SubSpace) (sub : Expr * Matrix)
    : result (Expr * Matrix) :=
  let '(op, mat) := sub in
  match op with
  | EOp _ s d _ =>
      if decide ((shape mat).1 <> (shape mat).2) then Err AssertionError
      else if decide (d <> (shape mat).1) then Err AssertionError
      else K <- tensor_product (map (fun space =>
                  if decide (mkSubSpace s d = space) then mat else eye (ss_dim space)) subspaces) ;;
           Ok (op, K)
  | _ => Err AssertionError
  end.

(** [subspaces] is [list(set(op.subspace for op in expr.atoms(RDOperator)))]
    in the set's iteration order, which Python does not fix.  The result
    is the list the loop leaves in [subs]: the function assigns
    [subs[i]], so the caller's list is overwritten with it.  The final
    [expr.subs(subs)], which puts matrices inside the expression, is
    SymPy's. *)
Definition expand_operators (subspaces : list SubSpace) (subs : list (Expr * Matrix))
    : result (list (Expr * Matrix)) :=
  mapR (expand_substitution subspaces) subs.

(** [set(op.subspace for op in expr.atoms(RDOperator))] *)
Definition operator_subspaces (e : Expr) : list SubSpace :=
  remove_dups (omap op_subspace (subexprs e)).

(** ** [nested_commutator] (lines 84-90), the same code as in
    [src/Modules/sympy/utils.py] *)
Fixpoint nested_commutator_pysw (fuel : nat) (A B : Expr) (k : Z) : result Expr :=
  match fuel with
  | 0 => Err RecursionError
  | S fuel' =>
      if decide (k = 0%Z) then Ok A
      else if decide (k = 1%Z) then Ok (EComm A B)
      else c <- nested_commutator_pysw fuel' A B (k - 1) ;; Ok (EComm c B)
  end.

Lemma nested_commutator_pysw_eq fuel A B k :
  nested_commutator_pysw fuel A B k = nested_commutator fuel A B k.
Proof.
  revert k. induction fuel as [|fuel IH]; intros k; [done|]. cbn.
  repeat case_decide; by rewrite ?IH.
Qed.

(** [assert mat.shape[0] == mat.shape[1]] and
    [assert op.subspace.dimension == mat.shape[0]] on an operator *)
Definition assertions_hold (p : Expr * Matrix) : Prop :=
  match p.1 with
  | EOp _ _ d _ => (shape p.2).1 = (shape p.2).2 /\ d = (shape p.2).1
  | _ => False
  end.

#[export] Instance assertions_hold_dec p : Decision (assertions_hold p).
Proof. destruct p as [[] mat]; cbn [assertions_hold fst snd]; apply _. Defined.

(** ** Lemmas *)

Lemma fold_add_at (f : Expr -> bool) l a b :
  fold_left (fun r t => add_at (f t) t r) l (a, b)
  = (a ++ filter (fun t => f t = false) l, b ++ filter (fun t => f t = true) l).
Proof.
  revert a b. induction l as [|t l IH]; intros a b; simpl; [by rewrite !app_nil_r|].
  rewrite !filter_cons. destruct (f t) eqn:E; cbn [add_at fst snd]; rewrite IH;
    repeat case_decide; try congruence; by rewrite <-!app_assoc.
Qed.

Lemma fold_add_at_true l a b :
  fold_left (fun r kt => add_at kt.1 kt.2 r) (combine (map (fun _ => true) l) l) (a, b) = (a, b ++ l).
Proof.
  revert a b. induction l as [|t l IH]; intros a b; simpl; [by rewrite !app_nil_r|].
  rewrite IH. by rewrite <-app_assoc.
Qed.

Lemma boson_names_nonempty e : boson_names e <> [] <-> has_boson e = true.
Proof.
  unfold boson_names, has_boson. split.
  - intros Hne. destruct (remove_dups _) as [|s l] eqn:E; [done|].
    assert (Hs : s ∈ omap (fun x => match x with EBoson s _ => Some s | _ => None end) (subexprs e)).
    { rewrite <-elem_of_remove_dups, E. left. }
    apply list_elem_of_omap in Hs as (x & Hx & Hxs). destruct x; try discriminate.
    apply existsb_exists. eexists. split; [by apply list_elem_of_In|done].
  - intros Hb E. apply existsb_exists in Hb as (x & Hx & Hbx). destruct x as [|? ?|? ? ? ?|s k| | | |]; try discriminate.
    assert (Hs : s ∈ remove_dups (omap (fun x => match x with EBoson s _ => Some s | _ => None end) (subexprs e))).
    { rewrite elem_of_remove_dups. apply list_elem_of_omap. exists (EBoson s k).
      split; [by apply list_elem_of_In|done]. }
    rewrite E in Hs. inversion Hs.
Qed.

Lemma has_boson_terms e : has_boson e = true -> ordered_terms e <> [].
Proof. destruct e as [| | | |l| | |]; try done. by destruct l. Qed.

Lemma shape_is_mat d m : is_mat d d m -> (shape m).1 = (shape m).2 /\ d = (shape m).1.
Proof.
  intros [Hl Hrows]. destruct m as [|r rs]; simpl in *; [lia|].
  inversion Hrows. lia.
Qed.

(** An operator whose matrix fits its subspace expands to a square matrix
    of the product of the dimensions of [subspaces]. *)
Lemma expand_substitution_square subspaces n s d mm mat :
  subspaces <> [] -> is_mat d d mat ->
  exists K, expand_substitution subspaces (EOp n s d mm, mat) = Ok (EOp n s d mm, K) /\
    is_mat (foldr Nat.mul 1 (map ss_dim subspaces)) (foldr Nat.mul 1 (map ss_dim subspaces)) K.
Proof.
  intros Hne Hm. destruct (shape_is_mat d mat Hm) as [Hsq Hd]. cbn [expand_substitution].
  rewrite !decide_False by lia.
  destruct (kronecker_product_is_mat
              (map (fun space => if decide (mkSubSpace s d = space) then mat else eye (ss_dim space)) subspaces)
              (map ss_dim subspaces)) as (K & HK & HKd).
  - apply Forall2_fmap, Forall_Forall2_diag, Forall_forall. intros space _.
    case_decide as E; [by subst|apply eye_is_mat].
  - by destruct subspaces.
  - exists K. split; [|done]. unfold tensor_product. destruct subspaces; [done|]. by rewrite HK.
Qed.

Lemma expand_substitution_cases subspaces p :
  subspaces <> [] ->
  (assertions_hold p -> exists p', expand_substitution subspaces p = Ok p') /\
  (~ assertions_hold p -> expand_substitution subspaces p = Err AssertionError).
Proof.
  intros Hne. destruct p as [[|? ?|? ? ? ?|? ?| | | |] mat]; cbn [assertions_hold expand_substitution fst snd];
    try (split; [done|done]).
  split.
  - intros [Hsq Hd]. rewrite !decide_False by lia. unfold tensor_product.
    destruct subspaces; [done|]. cbn [map kronecker_product rbind]. eauto.
  - intros Hn. case_decide; [done|]. rewrite decide_True; [done|]. intros Hd. apply Hn. lia.
Qed.

Lemma group_by_diagonal_pysw_boson e :
  has_boson e = true -> group_by_diagonal_pysw e = Err NameError.
Proof.
  intros Eb. unfold group_by_diagonal_pysw.
  destruct (ordered_terms e) as [|t ts] eqn:Et; [by apply has_boson_terms in Eb|].
  cbn [mapR]. unfold pysw_diagonal_key.
  destruct (boson_names e) as [|nm nms] eqn:En; [by apply boson_names_nonempty in Eb|].
  done.
Qed.

Lemma group_by_diagonal_pysw_finite e :
  has_boson e = false -> group_by_diagonal_pysw e = Ok ([], ordered_terms e).
Proof.
  intros Eb. unfold group_by_diagonal_pysw.
  assert (En : boson_names e = []).
  { destruct (boson_names e) eqn:En; [done|]. exfalso.
    assert (Hne : boson_names e <> []) by congruence. apply boson_names_nonempty in Hne. congruence. }
  rewrite (mapR_Ok_map _ (fun _ => true)).
  - cbn [rbind]. by rewrite fold_add_at_true.
  - intros t _. unfold pysw_diagonal_key. by rewrite En.
Qed.

(** ** Theorems *)

(** C30. (functional) The older [group_by_order] takes a term's order from
    the SET of its symbols: multiplying a term by a symbol it already
    contains leaves its order unchanged, so [g*g] is filed under order 1
    where the spec (and [src/Modules/sympy/utils.py]) gives 2. *)
Theorem pysw_term_order_repeated_symbol n o t :
  ESym n o ∈ subexprs t -> pysw_term_order (EMul [ESym n o; t]) = pysw_term_order t.
Proof.
  intros Hin. unfold pysw_term_order, find_symbols. cbn [subexprs concat map]. rewrite !app_nil_r.
  rewrite filter_cons_False by done. cbn [app]. rewrite filter_cons_True by done.
  cbn [remove_dups]. case_decide as Hd; [done|]. exfalso. apply Hd. by apply list_elem_of_filter.
Qed.

(** The older [group_by_infinite] returns the finite
    terms first and the terms with a boson second, the reverse of its
    comment [# infinite, finite]. *)
Theorem group_by_infinite_pysw_order e :
  group_by_infinite_pysw e = (filter (fun t => has_boson t = false) (ordered_terms e),
                              filter (fun t => has_boson t = true) (ordered_terms e)).
Proof. unfold group_by_infinite_pysw. by rewrite fold_add_at. Qed.

(** C31. (error) The older [group_by_diagonal] raises [NameError] on any
    expression with a boson ([Dagger] is not defined); on the others it
    files every term at index 1, which its comment calls non-diagonal,
    and leaves index 0 empty. *)
Theorem group_by_diagonal_pysw_spec e :
  group_by_diagonal_pysw e = if has_boson e then Err NameError else Ok ([], ordered_terms e).
Proof.
  destruct (has_boson e) eqn:Eb;
    [by apply group_by_diagonal_pysw_boson|by apply group_by_diagonal_pysw_finite].
Qed.

(** When every substitution is an operator with a square
    matrix of its subspace's dimension, [expand_operators] replaces each
    matrix by a square one of the product of the dimensions of all
    subspaces, whatever the order the set of subspaces is walked in. *)
Theorem expand_operators_square subspaces subs :
  subspaces <> [] ->
  Forall (fun p => exists n s d mm, p.1 = EOp n s d mm /\ is_mat d d p.2) subs ->
  exists subs', expand_operators subspaces subs = Ok subs' /\
    Forall2 (fun p p' => p'.1 = p.1 /\
      is_mat (foldr Nat.mul 1 (map ss_dim subspaces)) (foldr Nat.mul 1 (map ss_dim subspaces)) p'.2)
      subs subs'.
Proof.
  intros Hne Hsubs. apply mapR_exists. intros [op mat] Hp.
  rewrite Forall_forall in Hsubs. destruct (Hsubs _ (proj1 (list_elem_of_In _ _) Hp)) as (n & s & d & mm & Hop & Hm).
  cbn [fst snd] in *. subst op.
  destruct (expand_substitution_square subspaces n s d mm mat Hne Hm) as (K & HK & HKd).
  by exists (EOp n s d mm, K).
Qed.

(** With at least one subspace, [expand_operators] raises
    [AssertionError] exactly when some substitution is not an operator
    with a square matrix of its subspace's dimension. *)
Theorem expand_operators_assertion subspaces subs :
  subspaces <> [] ->
  (expand_operators subspaces subs = Err AssertionError <->
   exists p, p ∈ subs /\ ~ assertions_hold p).
Proof.
  intros Hne. split.
  - intros Herr. apply mapR_Err_elem in Herr as (p & Hp & Hpe). exists p. split; [done|].
    intros Hok. destruct (proj1 (expand_substitution_cases subspaces p Hne) Hok) as [p' Hp'].
    congruence.
  - intros (p & Hp & Hn). apply mapR_Err_uniform.
    + intros q _. destruct (decide (assertions_hold q)) as [Hq|Hq].
      * left. by apply (expand_substitution_cases subspaces q Hne).
      * right. by apply (expand_substitution_cases subspaces q Hne).
    + exists p. split; [done|]. by apply (expand_substitution_cases subspaces p Hne).
Qed.

(** C32. (error) [expand_operators] overwrites the caller's list [subs]:
    calling it again on the same list, as a second expansion of the same
    Hamiltonian would, meets a matrix of the full dimension where the
    operator's subspace has a smaller one, and raises [AssertionError]. *)
Theorem expand_operators_twice subspaces n s d mm mat rest :
  subspaces <> [] -> is_mat d d mat ->
  Forall (fun p => exists n s d mm, p.1 = EOp n s d mm /\ is_mat d d p.2) rest ->
  foldr Nat.mul 1 (map ss_dim subspaces) <> d ->
  exists subs', expand_operators subspaces ((EOp n s d mm, mat) :: rest) = Ok subs' /\
    expand_operators subspaces subs' = Err AssertionError.
Proof.
  intros Hne Hm Hrest HD.
  destruct (expand_substitution_square subspaces n s d mm mat Hne Hm) as (K & HK & HKd).
  edestruct (mapR_exists (expand_substitution subspaces) (fun _ _ => True) rest) as (rest' & Hr & _).
  { intros [op m'] Hp. rewrite Forall_forall in Hrest.
    destruct (Hrest _ (proj1 (list_elem_of_In _ _) Hp)) as (n' & s' & d' & mm' & Hop & Hm'). cbn [fst snd] in *. subst op.
    destruct (expand_substitution_square subspaces n' s' d' mm' m' Hne Hm') as (K' & HK' & _).
    by exists (EOp n' s' d' mm', K'). }
  exists ((EOp n s d mm, K) :: rest'). split.
  - unfold expand_operators. cbn [mapR]. by rewrite HK, Hr.
  - unfold expand_operators. cbn [mapR]. rewrite (proj2 (expand_substitution_cases subspaces _ Hne)); [done|].
    cbn [assertions_hold fst snd]. destruct (shape_is_mat _ K HKd) as [_ HKs]. lia.
Qed.

(** ** The theorems on examples *)
Module PyswUtilsExamples.
Import Fixtures.

(** The operators of [src/test.py], with [src/pysw/classes.py]'s
    [RDOperator(name, subspace)], which holds no matrix. *)
Definition spin : SubSpace := mkSubSpace "spin" 2.
Definition charge : SubSpace := mkSubSpace "charge" 2.
Definition sx : Expr := EOp "sigma_x" "spin" 2 [].
Definition sz : Expr := EOp "sigma_z" "spin" 2 [].
Definition tx : Expr := EOp "tau_x" "charge" 2 [].

(** The tensor order of [expand_operators] is the
    iteration order of a Python set: the two orders of [{spin, charge}]
    give [kron(sigma_x, I)] and [kron(I, sigma_x)], different matrices,
    where the spec fixes the order by the list of subspaces. *)
Example expand_operators_set_order :
  expand_operators [spin; charge] [(sx, sx_mat)] = Ok [(sx, kron2 sx_mat (eye 2))] /\
  expand_operators [charge; spin] [(sx, sx_mat)] = Ok [(sx, kron2 (eye 2) sx_mat)] /\
  kron2 sx_mat (eye 2) <> kron2 (eye 2) sx_mat.
Proof. split_and!; [reflexivity|reflexivity|vm_compute; congruence]. Qed.

Lemma pysw_term_order_repeated_symbol_witness :
  pysw_term_order (EMul [g; EMul [g; sx]]) = pysw_term_order (EMul [g; sx]).
Proof. apply pysw_term_order_repeated_symbol. apply (bool_decide_unpack _). vm_compute. reflexivity. Defined.

Lemma expand_operators_square_witness :
  exists subs', expand_operators [spin; charge] [(sx, sx_mat); (sz, sz_mat); (tx, sx_mat)] = Ok subs' /\
    Forall2 (fun p p' => p'.1 = p.1 /\
      is_mat (foldr Nat.mul 1 (map ss_dim [spin; charge])) (foldr Nat.mul 1 (map ss_dim [spin; charge])) p'.2)
      [(sx, sx_mat); (sz, sz_mat); (tx, sx_mat)] subs'.
Proof.
  apply expand_operators_square; [discriminate|].
  repeat constructor; do 4 eexists; (split; [reflexivity|repeat constructor]).
Defined.

(** A 2 x 2 matrix given for an operator of a subspace of dimension 3. *)
Lemma expand_operators_assertion_witness :
  [spin] <> [] /\
  (expand_operators [spin] [(EOp "q" "qutrit" 3 [], sx_mat)] = Err AssertionError <->
   exists p, p ∈ [(EOp "q" "qutrit" 3 [], sx_mat)] /\ ~ assertions_hold p).
Proof. split; [discriminate|]. apply expand_operators_assertion. discriminate. Defined.

Lemma expand_operators_twice_witness :
  exists subs', expand_operators [spin; charge] [(sx, sx_mat); (tx, sx_mat)] = Ok subs' /\
    expand_operators [spin; charge] subs' = Err AssertionError.
Proof.
  apply expand_operators_twice.
  - discriminate.
  - repeat constructor.
  - repeat constructor. do 4 eexists. split; [reflexivity|repeat constructor].
  - simpl. lia.
Defined.
End PyswUtilsExamples.
