(* ===== verification/Solver.v ===== *)
(** * The perturbative solver of [src/pysw/solver.py]

    [solver(H, order)] classifies [H] with the older classifiers of
    [src/pysw/utils.py] (the only ones it imports), sets up the state of
    spec section 4.5 ([H_final], [H_below_k], [Bk], [S]) and runs the
    loop [for k in range(1, order+1)].  The model follows each line until
    the statement that raises; the values are Python's [None], ints and
    SymPy expressions, the last given by their summands. *)

From Stdlib Require Import ZArith.
From stdpp Require Import base list strings decidable.
From S2P Require Import Prelude Expr PyswUtils.
Import ListNotations.

Inductive PyVal : Type :=
| VNone
| VInt (n : Z)
| VExpr (terms : list Expr).

(** [a + b]: [None] has no [+] and SymPy refuses it as an operand; an int
    joins a SymPy sum, a zero adding nothing. *)
Definition py_add (a b : PyVal) : result PyVal :=
  match a, b with
  | VNone, _ | _, VNone => Err TypeError
  | VInt x, VInt y => Ok (VInt (x + y))
  | VInt x, VExpr l | VExpr l, VInt x => Ok (VExpr (if decide (x = 0%Z) then l else l ++ [ENum x]))
  | VExpr l, VExpr l' => Ok (VExpr (l ++ l'))
  end.

(** [d.get(k)] on the [defaultdict] of [group_by_order]: [None] for a
    missing key ([get] does not call the default factory). *)
Definition py_get (k : nat) (d : dict nat (list Expr)) : PyVal :=
  match dget k d with Some l => VExpr l | None => VNone end.

(** [for term in v]: neither [None], an int nor a SymPy expression is
    iterable. *)
Definition py_iter (v : PyVal) : result (list Expr) := Err TypeError.

(** [term in v] for a SymPy expression [v], which has no [__contains__]
    and is not iterable. *)
Definition py_contains (v : PyVal) (t : Expr) : result bool := Err TypeError.

(** [sum(terms)]: [0] for none. *)
Definition py_sum (terms : list Expr) : PyVal :=
  match terms with [] => VInt 0 | _ => VExpr terms end.

(** [get_ansatz(Vk)], lines 7-13: [Vk.dim] exists only on a lone
    operator; the next line reads [H], which is not defined in the
    function or the module. *)
Definition py_dim (v : PyVal) : result nat :=
  match v with VExpr [EOp _ _ d _] => Ok d | _ => Err AttributeError end.

Definition get_ansatz (Vk : PyVal) : result (Expr * list Expr) :=
  H_dim_of_finite_space <- py_dim Vk ;;
  Err NameError.

(** The state the loop carries (spec section 4.5). *)
Record SolverState : Type := mkSolverState {
  H_final : PyVal;
  H_below_k : PyVal;
  Bk : PyVal;
  S_acc : PyVal;
}.

(** One iteration, lines 59-63: [H_below_k + H_ordered.get(k)], the
    comprehension over [H_below_k] that selects the terms [in non_diag],
    [get_ansatz(Vk + Bk)], and the call of [group_by_infinite_operators],
    a name that neither [src/pysw/utils.py] nor [src/pysw/classes.py]
    defines. *)
Definition solver_step (H_ordered : dict nat (list Expr)) (non_diag : PyVal)
    (st : SolverState) (k : nat) : result SolverState :=
  hb <- py_add (H_below_k st) (py_get k H_ordered) ;;
  terms <- py_iter hb ;;
  keep <- mapR (py_contains non_diag) terms ;;
  let Vk := py_sum (map snd (filter (fun bt => bt.1 = true) (combine keep terms))) in
  v <- py_add Vk (Bk st) ;;
  ansatz <- get_ansatz v ;;
  Err NameError.

(** [solver(H, order)]: [diag, non_diag = group_by_diagonal(H)] unpacks
    the pair the older classifier returns. *)
Definition solver (H : Expr) (order : Z) : result PyVal :=
  let H_ordered := group_by_order_pysw H in
  dn <- group_by_diagonal_pysw H ;;
  let non_diag := VExpr dn.2 in
  let H0 := py_get 0 H_ordered in
  st <- fold_result (solver_step H_ordered non_diag) (seq 1 (Z.to_nat order))
          (mkSolverState H0 H0 (VInt 0) (VInt 0)) ;;
  Ok (H_final st).

Lemma py_add_error a b e : py_add a b = Err e -> e = TypeError.
Proof. destruct a, b; cbn; congruence. Qed.

(** C33. (error) The solver never computes a transformation: on a
    Hamiltonian with a boson it raises [NameError] in [group_by_diagonal];
    otherwise, for [order <= 0] it returns the order-0 part (or [None]),
    and for any [order >= 1] the first iteration raises [TypeError]
    ([None + expr] when an order is missing, else iterating a SymPy
    expression), where spec scenario D expects [H0] plus the order-1
    diagonal part. *)
Theorem solver_outcome H order :
  solver H order =
    if has_boson H then Err NameError
    else if decide (order <= 0)%Z then Ok (py_get 0 (group_by_order_pysw H))
    else Err TypeError.
Proof.
  unfold solver. destruct (has_boson H) eqn:Eb; [by rewrite group_by_diagonal_pysw_boson|].
  rewrite group_by_diagonal_pysw_finite by done. cbn [rbind snd].
  case_decide as Ho; [by replace (Z.to_nat order) with 0 by lia|].
  replace (Z.to_nat order) with (S (Z.to_nat order - 1)) by lia.
  cbn [seq fold_result]. unfold solver_step. cbn [H_below_k].
  destruct (py_add (py_get 0 _) (py_get 1 _)) as [hb|e] eqn:E; [done|]. cbn [rbind].
  by apply py_add_error in E as ->.
Qed.

(** ** The theorems on examples *)
Module SolverExamples.
Import Fixtures.
Import PyswUtilsExamples.

(** The Hamiltonian of [src/test.py] (with [sigma_z] in place of
    [Rational(1,2) * sigma_z]) has a boson: [NameError]. *)
Example solver_test_py :
  solver (EAdd [EMul [ESym "hbar" 0; ESym "omega" 0; ad; a; a]; EMul [ESym "hbar" 0; ESym "omega_z" 0; sz];
                EMul [ESym "hbar" 0; g; EAdd [a; ad]; sx]; EMul [ESym "hbar" 0; ESym "f" 2; tx]]) 1
  = Err NameError.
Proof. reflexivity. Qed.

(** Spec scenario D without a boson: order 0 and order 1 present, the
    run of order 1 raises [TypeError]. *)
Example solver_scenario_D :
  solver (EAdd [EMul [ESym "omega" 0; sz]; EMul [g; sz]]) 1 = Err TypeError.
Proof. reflexivity. Qed.
End SolverExamples.
