(* ===== verification/SolverSemantics.v ===== *)
(** * The solver under Python's name resolution

    [Solver] follows [src/pysw/solver.py] with the values SymPy gives, up
    to the first statement that raises.  This file models every line of
    [get_ansatz] and of [solver] against an object protocol left abstract:
    a class [PyObjects] of the operations the lines perform on values
    (attribute access, calls, arithmetic, iteration, membership,
    indexing, truth, comparison and [str]).  The free names of the module
    are looked up in its namespace [globals], the names its imports and
    definitions bind; the builtins the lines use ([sum], [min], [range],
    [enumerate], [len], unpacking) are written out.  The theorems hold
    for every implementation of the protocol, so they depend only on
    which names the module binds. *)

From Stdlib Require Import ZArith.
From stdpp Require Import base list strings decidable pretty sets.
From S2P Require Import Prelude.
Import ListNotations.

(** ** The object protocol *)

Inductive BinOp : Type := OpAdd | OpMul | OpDiv | OpPow.

Class PyObjects (V : Type) := {
  o_int : Z -> V;                       (** an int literal *)
  o_bool : bool -> V;                   (** [True], [False] *)
  o_str : string -> V;                  (** a str literal *)
  o_list : list V -> V;                 (** a list display *)
  o_tuple : list V -> V;                (** a tuple display *)
  o_binop : BinOp -> V -> V -> result V;    (** [a + b], [a * b], [a / b], [a ** b] *)
  o_getattr : V -> string -> result V;      (** [v.name] *)
  o_call : V -> list V -> list (string * V) -> result V;  (** [f(args, name=value)] *)
  o_iter : V -> result (list V);        (** the items [for x in v] visits *)
  o_contains : V -> V -> result bool;   (** [x in v], as [o_contains v x] *)
  o_truth : V -> result bool;           (** [if v] *)
  o_lt : V -> V -> result bool;         (** [a < b] *)
  o_getitem : V -> V -> result V;       (** [v[k]] *)
  o_format : V -> result string;        (** [str(v)], an f-string field *)
}.

Section Semantics.
Context {V : Type} `{PyV : PyObjects V}.

(** [obj.m(args)] *)
Definition py_method (obj : V) (m : string) (args : list V) : result V :=
  f <- o_getattr obj m ;; o_call f args [].

(** [a, b = v]: iterating a non-iterable raises [TypeError] inside
    [o_iter]; the wrong number of items raises [ValueError]. *)
Definition unpack2 (v : V) : result (V * V) :=
  xs <- o_iter v ;;
  match xs with [a; b] => Ok (a, b) | _ => Err ValueError end.

(** [sum(xs)]: [0 + x1 + x2 + ...]. *)
Definition py_sum_of (xs : list V) : result V :=
  fold_result (o_binop OpAdd) xs (o_int 0).

(** [min(xs)]: [ValueError] on an empty sequence, otherwise the first
    item no later item is smaller than. *)
Definition py_min (xs : list V) : result V :=
  match xs with
  | [] => Err ValueError
  | x :: xs' => fold_result (fun m y => b <- o_lt y m ;; Ok (if b then y else m)) xs' x
  end.

(** [[x for x in xs if p(x)]] *)
Fixpoint filterR (p : V -> result bool) (xs : list V) : result (list V) :=
  match xs with
  | [] => Ok []
  | x :: xs' => b <- p x ;; ys <- filterR p xs' ;; Ok (if b then x :: ys else ys)
  end.

End Semantics.

(** ** The module namespace *)

Section Namespace.
Context {V : Type} (globals : dict string V).

(** A free name of a function body: a global of the module, or
    [NameError]. *)
Definition py_name (x : string) : result V :=
  match dget x globals with Some v => Ok v | None => Err NameError end.

End Namespace.

(** ** [get_ansatz], lines 7-40 *)

Section GetAnsatz.
Context {V : Type} `{PyV : PyObjects V} (globals : dict string V).

(** Lines 22-27: [inifnite_operators_dict.update({str(t): t})] for the
    infinite part [t = term.get_infinite()] of every term, keyed by its
    string. *)
Definition infinite_operators_dict (terms : list V) : result (dict string V) :=
  fold_result (fun d term =>
                 ti <- py_method term "get_infinite" [] ;;
                 s <- o_format ti ;;
                 Ok (dset s ti d)) terms [].

(** Lines 28-29: [temp], one call [S(dim, f'S^{(i+1)}_{min_order}',
    order=min_order)] per key of the dict. *)
Definition ansatz_calls (dim min_order : V) (n : nat) : result (list V) :=
  mapR (fun i =>
          s <- py_name globals "S" ;;
          m <- o_format min_order ;;
          o_call s [dim; o_str ("S^{(" +:+ pretty (S i) +:+ ")}_" +:+ m)] [("order", min_order)])
       (seq 0 n).

(** Lines 30-34: unpack each result of [temp] into an operator, appended
    to [Ss], and its symbols, which [symbols_list += ...] iterates. *)
Definition collect_ansatz (temp : list V) : result (list V * list V) :=
  fold_result (fun acc t =>
                 p <- unpack2 t ;;
                 ys <- o_iter p.2 ;;
                 Ok (acc.1 ++ [p.1], acc.2 ++ ys)) temp ([], []).

(** Lines 35-36: [sum([Ss[i] * op for i, (_, op) in enumerate(d.items())])]. *)
Definition ansatz_sum (Ss : list V) (d : dict string V) : result V :=
  ps <- mapR (fun iop => s <- py_index Ss iop.1 ;; o_binop OpMul s iop.2.2)
             (combine (seq 0 (length d)) d) ;;
  py_sum_of ps.

Definition get_ansatz_py (Vk : V) : result (V * V) :=
  dim <- o_getattr Vk "dim" ;;                                        (* 11 *)
  h <- py_name globals "H" ;;                                         (* 13 *)
  gd <- py_method h "group_by_diagonal" [] ;;
  Hofd <- py_method gd "get" [o_bool false; o_int 0] ;;
  order_dict <- py_method Hofd "group_by_order" [] ;;                 (* 14 *)
  ks <- py_method order_dict "keys" [] ;;                             (* 15 *)
  keys <- o_iter ks ;;
  min_order <- py_min keys ;;
  s <- py_name globals "S" ;;                                         (* 16 *)
  m <- o_format min_order ;;
  r <- o_call s [dim; o_str ("S^{(0)}_" +:+ m)] [] ;;
  p <- unpack2 r ;;
  let ansatz := p.1 in let symbols := p.2 in
  h' <- py_name globals "H" ;;                                        (* 18 *)
  inf <- o_getattr h' "is_infinite" ;;
  b <- o_truth inf ;;
  if b then
    V_k <- o_getitem order_dict min_order ;;                          (* 19 *)
    gi <- py_method V_k "group_by_infinite" [] ;;                     (* 21 *)
    ie <- py_method gi "get" [o_bool true; o_int 0] ;;
    ts <- o_getattr ie "terms" ;;                                     (* 24 *)
    terms <- o_iter ts ;;
    d <- infinite_operators_dict terms ;;                             (* 22-27 *)
    temp <- ansatz_calls dim min_order (length d) ;;                  (* 28-29 *)
    c <- collect_ansatz temp ;;                                       (* 30-34 *)
    tot <- ansatz_sum c.1 d ;;                                        (* 35-36 *)
    ansatz' <- o_binop OpAdd ansatz tot ;;
    syms <- o_binop OpAdd symbols (o_list c.2) ;;                     (* 38 *)
    Ok (ansatz', syms)
  else Ok (ansatz, symbols).                                          (* 40 *)

End GetAnsatz.

(** ** [solver], lines 43-82 *)

Section SolverLoop.
Context {V : Type} `{PyV : PyObjects V} (globals : dict string V).

(** The locals the loop carries from one iteration to the next. *)
Record LoopState : Type := mkLoopState {
  ls_H_final : V;
  ls_H_below_k : V;
  ls_Bk : V;
  ls_S : V;
}.

(** Lines 67-73: the loop over [group_by_infinite_operators(...).items()],
    adding [key * RDOperator(S_k_grouped[key].name, "S", ...)] to
    [S_k_solved] for every key. *)
Definition solve_step (S_k_grouped symbols_sk acc item : V) : result V :=
  kv <- unpack2 item ;;
  let key := kv.1 in let value := kv.2 in
  de <- py_name globals "domain_expansion" ;;                          (* 68 *)
  ve <- o_call de [value] [] ;;
  so <- py_name globals "solve" ;;                                     (* 69 *)
  sol <- o_call so [ve; symbols_sk] [] ;;
  rd <- py_name globals "RDOperator" ;;                                (* 71 *)
  g1 <- o_getitem S_k_grouped key ;; nm <- o_getattr g1 "name" ;;      (* 72 *)
  g2 <- o_getitem S_k_grouped key ;; dm <- o_getattr g2 "dim" ;;
  g3 <- o_getitem S_k_grouped key ;; mt <- o_getattr g3 "matrix" ;;    (* 73 *)
  sb <- py_method mt "subs" [sol] ;;
  op <- o_call rd [nm; o_str "S"; dm; sb] [] ;;
  pr <- o_binop OpMul key op ;;
  o_binop OpAdd acc pr.

(** One iteration of [for k in range(1, order+1)], lines 59-80. *)
Definition solver_iteration (H_ordered non_diag H0 : V) (st : LoopState) (k : nat)
    : result LoopState :=
  g <- py_method H_ordered "get" [o_int (Z.of_nat k)] ;;               (* 59 *)
  hb <- o_binop OpAdd (ls_H_below_k st) g ;;
  ts <- o_iter hb ;;                                                   (* 60 *)
  keep <- filterR (o_contains non_diag) ts ;;
  Vk <- py_sum_of keep ;;
  v <- o_binop OpAdd Vk (ls_Bk st) ;;                                  (* 62 *)
  a <- get_ansatz_py globals v ;;
  let S_k := a.1 in let symbols_sk := a.2 in
  gio <- py_name globals "group_by_infinite_operators" ;;              (* 63 *)
  S_k_grouped <- o_call gio [S_k] [] ;;
  cm <- py_name globals "Commutator" ;;                                (* 65 *)
  c <- o_call cm [H0; S_k] [] ;;
  x1 <- o_binop OpAdd c Vk ;;
  x2 <- o_binop OpAdd x1 (ls_Bk st) ;;
  ets <- py_method x2 "doit" [] ;;
  gio' <- py_name globals "group_by_infinite_operators" ;;             (* 67 *)
  gd <- o_call gio' [ets] [] ;;
  its <- py_method gd "items" [] ;;
  items <- o_iter its ;;
  S_k_solved <- fold_result (solve_step S_k_grouped symbols_sk) items (o_int 0) ;;  (* 64, 67-73 *)
  S' <- o_binop OpAdd (ls_S st) S_k_solved ;;                          (* 75 *)
  fa <- py_name globals "factorial" ;;                                 (* 76 *)
  fk <- o_call fa [o_int (Z.of_nat k)] [] ;;
  q <- o_binop OpDiv (o_int 1) fk ;;
  nc <- py_name globals "nested_commutator" ;;
  n <- o_call nc [hb; S'; o_int (Z.of_nat k)] [] ;;
  nd <- py_method n "doit" [] ;;
  tmp <- o_binop OpMul q nd ;;
  gbd <- py_name globals "group_by_diagonal" ;;                        (* 77 *)
  tmp_H <- py_name globals "tmp_H" ;;
  r <- o_call gbd [tmp_H] [] ;;
  tt <- unpack2 r ;;
  let tmp_diag := tt.1 in let tmp_non_diag := tt.2 in
  hf <- o_binop OpAdd (ls_H_final st) tmp_diag ;;                      (* 79 *)
  gbo <- py_name globals "group_by_order" ;;                           (* 80 *)
  o <- o_call gbo [tmp_non_diag] [] ;;
  bk <- py_method o "get" [o_int (Z.of_nat k + 1)] ;;
  Ok (mkLoopState hf hb bk S').

Definition solver_py (H : V) (order : Z) : result V :=
  gbo <- py_name globals "group_by_order" ;;                           (* 49 *)
  H_ordered <- o_call gbo [H] [] ;;
  gbd <- py_name globals "group_by_diagonal" ;;                        (* 50 *)
  r <- o_call gbd [H] [] ;;
  dn <- unpack2 r ;;
  let diag := dn.1 in let non_diag := dn.2 in
  H0 <- py_method H_ordered "get" [o_int 0] ;;                         (* 52 *)
  st <- fold_result (solver_iteration H_ordered non_diag H0)           (* 53-80 *)
          (seq 1 (Z.to_nat order)) (mkLoopState H0 H0 (o_int 0) (o_int 0)) ;;
  Ok (ls_H_final st).                                                  (* 82 *)

End SolverLoop.

(** ** The namespace of [src/pysw/solver.py] *)

(** The names the module binds: those of its own [def]s, of
    [from sympy import solve, factorial], and every public top-level name
    of [src/pysw/classes.py] and [src/pysw/utils.py], which the two star
    imports copy (neither module has an [__all__]; [utils.py] re-exports
    the names of [classes.py] through its own star import). *)
Definition classes_names : list string :=
  ["Operator"; "TensorProduct"; "ComplexSpace"; "sympify"; "S"; "Basic";
   "SubSpace"; "RDOperator"; "RDsymbol"].

Definition utils_names : list string :=
  classes_names ++
  ["eye"; "Mul"; "Add"; "Expr"; "Pow"; "UnevaluatedExpr"; "S"; "Commutator";
   "TensorProduct"; "BosonOp"; "defaultdict"; "sp";
   "group_by_order"; "group_by_infinite"; "group_by_diagonal"; "expand_operators";
   "group_by_infinite_operaters"; "nested_commutator"].

Definition solver_module_names : list string :=
  ["solve"; "factorial"] ++ classes_names ++ utils_names ++ ["get_ansatz"; "solver"].

(** The namespace with each name bound to some value. *)
Definition module_namespace {V} (bind : string -> V) : dict string V :=
  map (fun x => (x, bind x)) solver_module_names.

(** ** Methods of [src/pysw/classes.py] and [src/pysw/utils.py]

    The remaining functions of the two modules the solver imports do
    nothing but call SymPy; with the object protocol they are written
    line for line. *)

Section ClassMethods.
Context {V : Type} `{PyV : PyObjects V}.

(** [RDOperator._sympystr(self, printer)], lines 30-31:
    [printer._print(self.name)]. *)
Definition rdoperator_sympystr (self printer : V) : result V :=
  pr <- o_getattr printer "_print" ;;
  n <- o_getattr self "name" ;;
  o_call pr [n] [].

(** [_pretty] and [_latex], lines 33-37: [self._sympystr(printer)]. *)
Definition rdoperator_pretty (self printer : V) : result V :=
  py_method self "_sympystr" [printer].

Definition rdoperator_latex (self printer : V) : result V :=
  py_method self "_sympystr" [printer].

(** [RDOperator.__new__(cls, name, subspace)], lines 39-40, in the
    namespace [ns] of [classes.py]. *)
Definition rdoperator_new (ns : dict string V) (cls name subspace : V) : result V :=
  op <- py_name ns "Operator" ;;
  nw <- o_getattr op "__new__" ;;
  o_call nw [cls; name; subspace] [].

(** [RDsymbol._sympystr], lines 63-64:
    [printer._print(f"{printer._print(self.name)}_{printer._print(self.order)}")]. *)
Definition rdsymbol_sympystr (self printer : V) : result V :=
  pr <- o_getattr printer "_print" ;;
  p1 <- o_getattr printer "_print" ;;
  n <- o_getattr self "name" ;;
  s1 <- o_call p1 [n] [] ;;
  t1 <- o_format s1 ;;
  p2 <- o_getattr printer "_print" ;;
  o <- o_getattr self "order" ;;
  s2 <- o_call p2 [o] [] ;;
  t2 <- o_format s2 ;;
  o_call pr [o_str (t1 +:+ "_" +:+ t2)] [].

(** [group_by_infinite_operaters(expr)] of [src/pysw/utils.py], lines
    79-81: [expr.coeffs(BosonOp("a"))], in the namespace [ns] of
    [utils.py]. *)
Definition group_by_infinite_operaters_py (ns : dict string V) (expr : V) : result V :=
  bo <- py_name ns "BosonOp" ;;
  a <- o_call bo [o_str "a"] [] ;;
  py_method expr "coeffs" [a].

End ClassMethods.

(** ** Theorems *)

Section Theorems.
Context {V : Type} `{PyV : PyObjects V}.

Lemma py_name_unbound (globals : dict string V) x :
  x ∉ dkeys globals -> py_name globals x = Err NameError.
Proof. intros Hx. unfold py_name. by rewrite (proj2 (dget_None_notin x globals) Hx). Qed.

Lemma py_name_Ok (globals : dict string V) x v :
  py_name globals x = Ok v -> x ∈ dkeys globals.
Proof. unfold py_name. destruct (dget x globals) eqn:E; [|discriminate]. intros _. by eapply dget_Some_in. Qed.

Lemma dkeys_module_namespace (bind : string -> V) :
  dkeys (module_namespace bind) = solver_module_names.
Proof. unfold dkeys, module_namespace. rewrite map_map. apply map_id. Qed.

(** Line 77 reads [tmp_H]: an iteration that gets there without the name
    raises [NameError], one that does not has raised before. *)
Lemma solver_iteration_needs_tmp_H globals H_ordered non_diag H0 st k st' :
  solver_iteration globals H_ordered non_diag H0 st k = Ok st' -> "tmp_H" ∈ dkeys globals.
Proof. unfold solver_iteration. cbv zeta. intros Hok. rinv. by eapply py_name_Ok. Qed.

Lemma get_ansatz_needs_H globals Vk r :
  get_ansatz_py globals Vk = Ok r -> "H" ∈ dkeys globals.
Proof. unfold get_ansatz_py. cbv zeta. intros Hok. rinv. by eapply py_name_Ok. Qed.

Lemma solver_py_Ok_inv globals H order v :
  "tmp_H" ∉ dkeys globals -> solver_py globals H order = Ok v ->
  (order <= 0)%Z /\ exists gbo H_ordered,
    py_name globals "group_by_order" = Ok gbo /\ o_call gbo [H] [] = Ok H_ordered /\
    py_method H_ordered "get" [o_int 0] = Ok v.
Proof.
  intros Htmp Hok. unfold solver_py in Hok. cbv zeta in Hok. rinv.
  destruct (decide (order <= 0)%Z) as [Hle|Hgt].
  - replace (Z.to_nat order) with 0 in Ha5 by lia. cbn [seq fold_result] in Ha5.
    injection Ha5 as <-. subst v. split; [done|]. by exists a, a0.
  - exfalso. refine (fold_result_body_fails _ _ _ _ _ _ Ha5).
    + intros st k st' Hst. apply Htmp. by eapply solver_iteration_needs_tmp_H.
    + replace (Z.to_nat order) with (S (Z.to_nat order - 1)) by lia. discriminate.
Qed.

Lemma py_name_module_namespace (bind : string -> V) x :
  x ∈ solver_module_names -> py_name (module_namespace bind) x = Ok (bind x).
Proof.
  unfold py_name, module_namespace. induction solver_module_names as [|y l IH]; intros Hx;
    [by apply not_elem_of_nil in Hx|].
  cbn [map dget]. case_decide as E; [by subst|]. apply IH. apply elem_of_cons in Hx as [->|]; done.
Qed.

(** The names the solver and [get_ansatz] read that the module does not
    bind. *)
Lemma module_unbound_names :
  Forall (fun x => x ∉ solver_module_names)
    ["H"; "tmp_H"; "group_by_infinite_operators"; "domain_expansion"].
Proof. apply (bool_decide_unpack _). vm_compute. reflexivity. Qed.

Lemma module_namespace_unbound (bind : string -> V) x :
  x ∈ ["H"; "tmp_H"; "group_by_infinite_operators"; "domain_expansion"] ->
  x ∉ dkeys (module_namespace bind).
Proof.
  rewrite dkeys_module_namespace. intros Hx. pose proof module_unbound_names as Hu.
  rewrite Forall_forall in Hu. by apply Hu.
Qed.

(** C34. (error) Line 77 passes [tmp_H], a name no statement of the
    solver assigns ([tmp] is the variable of line 76): in any namespace
    without a global [tmp_H], whatever the objects do, no iteration of
    the loop completes, so [solver(H, order)] never returns for
    [order >= 1]. *)
Theorem solver_py_needs_tmp_H globals H order v :
  "tmp_H" ∉ dkeys globals -> (1 <= order)%Z -> solver_py globals H order <> Ok v.
Proof. intros Ht Ho Hok. destruct (solver_py_Ok_inv _ _ _ _ Ht Hok) as [Hle _]. lia. Qed.

(** C35. (functional) In the namespace of [src/pysw/solver.py], with its
    names bound to any values and any behaviour of the objects, [solver]
    returns only for [order <= 0], and then returns
    [group_by_order(H).get(0)]. *)
Theorem solver_module_outcome (bind : string -> V) H order v :
  solver_py (module_namespace bind) H order = Ok v ->
  (order <= 0)%Z /\ exists H_ordered,
    o_call (bind "group_by_order") [H] [] = Ok H_ordered /\ py_method H_ordered "get" [o_int 0] = Ok v.
Proof.
  intros Hok. apply solver_py_Ok_inv in Hok as [Hle (gbo & Ho & Hc & Hg)];
    [|apply module_namespace_unbound; set_solver].
  rewrite py_name_module_namespace in Hc by (vm_compute; set_solver). injection Hc as <-.
  split; [done|]. by exists Ho.
Qed.

(** C37. (error) In the namespace of [src/pysw/solver.py], [get_ansatz]
    never returns, whatever the objects do: it raises what [Vk.dim]
    raises (line 11), and otherwise [NameError] at line 13, which reads
    the global [H] that no import binds. *)
Theorem get_ansatz_module_fails (bind : string -> V) Vk :
  get_ansatz_py (module_namespace bind) Vk = (d <- o_getattr Vk "dim" ;; Err NameError).
Proof.
  unfold get_ansatz_py. destruct (o_getattr Vk "dim"); cbn [rbind]; [|done].
  rewrite py_name_unbound; [done|]. apply module_namespace_unbound. set_solver.
Qed.

End Theorems.

(** ** The theorems on examples *)
Module SolverSemanticsExamples.

(** Objects on which every operation succeeds: an iteration yields two
    items, a test is true, a comparison false, [str] gives ["x"]. *)
#[export] Instance unit_objects : PyObjects unit := {|
  o_int _ := tt; o_bool _ := tt; o_str _ := tt; o_list _ := tt; o_tuple _ := tt;
  o_binop _ _ _ := Ok tt; o_getattr _ _ := Ok tt; o_call _ _ _ := Ok tt;
  o_iter _ := Ok [tt; tt]; o_contains _ _ := Ok true; o_truth _ := Ok true;
  o_lt _ _ := Ok false; o_getitem _ _ := Ok tt; o_format _ := Ok "x";
|}.

Definition repo_namespace : dict string unit := module_namespace (fun _ => tt).

(** The four missing names bound as well: the solver then runs its loop
    to the end, [get_ansatz] included. *)
Example solver_py_with_missing_names :
  solver_py (repo_namespace ++ [("H", tt); ("tmp_H", tt);
                                ("group_by_infinite_operators", tt); ("domain_expansion", tt)]) tt 2
  = Ok tt.
Proof. vm_compute. reflexivity. Qed.

Lemma solver_py_needs_tmp_H_witness :
  "tmp_H" ∉ dkeys repo_namespace /\ (1 <= 2)%Z /\ solver_py repo_namespace tt 2 <> Ok tt.
Proof.
  split_and!; [apply (bool_decide_unpack _); vm_compute; reflexivity|lia|].
  apply solver_py_needs_tmp_H; [apply (bool_decide_unpack _); vm_compute; reflexivity|lia].
Defined.

Lemma solver_module_outcome_witness :
  solver_py repo_namespace tt 0 = Ok tt /\
  ((0 <= 0)%Z /\ exists H_ordered,
     o_call ((fun _ : string => tt) "group_by_order") [tt] [] = Ok H_ordered /\
     py_method H_ordered "get" [o_int 0] = Ok tt).
Proof.
  assert (E : solver_py repo_namespace tt 0 = Ok tt) by (vm_compute; reflexivity).
  split; [exact E|]. exact (solver_module_outcome (fun _ => tt) tt 0 tt E).
Defined.

End SolverSemanticsExamples.
