(* ===== verification/SolverRefinement.v ===== *)
(** * The two models of the solver agree

    [Solver] gives the solver the values SymPy gives it; [SolverSemantics]
    leaves the values to an object protocol.  This file builds the
    protocol instance of those values, [concrete_objects]: SymPy
    expressions, the dict of [group_by_order], the two-element list of
    [group_by_diagonal], Python's [None] and ints, functions and bound
    methods, with [+], [.get], [.dim], iteration and membership as
    [Solver] has them.  The generic solver run on it in the namespace of
    [src/pysw/solver.py] computes exactly what [Solver.solver] does. *)

From Stdlib Require Import ZArith.
From stdpp Require Import base list strings decidable sets.
From S2P Require Import Prelude Expr PyswUtils Solver SolverSemantics.
Import ListNotations.

(** ** The values *)

Inductive CVal : Type :=
| CNone
| CInt (z : Z)
| CBool (b : bool)
| CStr (s : string)
| CSym (e : Expr)                          (** a SymPy expression argument *)
| CSum (terms : list Expr)                 (** a SymPy sum, by its summands *)
| COrderDict (d : dict nat (list Expr))    (** the dict of [group_by_order] *)
| CList (l : list CVal)
| CTuple (l : list CVal)
| CFun (name : string)                     (** a function of the modules *)
| CMethod (self : CVal) (name : string)    (** a bound method *)
| CObj (name : string).                    (** any other global *)

Definition to_cval (v : PyVal) : CVal :=
  match v with VNone => CNone | VInt z => CInt z | VExpr l => CSum l end.

Definition of_cval (v : CVal) : option PyVal :=
  match v with CNone => Some VNone | CInt z => Some (VInt z) | CSum l => Some (VExpr l) | _ => None end.

(** [a + b] on the values [Solver] has, [TypeError] otherwise. *)
Definition cval_add (a b : CVal) : result CVal :=
  match of_cval a, of_cval b with
  | Some x, Some y => rmap to_cval (py_add x y)
  | _, _ => Err TypeError
  end.

Definition cval_getattr (v : CVal) (a : string) : result CVal :=
  match v, a with
  | COrderDict _, "get" => Ok (CMethod v "get")
  | CSum l, "dim" => rmap (fun d => CInt (Z.of_nat d)) (py_dim (VExpr l))
  | _, _ => Err AttributeError
  end.

Definition cval_call (f : CVal) (args : list CVal) (kwargs : list (string * CVal)) : result CVal :=
  match f, args, kwargs with
  | CFun "group_by_order", [CSym e], [] => Ok (COrderDict (group_by_order_pysw e))
  | CFun "group_by_diagonal", [CSym e], [] =>
      r <- group_by_diagonal_pysw e ;; Ok (CList [CSum r.1; CSum r.2])
  | CMethod (COrderDict d) "get", [CInt k], [] => Ok (to_cval (py_get (Z.to_nat k) d))
  | _, _, _ => Err TypeError
  end.

(** Only lists and tuples are iterated; [None], ints and SymPy
    expressions are not iterable. *)
Definition cval_iter (v : CVal) : result (list CVal) :=
  match v with CList l | CTuple l => Ok l | _ => Err TypeError end.

#[export] Instance concrete_objects : PyObjects CVal := {|
  o_int := CInt; o_bool := CBool; o_str := CStr; o_list := CList; o_tuple := CTuple;
  o_binop op a b := match op with OpAdd => cval_add a b | _ => Err TypeError end;
  o_getattr := cval_getattr;
  o_call := cval_call;
  o_iter := cval_iter;
  o_contains _ _ := Err TypeError;
  o_truth _ := Err TypeError;
  o_lt _ _ := Err TypeError;
  o_getitem _ _ := Err TypeError;
  o_format _ := Err TypeError;
|}.

(** The module's functions bound to themselves, every other name to an
    opaque object. *)
Definition concrete_bind (x : string) : CVal :=
  if decide (x = "group_by_order") then CFun "group_by_order"
  else if decide (x = "group_by_diagonal") then CFun "group_by_diagonal"
  else CObj x.

(** ** Refinement *)

Lemma of_to_cval v : of_cval (to_cval v) = Some v.
Proof. by destruct v. Qed.

Lemma cval_add_to_cval a b : cval_add (to_cval a) (to_cval b) = rmap to_cval (py_add a b).
Proof. unfold cval_add. by rewrite !of_to_cval. Qed.

Lemma to_cval_not_iterable v : cval_iter (to_cval v) = Err TypeError.
Proof. by destruct v. Qed.

(** Both models raise [TypeError] in the first iteration: at line 59
    when [+] fails, at line 60 when it does not. *)
Lemma solver_step_TypeError d non_diag st k : solver_step d non_diag st k = Err TypeError.
Proof.
  unfold solver_step. destruct (py_add _ _) as [hb|e] eqn:E; cbn [rbind]; [done|].
  by apply py_add_error in E as ->.
Qed.

Lemma solver_iteration_concrete_TypeError d nd H0 st k x :
  ls_H_below_k st = to_cval x ->
  solver_iteration (module_namespace concrete_bind) (COrderDict d) nd H0 st k = Err TypeError.
Proof.
  intros Hx. unfold solver_iteration, py_method.
  cbn [o_int o_getattr o_call o_binop o_iter concrete_objects cval_getattr cval_call rbind].
  rewrite Hx, Nat2Z.id, cval_add_to_cval. destruct (py_add x _) as [hb|e] eqn:E; cbn [rmap rbind].
  - by rewrite to_cval_not_iterable.
  - by apply py_add_error in E as ->.
Qed.

Lemma fold_result_first_Err {A B} (f : A -> B -> result A) x l a e :
  f a x = Err e -> fold_result f (x :: l) a = Err e.
Proof. cbn [fold_result]. by intros ->. Qed.

Lemma concrete_lookup_group_by_order :
  py_name (module_namespace concrete_bind) "group_by_order" = Ok (CFun "group_by_order").
Proof. vm_compute. reflexivity. Qed.

Lemma concrete_lookup_group_by_diagonal :
  py_name (module_namespace concrete_bind) "group_by_diagonal" = Ok (CFun "group_by_diagonal").
Proof. vm_compute. reflexivity. Qed.

(** C36. (refinement) On the values [Solver] gives it, the protocol model
    of [solver] in the namespace of [src/pysw/solver.py] computes what
    [Solver.solver] computes: the same value or the same exception, for
    every Hamiltonian and order. *)
Theorem solver_py_refines_solver H order :
  solver_py (module_namespace concrete_bind) (CSym H) order = rmap to_cval (solver H order).
Proof.
  unfold solver_py, solver. cbv zeta.
  rewrite concrete_lookup_group_by_order, concrete_lookup_group_by_diagonal.
  cbn [rbind o_call concrete_objects cval_call].
  destruct (group_by_diagonal_pysw H) as [[dg nd]|e]; cbn [rbind rmap]; [|done].
  unfold unpack2, py_method. cbn [rbind o_iter o_getattr o_call o_int concrete_objects cval_iter cval_getattr cval_call].
  destruct (Z.to_nat order) as [|n] eqn:En; cbn [seq fold_result rbind rmap ls_H_final H_final]; [done|].
  rewrite (solver_iteration_concrete_TypeError _ _ _ _ _ (py_get 0 (group_by_order_pysw H))) by done.
  by rewrite solver_step_TypeError.
Qed.
