(* ===== verification/ExpandOperators.v ===== *)
(** * [expand_operators] of [src/pysw/utils.py] with the caller's list

    [PyswUtils] gives [expand_operators] on concrete operators and
    matrices and returns the list the loop leaves in [subs].  This file
    writes every line of the function (59-76) with the object protocol of
    [SolverSemantics], the final [expr.subs(subs)] included, and keeps
    [subs] what it is in Python: a list the caller owns, which the loop
    overwrites element by element.  Its contents are state threaded
    through the loop, and they survive an exception: a failed assertion
    leaves the elements before it expanded.  [concrete_subs_objects]
    instantiates the protocol with the operators and matrices of
    [PyswUtils], where the loop computes what [PyswUtils.expand_operators]
    does. *)

From Stdlib Require Import ZArith.
From stdpp Require Import base list strings decidable sets.
From S2P Require Import Prelude Expr Matrix PyswUtils SolverSemantics.
Import ListNotations.

(** ** Comparison *)

Class PyCompare (V : Type) := {
  o_eq : V -> V -> result V;             (** [a == b] *)
  o_isinstance : V -> V -> result bool;  (** [isinstance(v, cls)] *)
}.

Section ExpandOperators.
Context {V : Type} `{PyV : PyObjects V} `{PyC : PyCompare V} (globals : dict string V).

(** [list(set(xs))]: the items without repetitions, in the iteration
    order of a Python set, which the language does not fix. *)
Variable set_list : list V -> result (list V).

(** [assert c] *)
Definition py_assert (c : V) : result unit :=
  b <- o_truth c ;; if b then Ok tt else Err AssertionError.

(** Lines 66-74 on one element [sub] of the list: unpacking, the three
    assertions, and the new pair [(op, TensorProduct(...))]. *)
Definition expand_sub (subspaces : list V) (sub : V) : result V :=
  p <- unpack2 sub ;;                                                  (* 66 *)
  let op := p.1 in let mat := p.2 in
  rd <- py_name globals "RDOperator" ;;                                (* 67 *)
  b <- o_isinstance op rd ;;
  _ <- (if b then Ok tt else Err AssertionError) ;;
  sh0 <- o_getattr mat "shape" ;; r0 <- o_getitem sh0 (o_int 0) ;;     (* 68 *)
  sh1 <- o_getattr mat "shape" ;; c1 <- o_getitem sh1 (o_int 1) ;;
  e1 <- o_eq r0 c1 ;; _ <- py_assert e1 ;;
  sp <- o_getattr op "subspace" ;; dm <- o_getattr sp "dimension" ;;   (* 69 *)
  sh2 <- o_getattr mat "shape" ;; r2 <- o_getitem sh2 (o_int 0) ;;
  e2 <- o_eq dm r2 ;; _ <- py_assert e2 ;;
  tp <- py_name globals "TensorProduct" ;;                             (* 71-74 *)
  ms <- mapR (fun space =>
                s <- o_getattr op "subspace" ;;
                e <- o_eq s space ;;
                c <- o_truth e ;;
                if c then Ok mat
                else ey <- py_name globals "eye" ;;
                     d <- o_getattr space "dimension" ;;
                     o_call ey [d] []) subspaces ;;
  t <- o_call tp ms [] ;;
  Ok (o_tuple [op; t]).

(** Line 65 and the assignment [subs[i] = ...] of line 71: the iterator
    of [enumerate(subs)] reads the element at [i] when it gets there, and
    the assignment overwrites it.  The list, in its current state, is
    returned with the outcome, also when an exception stops the loop. *)
Fixpoint expand_loop (subspaces : list V) (idx : list nat) (cur : list V) : list V * result unit :=
  match idx with
  | [] => (cur, Ok tt)
  | i :: idx' =>
      match sub <- py_index cur i ;; expand_sub subspaces sub with
      | Ok v => expand_loop subspaces idx' (<[i:=v]> cur)
      | Err e => (cur, Err e)
      end
  end.

(** Line 63: [list(set(op.subspace for op in expr.atoms(RDOperator)))]. *)
Definition subspaces_py (expr : V) : result (list V) :=
  rd <- py_name globals "RDOperator" ;;
  ats <- py_method expr "atoms" [rd] ;;
  ops <- o_iter ats ;;
  sps <- mapR (fun op => o_getattr op "subspace") ops ;;
  set_list sps.

(** Lines 59-76: line 76 returns [expr.subs(subs)] on the list as the
    loop left it.  The first component is the caller's list after the
    call. *)
Definition expand_operators_py (expr : V) (subs : list V) : list V * result V :=
  match subspaces_py expr with
  | Err e => (subs, Err e)
  | Ok subspaces =>
      let res := expand_loop subspaces (seq 0 (length subs)) subs in
      (res.1, _ <- res.2 ;; py_method expr "subs" [o_list res.1])
  end.

(** ** The loop *)

Lemma py_index_middle (pre rest : list V) x : py_index (pre ++ x :: rest) (length pre) = Ok x.
Proof. unfold py_index. by rewrite list_lookup_middle. Qed.

Lemma insert_middle (pre rest : list V) x y : <[length pre := y]> (pre ++ x :: rest) = pre ++ y :: rest.
Proof. by rewrite insert_app_r_alt, Nat.sub_diag by lia. Qed.

Lemma expand_loop_Ok sp rest : forall pre news,
  mapR (expand_sub sp) rest = Ok news ->
  expand_loop sp (seq (length pre) (length rest)) (pre ++ rest) = (pre ++ news, Ok tt).
Proof.
  induction rest as [|x rest IH]; intros pre news Hm; cbn [mapR] in Hm; rinv; subst.
  - by rewrite !app_nil_r.
  - cbn [length seq expand_loop]. rewrite py_index_middle. cbn [rbind]. rewrite Ha.
    rewrite insert_middle. replace (S (length pre)) with (length (pre ++ [a])) by (rewrite length_app; simpl; lia).
    replace (pre ++ a :: rest) with ((pre ++ [a]) ++ rest) by (by rewrite <-app_assoc).
    rewrite (IH (pre ++ [a]) a0 Ha0). by rewrite <-app_assoc.
Qed.

Lemma expand_loop_Err sp rest : forall pre k news s e,
  mapR (expand_sub sp) (take k rest) = Ok news -> rest !! k = Some s -> expand_sub sp s = Err e ->
  expand_loop sp (seq (length pre) (length rest)) (pre ++ rest) = (pre ++ news ++ drop k rest, Err e).
Proof.
  induction rest as [|x rest IH]; intros pre [|k] news s e Hm Hk He; try discriminate Hk; cbn in Hk.
  - injection Hk as ->. cbn in Hm. injection Hm as <-. cbn [length seq expand_loop].
    rewrite py_index_middle. cbn [rbind]. by rewrite He.
  - cbn [take mapR] in Hm. rinv. subst. cbn [length seq expand_loop].
    rewrite py_index_middle. cbn [rbind]. rewrite Ha, insert_middle.
    replace (S (length pre)) with (length (pre ++ [a])) by (rewrite length_app; simpl; lia).
    replace (pre ++ a :: rest) with ((pre ++ [a]) ++ rest) by (by rewrite <-app_assoc).
    rewrite (IH (pre ++ [a]) k a0 s e Ha0 Hk He).
    by rewrite <-!app_assoc.
Qed.

Lemma expand_loop_Ok0 sp subs news :
  mapR (expand_sub sp) subs = Ok news -> expand_loop sp (seq 0 (length subs)) subs = (news, Ok tt).
Proof. apply (expand_loop_Ok sp subs []). Qed.

Lemma expand_loop_Err0 sp subs k news s e :
  mapR (expand_sub sp) (take k subs) = Ok news -> subs !! k = Some s -> expand_sub sp s = Err e ->
  expand_loop sp (seq 0 (length subs)) subs = (news ++ drop k subs, Err e).
Proof. apply (expand_loop_Err sp subs []). Qed.

Lemma expand_loop_mapR sp subs :
  (expand_loop sp (seq 0 (length subs)) subs).2 = rmap (fun _ => tt) (mapR (expand_sub sp) subs) /\
  (forall news, mapR (expand_sub sp) subs = Ok news -> (expand_loop sp (seq 0 (length subs)) subs).1 = news).
Proof.
  destruct (mapR (expand_sub sp) subs) as [news|e] eqn:Em.
  - rewrite (expand_loop_Ok0 sp subs news Em). split; [done|]. by intros ? [= ->].
  - destruct (mapR_Err_first _ _ _ Em) as (k & ys & x & Hk & Hx & Hf).
    rewrite (expand_loop_Err0 sp subs k ys x e Hk Hx Hf). split; [done|]. discriminate.
Qed.

(** C39. (error) [expand_operators] overwrites the caller's list as it
    goes: when the element at position [k] fails (an assertion, or any
    exception of its expansion), the exception propagates and the
    caller's list holds the expanded elements before [k] and the original
    ones from [k] on. *)
Theorem expand_operators_py_partial expr subs sps k news s e :
  subspaces_py expr = Ok sps ->
  mapR (expand_sub sps) (take k subs) = Ok news -> subs !! k = Some s -> expand_sub sps s = Err e ->
  expand_operators_py expr subs = (news ++ drop k subs, Err e).
Proof.
  intros Hs Hk Hx He. unfold expand_operators_py. rewrite Hs. cbv zeta.
  by rewrite (expand_loop_Err0 sps subs k news s e Hk Hx He).
Qed.

(** When every element expands, the caller's list holds the expanded
    elements and the result is [expr.subs] of that list. *)
Lemma expand_operators_py_Ok expr subs sps news :
  subspaces_py expr = Ok sps -> mapR (expand_sub sps) subs = Ok news ->
  expand_operators_py expr subs = (news, py_method expr "subs" [o_list news]).
Proof.
  intros Hs Hm. unfold expand_operators_py. rewrite Hs. cbv zeta.
  by rewrite (expand_loop_Ok0 sps subs news Hm).
Qed.

End ExpandOperators.

(** ** The operators and matrices of [PyswUtils] *)

Inductive XVal : Type :=
| XOp (e : Expr)                 (** an operator, or any other expression *)
| XMat (m : Matrix)
| XSpace (s : SubSpace)
| XInt (z : Z)
| XBool (b : bool)
| XStr (s : string)
| XTuple (l : list XVal)
| XList (l : list XVal)
| XFun (name : string)           (** [RDOperator], [TensorProduct], [eye] *)
| XMethod (self : XVal) (name : string)   (** a bound method *)
| XObj (name : string).

Definition as_mat (v : XVal) : result Matrix :=
  match v with XMat m => Ok m | _ => Err TypeError end.

Definition xval_getattr (v : XVal) (a : string) : result XVal :=
  match v, a with
  | XOp e, "subspace" => match op_subspace e with Some s => Ok (XSpace s) | None => Err AttributeError end
  | XSpace s, "dimension" => Ok (XInt (Z.of_nat (ss_dim s)))
  | XMat m, "shape" => Ok (XTuple [XInt (Z.of_nat (shape m).1); XInt (Z.of_nat (shape m).2)])
  | XOp _, "atoms" => Ok (XMethod v "atoms")
  | _, _ => Err AttributeError
  end.

Definition xval_call (f : XVal) (args : list XVal) (kwargs : list (string * XVal)) : result XVal :=
  match f, args, kwargs with
  | XFun "eye", [XInt d], [] => Ok (XMat (eye (Z.to_nat d)))
  | XFun "TensorProduct", ms, [] => mats <- mapR as_mat ms ;; m <- tensor_product mats ;; Ok (XMat m)
  | XMethod (XOp e) "atoms", [XFun "RDOperator"], [] =>
      Ok (XList (map XOp (filter (fun x => is_operator x = true) (subexprs e))))
  | _, _, _ => Err TypeError
  end.

Definition xval_getitem (v i : XVal) : result XVal :=
  match v, i with XTuple l, XInt k => py_index l (Z.to_nat k) | _, _ => Err TypeError end.

#[export] Instance concrete_subs_objects : PyObjects XVal := {|
  o_int := XInt; o_bool := XBool; o_str := XStr; o_list := XList; o_tuple := XTuple;
  o_binop _ _ _ := Err TypeError;
  o_getattr := xval_getattr;
  o_call := xval_call;
  o_iter v := match v with XTuple l | XList l => Ok l | _ => Err TypeError end;
  o_contains _ _ := Err TypeError;
  o_truth v := match v with XBool b => Ok b | _ => Err TypeError end;
  o_lt _ _ := Err TypeError;
  o_getitem := xval_getitem;
  o_format _ := Err TypeError;
|}.

(** [==] on ints and subspaces; values of different kinds are unequal. *)
#[export] Instance concrete_subs_compare : PyCompare XVal := {|
  o_eq a b := match a, b with
              | XInt x, XInt y => Ok (XBool (bool_decide (x = y)))
              | XSpace x, XSpace y => Ok (XBool (bool_decide (x = y)))
              | _, _ => Ok (XBool false)
              end;
  o_isinstance v c := match v, c with
                      | XOp (EOp _ _ _ _), XFun "RDOperator" => Ok true
                      | _, XFun "RDOperator" => Ok false
                      | _, _ => Err TypeError
                      end;
|}.

(** The namespace of [src/pysw/utils.py], the three classes and functions
    the loop calls bound to themselves. *)
Definition utils_namespace (bind : string -> XVal) : dict string XVal :=
  map (fun x => (x, bind x)) utils_names.

Definition xbind (x : string) : XVal :=
  if decide (x = "RDOperator") then XFun "RDOperator"
  else if decide (x = "TensorProduct") then XFun "TensorProduct"
  else if decide (x = "eye") then XFun "eye"
  else XObj x.

(** A substitution [(op, mat)] as the tuple the list holds. *)
Definition xsub (p : Expr * Matrix) : XVal := XTuple [XOp p.1; XMat p.2].

(** ** Refinement *)

Lemma xlookup_RDOperator : py_name (utils_namespace xbind) "RDOperator" = Ok (XFun "RDOperator").
Proof. vm_compute. reflexivity. Qed.

Lemma xlookup_TensorProduct : py_name (utils_namespace xbind) "TensorProduct" = Ok (XFun "TensorProduct").
Proof. vm_compute. reflexivity. Qed.

Lemma xlookup_eye : py_name (utils_namespace xbind) "eye" = Ok (XFun "eye").
Proof. vm_compute. reflexivity. Qed.

Lemma mapR_as_mat ms : mapR as_mat (map XMat ms) = Ok ms.
Proof. induction ms as [|m ms IH]; cbn; [done|]. by rewrite IH. Qed.

Lemma xeq_int (a b : nat) :
  o_eq (XInt (Z.of_nat a)) (XInt (Z.of_nat b)) = Ok (XBool (bool_decide (a = b))).
Proof. cbn. f_equal. f_equal. apply bool_decide_ext. lia. Qed.

(** One element: the tuple the loop writes is the pair
    [PyswUtils.expand_substitution] computes, and both raise the same
    exception. *)
Lemma expand_sub_concrete sps p :
  expand_sub (utils_namespace xbind) (map XSpace sps) (xsub p) = rmap xsub (expand_substitution sps p).
Proof.
  destruct p as [op mat]. unfold expand_sub, expand_substitution, xsub, unpack2.
  cbn [fst snd o_iter concrete_subs_objects rbind]. cbv zeta. cbn [fst snd].
  rewrite xlookup_RDOperator. cbn [rbind o_isinstance concrete_subs_compare].
  destruct op as [|? ?|n s d mm|? ?| | | |]; cbn [rbind rmap]; try reflexivity.
  cbn -[mapR eye tensor_product py_name utils_namespace shape]. unfold py_index, py_assert.
  cbn -[mapR eye tensor_product py_name utils_namespace shape].
  destruct (shape mat) as [r c]. cbn [fst snd].
  replace (Z.to_nat 0) with 0 by done. replace (Z.to_nat 1) with 1 by done.
  cbn [lookup list_lookup rbind].
  destruct (decide (r = c)) as [<-|Hrc].
  2: { rewrite bool_decide_false by lia. cbn. by rewrite decide_True. }
  rewrite bool_decide_true by done. cbn -[mapR eye tensor_product py_name utils_namespace shape].
  rewrite decide_False by lia.
  destruct (decide (d = r)) as [<-|Hd].
  2: { rewrite bool_decide_false by lia. cbn. by rewrite decide_True. }
  rewrite bool_decide_true by done. cbn -[mapR eye tensor_product py_name utils_namespace shape].
  rewrite decide_False by lia.
  rewrite xlookup_TensorProduct. cbn [rbind]. rewrite mapR_map.
  rewrite (mapR_Ok_map _ (fun space => XMat (if decide (mkSubSpace s d = space) then mat else eye (ss_dim space)))).
  2: { intros space _. cbn -[py_name utils_namespace eye]. case_bool_decide as E; case_decide; try done.
       rewrite xlookup_eye. cbn. by rewrite Nat2Z.id. }
  cbn [rbind o_call concrete_subs_objects xval_call]. rewrite <-(map_map _ XMat), mapR_as_mat. cbn [rbind].
  unfold tensor_product. destruct (map _ sps) eqn:E; cbn [rbind rmap]; [done|].
  by destruct (kronecker_product _).
Qed.

(** C40. (refinement) On the operators and matrices of [PyswUtils], the
    loop of [expand_operators] written against the object protocol, with
    [subs] as the caller's list, raises exactly when
    [PyswUtils.expand_operators] does, with the same exception, and
    otherwise leaves in the caller's list the pairs it computes. *)
Theorem expand_loop_refines sps subs :
  (expand_loop (utils_namespace xbind) (map XSpace sps) (seq 0 (length subs)) (map xsub subs)).2
    = rmap (fun _ => tt) (expand_operators sps subs) /\
  (forall subs', expand_operators sps subs = Ok subs' ->
    (expand_loop (utils_namespace xbind) (map XSpace sps) (seq 0 (length subs)) (map xsub subs)).1
    = map xsub subs').
Proof.
  assert (Hm : mapR (expand_sub (utils_namespace xbind) (map XSpace sps)) (map xsub subs)
               = rmap (map xsub) (expand_operators sps subs)).
  { rewrite mapR_map. unfold expand_operators. rewrite <-mapR_rmap.
    apply mapR_ext. intros p _. apply expand_sub_concrete. }
  destruct (expand_loop_mapR (utils_namespace xbind) (map XSpace sps) (map xsub subs)) as [H1 H2].
  rewrite length_map in H1, H2. rewrite Hm in H1, H2. split.
  - rewrite H1. by destruct (expand_operators sps subs).
  - intros subs' E. apply H2. by rewrite E.
Qed.

(** ** The theorems on examples *)
Module ExpandOperatorsExamples.
Import Fixtures PyswUtilsExamples.

(** [list(set(...))] on subspaces: the first occurrence of each. *)
Definition xset_list (xs : list XVal) : result (list XVal) :=
  ss <- mapR (fun x => match x with XSpace s => Ok s | _ => Err TypeError end) xs ;;
  Ok (map XSpace (remove_dups ss)).

Definition w_ns : dict string XVal := utils_namespace xbind.
Definition w_expr : XVal := XOp (EMul [sx; tx]).
(** The second substitution gives a [2 x 2] matrix to an operator of a
    subspace of dimension 3. *)
Definition w_bad : XVal := xsub (EOp "q" "spin" 3 [], sx_mat).
Definition w_subs : list XVal := [xsub (sx, sx_mat); w_bad].
Definition w_sps : list XVal := [XSpace spin; XSpace charge].
Definition w_news : list XVal := [xsub (sx, kron2 sx_mat (eye 2))].

Lemma expand_operators_py_partial_witness :
  subspaces_py w_ns xset_list w_expr = Ok w_sps /\
  mapR (expand_sub w_ns w_sps) (take 1 w_subs) = Ok w_news /\
  w_subs !! 1 = Some w_bad /\
  expand_sub w_ns w_sps w_bad = Err AssertionError /\
  expand_operators_py w_ns xset_list w_expr w_subs = (w_news ++ drop 1 w_subs, Err AssertionError).
Proof.
  assert (H1 : subspaces_py w_ns xset_list w_expr = Ok w_sps) by (vm_compute; reflexivity).
  assert (H2 : mapR (expand_sub w_ns w_sps) (take 1 w_subs) = Ok w_news) by (vm_compute; reflexivity).
  assert (H3 : w_subs !! 1 = Some w_bad) by reflexivity.
  assert (H4 : expand_sub w_ns w_sps w_bad = Err AssertionError) by (vm_compute; reflexivity).
  split_and!; [exact H1|exact H2|exact H3|exact H4|].
  exact (expand_operators_py_partial w_ns xset_list w_expr w_subs w_sps 1 w_news w_bad AssertionError H1 H2 H3 H4).
Defined.
End ExpandOperatorsExamples.
