(* ===== verification/TestScript.v ===== *)
(** * The script [src/test.py]

    The script builds the Hamiltonian of the spec's example from the
    classes of [src/pysw/classes.py], calls [group_by_infinite_operaters]
    on it and expands its operators with [expand_operators].  Its
    statements are written here as syntax (names, literals, attribute
    access, calls with keyword arguments, binary operators, list and
    tuple displays) run in the module namespace with the object protocol
    of [SolverSemantics].  A scope check on that syntax, whether every
    name is bound where it is read, is proved to rule out [NameError];
    the script passes it, so whatever it raises comes from the objects. *)

From Stdlib Require Import ZArith.
From stdpp Require Import base list strings decidable sets.
From S2P Require Import Prelude SolverSemantics.
Import ListNotations.

(** ** Syntax *)

Inductive PyExpr : Type :=
| EName (x : string)
| EInt (z : Z)
| EStr (s : string)
| EAttr (e : PyExpr) (a : string)
| ECall (f : PyExpr) (args : list PyExpr) (kwargs : list (string * PyExpr))
| EBin (op : BinOp) (a b : PyExpr)
| EList (es : list PyExpr)
| ETuple (es : list PyExpr)
| ESumList (es : list PyExpr).   (** [sum([e1, ..., en])] *)

Inductive PyStmt : Type :=
| SAssign (x : string) (e : PyExpr)   (** [x = e] at module level *)
| SExpr (e : PyExpr).                 (** an expression statement *)

(** The induction principle with the hypotheses on the elements of the
    nested lists. *)
Section PyExpr_induction.
Variable P : PyExpr -> Prop.
Hypothesis HName : forall x, P (EName x).
Hypothesis HInt : forall z, P (EInt z).
Hypothesis HStr : forall s, P (EStr s).
Hypothesis HAttr : forall e a, P e -> P (EAttr e a).
Hypothesis HCall : forall f args kwargs, P f -> Forall P args ->
  Forall (fun kv => P kv.2) kwargs -> P (ECall f args kwargs).
Hypothesis HBin : forall op a b, P a -> P b -> P (EBin op a b).
Hypothesis HList : forall es, Forall P es -> P (EList es).
Hypothesis HTuple : forall es, Forall P es -> P (ETuple es).
Hypothesis HSumList : forall es, Forall P es -> P (ESumList es).

Fixpoint PyExpr_ind' (e : PyExpr) : P e :=
  let fix go (l : list PyExpr) : Forall P l :=
    match l with [] => List.Forall_nil _ | x :: l' => List.Forall_cons _ _ _ (PyExpr_ind' x) (go l') end in
  let fix gokw (l : list (string * PyExpr)) : Forall (fun kv => P kv.2) l :=
    match l with [] => List.Forall_nil _ | kv :: l' => List.Forall_cons _ _ _ (PyExpr_ind' kv.2) (gokw l') end in
  match e with
  | EName x => HName x
  | EInt z => HInt z
  | EStr s => HStr s
  | EAttr e a => HAttr e a (PyExpr_ind' e)
  | ECall f args kwargs => HCall f args kwargs (PyExpr_ind' f) (go args) (gokw kwargs)
  | EBin op a b => HBin op a b (PyExpr_ind' a) (PyExpr_ind' b)
  | EList es => HList es (go es)
  | ETuple es => HTuple es (go es)
  | ESumList es => HSumList es (go es)
  end.
End PyExpr_induction.

(** ** Evaluation in the module namespace *)

Section Eval.
Context {V : Type} `{PyV : PyObjects V}.

(** Python evaluates the callee, then the positional arguments and the
    keyword arguments from left to right. *)
Fixpoint eval_expr (ns : dict string V) (e : PyExpr) : result V :=
  match e with
  | EName x => py_name ns x
  | EInt z => Ok (o_int z)
  | EStr s => Ok (o_str s)
  | EAttr e a => v <- eval_expr ns e ;; o_getattr v a
  | ECall f args kwargs =>
      fv <- eval_expr ns f ;;
      vs <- mapR (eval_expr ns) args ;;
      kvs <- mapR (fun kv => v <- eval_expr ns kv.2 ;; Ok (kv.1, v)) kwargs ;;
      o_call fv vs kvs
  | EBin op a b => va <- eval_expr ns a ;; vb <- eval_expr ns b ;; o_binop op va vb
  | EList es => vs <- mapR (eval_expr ns) es ;; Ok (o_list vs)
  | ETuple es => vs <- mapR (eval_expr ns) es ;; Ok (o_tuple vs)
  | ESumList es => vs <- mapR (eval_expr ns) es ;; py_sum_of vs
  end.

(** A module-level assignment binds the name in the module's globals. *)
Definition exec_stmt (ns : dict string V) (s : PyStmt) : result (dict string V) :=
  match s with
  | SAssign x e => v <- eval_expr ns e ;; Ok (dset x v ns)
  | SExpr e => _ <- eval_expr ns e ;; Ok ns
  end.

Definition exec_stmts (ns : dict string V) (ss : list PyStmt) : result (dict string V) :=
  fold_result exec_stmt ss ns.

End Eval.

(** ** The scope check *)

Fixpoint expr_names (e : PyExpr) : list string :=
  match e with
  | EName x => [x]
  | EInt _ | EStr _ => []
  | EAttr e _ => expr_names e
  | ECall f args kwargs =>
      expr_names f ++ concat (map expr_names args) ++ concat (map (fun kv => expr_names kv.2) kwargs)
  | EBin _ a b => expr_names a ++ expr_names b
  | EList es | ETuple es | ESumList es => concat (map expr_names es)
  end.

Definition stmt_expr (s : PyStmt) : PyExpr := match s with SAssign _ e | SExpr e => e end.

Definition stmt_binds (s : PyStmt) : list string := match s with SAssign x _ => [x] | SExpr _ => [] end.

(** Every name a statement reads is bound by the imports or by an
    earlier assignment. *)
Fixpoint well_scoped (bound : list string) (ss : list PyStmt) : bool :=
  match ss with
  | [] => true
  | s :: ss' => bool_decide (Forall (fun x => x ∈ bound) (expr_names (stmt_expr s))) &&
                well_scoped (stmt_binds s ++ bound) ss'
  end.

(** ** A well-scoped script raises no [NameError] *)

Section Scope.
Context {V : Type} `{PyV : PyObjects V}.

(** The operations [eval_expr] performs on objects never raise
    [NameError] themselves. *)
Definition objects_no_NameError : Prop :=
  (forall op a b, o_binop op a b <> Err NameError) /\
  (forall v x, o_getattr v x <> Err NameError) /\
  (forall f args kwargs, o_call f args kwargs <> Err NameError).

Lemma py_sum_of_no_NameError vs :
  (forall op a b, o_binop op a b <> Err NameError) -> py_sum_of vs <> Err NameError.
Proof. intros Hb. apply fold_result_not_Err. intros. apply Hb. Qed.

Lemma mapR_eval_no_NameError ns es :
  Forall (fun e => Forall (fun x => x ∈ dkeys ns) (expr_names e) -> eval_expr ns e <> Err NameError) es ->
  Forall (Forall (fun x => x ∈ dkeys ns) ∘ expr_names) es ->
  mapR (eval_expr ns) es <> Err NameError.
Proof. intros IH Hn. apply mapR_not_Err. eapply Forall_impl2; [exact IH|exact Hn|]. intros x H1 H2. by apply H1. Qed.

Lemma eval_expr_no_NameError ns e :
  objects_no_NameError -> Forall (fun x => x ∈ dkeys ns) (expr_names e) ->
  eval_expr ns e <> Err NameError.
Proof.
  intros (Hb & Hg & Hc). induction e as [x|z|s|e a IH|f args kwargs IHf IHa IHk|op a b IHa IHb|es IH|es IH|es IH]
    using PyExpr_ind'; cbn [eval_expr expr_names]; intros Hn;
    rewrite ?Forall_app, ?Forall_concat, ?Forall_fmap in Hn.
  - inversion Hn as [|? ? Hx]. unfold py_name. destruct (dget x ns) eqn:E; [discriminate|].
    by apply dget_None_notin in E.
  - discriminate.
  - discriminate.
  - apply rbind_not_Err; [by apply IH|]. intros. apply Hg.
  - destruct Hn as (Hf & Ha & Hk). apply rbind_not_Err; [by apply IHf|]. intros fv _.
    apply rbind_not_Err.
    { by apply mapR_eval_no_NameError. }
    intros vs _. apply rbind_not_Err; [|intros; apply Hc].
    apply mapR_not_Err. eapply Forall_impl2; [exact IHk|exact Hk|].
    intros kv H1 H2. apply rbind_not_Err; [by apply H1|]. discriminate.
  - destruct Hn as [Hna Hnb]. apply rbind_not_Err; [by apply IHa|]. intros.
    apply rbind_not_Err; [by apply IHb|]. intros. apply Hb.
  - apply rbind_not_Err; [by apply mapR_eval_no_NameError|]. discriminate.
  - apply rbind_not_Err; [by apply mapR_eval_no_NameError|]. discriminate.
  - apply rbind_not_Err; [by apply mapR_eval_no_NameError|]. intros. by apply py_sum_of_no_NameError.
Qed.

Lemma elem_of_dkeys_dset k v (d : dict string V) x :
  x ∈ dkeys (dset k v d) <-> x = k \/ x ∈ dkeys d.
Proof. rewrite dkeys_dset. case_decide; set_solver. Qed.

Lemma exec_stmts_no_NameError_gen ss : forall (bound : list string) ns,
  objects_no_NameError -> bound ⊆ dkeys ns -> well_scoped bound ss = true ->
  exec_stmts ns ss <> Err NameError.
Proof.
  induction ss as [|s ss IH]; intros bound ns Hobj Hsub Hws; [discriminate|].
  cbn [well_scoped] in Hws. apply andb_true_iff in Hws as [Hs Hws].
  apply bool_decide_eq_true in Hs. unfold exec_stmts. cbn [fold_result].
  assert (He : eval_expr ns (stmt_expr s) <> Err NameError).
  { apply eval_expr_no_NameError; [done|]. eapply Forall_impl; [exact Hs|]. set_solver. }
  destruct s as [x e|e]; cbn [exec_stmt stmt_expr stmt_binds] in *;
    (apply rbind_not_Err; [apply rbind_not_Err; [done|intros; discriminate]|]);
    intros ns' Hns; destruct (eval_expr ns e) as [v|]; cbn [rbind] in Hns; simplify_eq;
    (eapply IH; [done| |exact Hws]).
  - intros y. rewrite elem_of_app, elem_of_dkeys_dset. set_solver.
  - done.
Qed.

(** The scope check is sound: a script whose every name is bound where
    it is read, run on objects that do not raise [NameError] themselves,
    does not raise [NameError]. *)
Theorem exec_stmts_no_NameError ns ss :
  objects_no_NameError -> well_scoped (dkeys ns) ss = true -> exec_stmts ns ss <> Err NameError.
Proof. intros Hobj Hws. by apply (exec_stmts_no_NameError_gen ss (dkeys ns)). Qed.
End Scope.

(** ** The script *)

(** Lines 1-7: the names the imports bind; [from pysw.utils import *] and
    [from pysw.solver import *] copy every public name of those modules. *)
Definition test_import_names : list string :=
  ["RDOperator"; "RDsymbol"] ++ utils_names ++ solver_module_names ++
  ["Dagger"; "BosonOp"; "Pow"; "Mul"; "UnevaluatedExpr"; "sp"].

Definition test_namespace {V} (bind : string -> V) : dict string V :=
  map (fun x => (x, bind x)) test_import_names.

Definition name_call (f : string) (args : list PyExpr) (kwargs : list (string * PyExpr)) : PyExpr :=
  ECall (EName f) args kwargs.

Definition mul (a b : PyExpr) : PyExpr := EBin OpMul a b.

Definition sp_matrix (rows : list (list Z)) : PyExpr :=
  ECall (EAttr (EName "sp") "Matrix") [EList (map (fun r => EList (map EInt r)) rows)] [].

(** Lines 8-39, statement by statement. *)
Definition test_script : list PyStmt := [
  SExpr (ECall (EAttr (EName "sp") "init_printing") [] []);
  SAssign "spin" (name_call "SubSpace" [EStr "spin"] [("dim", EInt 2)]);
  SAssign "charge" (name_call "SubSpace" [EStr "charge"] [("dim", EInt 2)]);
  SAssign "sigma_x" (name_call "RDOperator" [EStr "sigma_x"] [("subspace", EName "spin")]);
  SAssign "sigma_z" (name_call "RDOperator" [EStr "sigma_z"] [("subspace", EName "spin")]);
  SAssign "tau_x" (name_call "RDOperator" [EStr "tau_x"] [("subspace", EName "charge")]);
  SAssign "a" (name_call "BosonOp" [EStr "a"] []);
  SAssign "hbar" (name_call "RDsymbol" [EStr "hbar"] [("order", EInt 0)]);
  SAssign "omega" (name_call "RDsymbol" [EStr "omega"] [("order", EInt 0)]);
  SAssign "omega_z" (name_call "RDsymbol" [EStr "omega_z"] [("order", EInt 0)]);
  SAssign "g" (name_call "RDsymbol" [EStr "g"] [("order", EInt 1)]);
  SAssign "f" (name_call "RDsymbol" [EStr "f"] [("order", EInt 2)]);
  SAssign "H" (ESumList [
    mul (mul (mul (EName "hbar") (EName "omega")) (name_call "Dagger" [EName "a"] []))
        (EBin OpPow (EName "a") (EInt 2));
    mul (mul (mul (EName "hbar") (EName "omega_z"))
             (ECall (EAttr (EName "sp") "Rational") [EInt 1; EInt 2] []))
        (EName "sigma_z");
    mul (mul (mul (EName "hbar") (EName "g"))
             (EBin OpAdd (EName "a") (name_call "Dagger" [EName "a"] [])))
        (EName "sigma_x");
    mul (mul (EName "hbar") (EName "f")) (EName "tau_x")]);
  SExpr (ECall (EAttr (EName "sp") "pprint") [EName "H"] []);
  SExpr (name_call "group_by_infinite_operaters" [EName "H"] []);
  SAssign "H" (name_call "expand_operators" [EName "H"] [("subs", EList [
    ETuple [EName "sigma_x"; sp_matrix [[0; 1]; [1; 0]]%Z];
    ETuple [EName "sigma_z"; sp_matrix [[1; 0]; [0; -1]]%Z];
    ETuple [EName "tau_x"; sp_matrix [[0; 1]; [1; 0]]%Z]])])
].

Lemma dkeys_test_namespace {V} (bind : string -> V) : dkeys (test_namespace bind) = test_import_names.
Proof. unfold dkeys, test_namespace. rewrite map_map. apply map_id. Qed.

(** C38. (safety) [src/test.py] reads no unbound name: every name it uses
    is bound by its imports or by an earlier line, so for any objects that
    do not raise [NameError] themselves the script does not raise it,
    whatever values its imports bind. *)
Theorem test_script_no_NameError {V} `{PyObjects V} (bind : string -> V) :
  objects_no_NameError -> exec_stmts (test_namespace bind) test_script <> Err NameError.
Proof.
  intros Hobj. apply exec_stmts_no_NameError; [done|].
  rewrite dkeys_test_namespace. vm_compute. reflexivity.
Qed.

Module TestScriptExamples.
Import SolverSemanticsExamples.

(** On objects whose operations all succeed the script runs to its end
    and binds [H]. *)
Example test_script_runs :
  exists ns, exec_stmts (test_namespace (fun _ => tt)) test_script = Ok ns /\ dget "H" ns = Some tt.
Proof. eexists. split; [vm_compute; reflexivity|reflexivity]. Qed.

Lemma test_script_no_NameError_witness :
  objects_no_NameError (V:=unit) /\ exec_stmts (test_namespace (fun _ => tt)) test_script <> Err NameError.
Proof.
  assert (Hobj : objects_no_NameError (V:=unit)) by (split_and!; discriminate).
  split; [exact Hobj|]. exact (test_script_no_NameError (fun _ => tt) Hobj).
Defined.
End TestScriptExamples.
